(** * qtek glTF loader (src/loader/GLTF.js): a shallow embedding

    The loader turns a parsed JSON document ([json]) and the table of loaded
    binary buffers ([lib.buffers]) into scene entities.  Each parsing stage
    of the source ([_parseSkins], [_parseMaterials], [_parseMeshes],
    [_parseNodes], [_parseAnimations]) is embedded in a module of its own;
    JavaScript exceptions are an explicit error result, mutable objects live
    in explicit stores, and the function-scoped [var]s that survive from one
    loop iteration to the next are threaded through the loops.  The entry
    points of the loader ([load], [parse], [_loadBuffer]) and
    [_parseTextures] follow, with the uniform templates of the point light
    (src/3d/light/point.js) and the fragment shader of
    src/shader/source/basic.essl. *)

From stdpp Require Import gmap strings pretty list fin_maps.
From Stdlib Require Import ZArith Reals Lra.

(** ** JavaScript outcomes *)

(** The exceptions the embedded code can raise.  [StackOverflow] is the
    [RangeError] of an exhausted call stack; the recursive walk of the skin
    binder reaches it on a cyclic node hierarchy, and the fuel of the model
    stands for the depth of the stack. *)
Inductive jsError : Type :=
  | TypeError
  | RangeError
  | StackOverflow.

Inductive result (A : Type) : Type :=
  | Ok (a : A)
  | Err (e : jsError).
Arguments Ok {A} a.
Arguments Err {A} e.

#[global] Instance result_ret : MRet result := λ A a, Ok a.
#[global] Instance result_bind : MBind result := λ A B k r,
  match r with
  | Ok a => k a
  | Err e => Err e
  end.

#[global] Instance result_fmap : FMap result := λ A B f r,
  match r with
  | Ok a => Ok (f a)
  | Err e => Err e
  end.

(** A [for] loop over a list whose body may throw. *)
Fixpoint forM {A S : Type} (body : S → A → result S) (l : list A) (s : S)
  : result S :=
  match l with
  | [] => Ok s
  | a :: rest => s' ← body s a; forM body rest s'
  end.

(** ** JSON objects

    A JSON object that the loader iterates with [for (name in obj)] is the
    list of its entries in iteration order; [obj_get o name] is [o[name]]
    ([None] is [undefined]).  The keys of a JavaScript object are pairwise
    distinct. *)
Abbreviation obj A := (list (string * A)) (only parsing).

Fixpoint obj_get {A : Type} (o : obj A) (name : string) : option A :=
  match o with
  | [] => None
  | (k, v) :: rest => if decide (k = name) then Some v else obj_get rest name
  end.

Definition obj_keys {A : Type} (o : obj A) : list string := o.*1.

(** The property key a possibly [undefined] value is converted to. *)
Definition propertyKey (k : option string) : string :=
  match k with
  | Some s => s
  | None => "undefined"
  end.

(** ** Typed arrays

    An [ArrayBuffer] is its bytes.  A typed array constructed over a buffer
    is a view: it names the buffer and does not copy it. *)
Inductive ArrayCtor : Type :=
  | Int8Array
  | Uint8Array
  | Int16Array
  | Uint16Array
  | Uint32Array
  | Float32Array.

#[global] Instance ArrayCtor_eq_dec : EqDecision ArrayCtor.
Proof. solve_decision. Defined.

Definition BYTES_PER_ELEMENT (c : ArrayCtor) : nat :=
  match c with
  | Int8Array | Uint8Array => 1
  | Int16Array | Uint16Array => 2
  | Uint32Array | Float32Array => 4
  end.

Record TypedView : Type := mkView {
  tv_ctor : ArrayCtor;
  tv_buffer : option string;
  tv_byteOffset : nat;
  tv_length : nat
}.

(** [new ArrayCtor(buffer, byteOffset, length)] with [buffer] read from
    [lib.buffers].  Over a loaded buffer the constructor throws a
    [RangeError] when the offset is not a multiple of the element width or
    the view would end past the buffer.  A buffer that failed to load is
    [undefined]: the constructor then takes its first argument for a length,
    which converts to 0, and returns an empty array of its own. *)
Definition newTypedArray (ctor : ArrayCtor)
    (buffers : gmap string (list Byte.byte)) (bufferName : string)
    (byteOffset len : nat) : result TypedView :=
  match buffers !! bufferName with
  | None => Ok (mkView ctor None 0 0)
  | Some bytes =>
      if decide (byteOffset mod BYTES_PER_ELEMENT ctor = 0
                 ∧ byteOffset + len * BYTES_PER_ELEMENT ctor ≤ length bytes)
      then Ok (mkView ctor (Some bufferName) byteOffset len)
      else Err RangeError
  end.

Record BufferViewInfo : Type := mkBufferView {
  bv_buffer : string;
  bv_byteOffset : nat
}.

(** ** [_parseSkins]: skeletons, joints and their binding to nodes *)
Module Skins.

(** Scene nodes are objects built by [_parseNodes]; the skin binder only
    passes them around by reference. *)
Abbreviation nodeRef := nat (only parsing).

(** Joints are objects shared between [skeleton.joints], [jointsMap] and
    [skeleton.roots]: they live in a store and are named by location. *)
Abbreviation loc := nat (only parsing).

Record Joint : Type := mkJoint {
  j_name : string;
  j_index : Z;
  j_parentIndex : Z;
  j_node : option nodeRef;
  j_rootNode : option nodeRef
}.

Record Skeleton : Type := mkSkeleton {
  sk_name : string;
  sk_joints : list loc;
  sk_roots : list loc;
  sk_invBindPoseMatricesArray : option TypedView;
  sk_skinMatricesArray : option nat;
  sk_updated : option bool
}.

Record InverseBindMatrices : Type := mkIBM {
  ibm_bufferView : string;
  ibm_byteOffset : nat;
  ibm_count : nat
}.

Record SkinInfo : Type := mkSkinInfo {
  skin_joints : list string;
  skin_inverseBindMatrices : option InverseBindMatrices
}.

Record InstanceSkin : Type := mkInstanceSkin {
  is_skin : string;
  is_skeletons : list string
}.

Record NodeInfo : Type := mkNodeInfo {
  n_jointId : option string;
  n_children : option (list string);
  n_instanceSkin : option InstanceSkin
}.

Record Json : Type := mkJson {
  json_skins : obj SkinInfo;
  json_nodes : obj NodeInfo;
  json_bufferViews : obj BufferViewInfo
}.

Section WithCollaborators.

(** The state of the scene's meshes and materials. *)
Context {Scene : Type}.

(** What [new Joint(opts)] leaves in the fields that [opts] does not give:
    the constructor is outside src. *)
Variable Joint_defaults : Joint.

(** Lines 411-419: [enableSkinningForMesh] on the node itself when it is a
    [Mesh], on each of its [_children] otherwise.  It touches meshes and
    materials only (clone, shader lookup), whose code is outside src, and
    throws when the node or a material is missing.  The skeleton is passed
    by name, the joint index list by value. *)
Variable enableSkinningForNode :
  Scene → option nodeRef → string → list Z → result Scene.

Record Lib : Type := mkLib {
  lib_buffers : gmap string (list Byte.byte);
  lib_nodes : gmap string nodeRef;
  lib_skeletons : gmap string Skeleton;
  joint_store : list Joint;
  lib_scene : Scene
}.

(** Lines 314-321: one joint per entry of [skinInfo.joints], its index the
    length of [skeleton.joints] at the time it is pushed. *)
Fixpoint createJoints (jointIds : list string) (store : list Joint)
    (joints : list loc) : list Joint * list loc :=
  match jointIds with
  | [] => (store, joints)
  | jointId :: rest =>
      let joint :=
        mkJoint jointId (Z.of_nat (length joints))
          (j_parentIndex Joint_defaults) (j_node Joint_defaults)
          (j_rootNode Joint_defaults) in
      createJoints rest (store ++ [joint]) (joints ++ [length store])
  end.

(** Lines 322-336: the inverse bind matrices are a view over the buffer,
    the skin matrices a fresh array of the same length. *)
Definition sliceInverseBindMatrices (json : Json)
    (buffers : gmap string (list Byte.byte)) (IBMInfo : InverseBindMatrices)
  : result TypedView :=
  match obj_get (json_bufferViews json) (ibm_bufferView IBMInfo) with
  | None => Err TypeError
  | Some bufferViewInfo =>
      let offset := ibm_byteOffset IBMInfo + bv_byteOffset bufferViewInfo in
      let size := ibm_count IBMInfo * 16 in
      newTypedArray Float32Array buffers (bv_buffer bufferViewInfo) offset size
  end.

(** Lines 309-338: the body of the loop over [json.skins].  The boolean is
    [haveInvBindMatrices].  A new [Skeleton] (its constructor is outside
    src) has no joints and no roots yet. *)
Definition createSkeleton (json : Json) (st : Lib * bool)
    (entry : string * SkinInfo) : result (Lib * bool) :=
  let '(lib, haveInvBindMatrices) := st in
  let '(name, skinInfo) := entry in
  let '(store, joints) :=
    createJoints (skin_joints skinInfo) (joint_store lib) [] in
  '(invBind, have) ←
    match skin_inverseBindMatrices skinInfo with
    | Some IBMInfo =>
        array ← sliceInverseBindMatrices json (lib_buffers lib) IBMInfo;
        Ok (Some array, true)
    | None => Ok (None, haveInvBindMatrices)
    end;
  let skeleton :=
    mkSkeleton name joints [] invBind (tv_length <$> invBind) None in
  Ok (mkLib (lib_buffers lib) (lib_nodes lib)
        (<[name := skeleton]> (lib_skeletons lib)) store (lib_scene lib),
      have).

(** Lines 340-367.  A matched joint is updated in place; an unmatched node
    gets a new joint.  The recursion follows [nodeInfo.children] and ends
    only if the hierarchy below [nodeName] is finite: [fuel] bounds the
    depth of the call stack. *)
Fixpoint bindNodeToJoint (fuel : nat) (json : Json)
    (nodes : gmap string nodeRef) (jointsMap : gmap string loc)
    (nodeName : string) (parentIndex : Z) (rootNode : option nodeRef)
    (store : list Joint) : result (option loc * list Joint) :=
  match fuel with
  | O => Err StackOverflow
  | S fuel' =>
      let node := nodes !! nodeName in
      match obj_get (json_nodes json) nodeName with
      | None => Err TypeError
      | Some nodeInfo =>
          let joint := jointsMap !! propertyKey (n_jointId nodeInfo) in
          '(joint, parentIndex, store) ←
            match joint with
            | Some l =>
                match store !! l with
                | Some j =>
                    Ok (joint, j_index j,
                        <[l := mkJoint (j_name j) (j_index j) parentIndex
                                 node rootNode]> store)
                | None => Err TypeError
                end
            | None =>
                Ok (Some (length store), parentIndex,
                    store ++ [mkJoint (j_name Joint_defaults)
                                (j_index Joint_defaults) parentIndex
                                node rootNode])
            end;
          match n_children nodeInfo with
          | None => Err TypeError
          | Some children =>
              store ←
                forM (λ s child,
                        snd <$> bindNodeToJoint fuel' json nodes jointsMap
                                  child parentIndex rootNode s)
                     children store;
              Ok (joint, store)
          end
      end
  end.

(** Lines 421-425: [jointsMap[joint.name] = joint] over [skeleton.joints]. *)
Fixpoint buildJointsMap (store : list Joint) (joints : list loc)
    (jointsMap : gmap string loc) : result (gmap string loc) :=
  match joints with
  | [] => Ok jointsMap
  | l :: rest =>
      match store !! l with
      | Some joint => buildJointsMap store rest (<[j_name joint := l]> jointsMap)
      | None => Err TypeError
      end
  end.

(** [skeleton.joints.map(getJointIndex)]. *)
Fixpoint jointIndices (store : list Joint) (joints : list loc)
  : result (list Z) :=
  match joints with
  | [] => Ok []
  | l :: rest =>
      match store !! l with
      | Some joint => (j_index joint ::.) <$> jointIndices store rest
      | None => Err TypeError
      end
  end.

(** Lines 428-435: the body of the loop over the skin's root node ids.  The
    state is the joint store and [skeleton.roots]; the [match] is the guard
    [if (rootJoint)]. *)
Definition bindRoot (fuel : nat) (json : Json) (nodes : gmap string nodeRef)
    (jointsMap : gmap string loc) (st : list Joint * list loc)
    (rootName : string) : result (list Joint * list loc) :=
  let '(store, roots) := st in
  let rootNode := nodes !! rootName in
  '(rootJoint, store) ←
    bindNodeToJoint fuel json nodes jointsMap rootName (-1) rootNode store;
  match rootJoint with
  | Some l => Ok (store, roots ++ [l])
  | None => Ok (store, roots)
  end.

(** [instanceSkins[skinName] = skeleton] keeps the position of a key that is
    already there. *)
Definition recordInstanceSkin (instanceSkins : list string) (skinName : string)
  : list string :=
  if decide (skinName ∈ instanceSkins) then instanceSkins
  else instanceSkins ++ [skinName].

(** Lines 400-437: the body of the loop over [json.nodes]. *)
Definition bindInstanceSkin (fuel : nat) (json : Json)
    (st : Lib * list string) (entry : string * NodeInfo)
  : result (Lib * list string) :=
  let '(lib, instanceSkins) := st in
  let '(name, nodeInfo) := entry in
  match n_instanceSkin nodeInfo with
  | None => Ok st
  | Some instanceSkin =>
      let skinName := is_skin instanceSkin in
      let instanceSkins' := recordInstanceSkin instanceSkins skinName in
      let node := lib_nodes lib !! name in
      match lib_skeletons lib !! skinName with
      | None => Err TypeError
      | Some skeleton =>
          indices ← jointIndices (joint_store lib) (sk_joints skeleton);
          scene' ← enableSkinningForNode (lib_scene lib) node skinName indices;
          jointsMap ← buildJointsMap (joint_store lib) (sk_joints skeleton) ∅;
          '(store', roots') ←
            forM (bindRoot fuel json (lib_nodes lib) jointsMap)
                 (is_skeletons instanceSkin)
                 (joint_store lib, sk_roots skeleton);
          let skeleton' :=
            mkSkeleton (sk_name skeleton) (sk_joints skeleton) roots'
              (sk_invBindPoseMatricesArray skeleton)
              (sk_skinMatricesArray skeleton) (sk_updated skeleton) in
          Ok (mkLib (lib_buffers lib) (lib_nodes lib)
                (<[skinName := skeleton']> (lib_skeletons lib)) store' scene',
              instanceSkins')
      end
  end.

(** Modelled from the spec: [Skeleton.updateMatricesSubArrays],
    [Skeleton.updateJointMatrices] and [Skeleton.update] are outside src.
    The spec has them recompute the skin matrices (from the sliced
    inverse-bind data if present, else from identity) and the skeleton's
    derived state; the model records which of the two ran. *)
Definition updateSkeleton (haveInvBindMatrices : bool)
    (skeletons : gmap string Skeleton) (name : string)
  : gmap string Skeleton :=
  alter (λ sk, mkSkeleton (sk_name sk) (sk_joints sk) (sk_roots sk)
                 (sk_invBindPoseMatricesArray sk) (sk_skinMatricesArray sk)
                 (Some haveInvBindMatrices))
        name skeletons.

(** Lines 305-449. *)
Definition _parseSkins (fuel : nat) (json : Json) (lib : Lib) : result Lib :=
  '(lib1, haveInvBindMatrices) ←
    forM (createSkeleton json) (json_skins json) (lib, false);
  '(lib2, instanceSkins) ←
    forM (bindInstanceSkin fuel json) (json_nodes json) (lib1, []);
  Ok (mkLib (lib_buffers lib2) (lib_nodes lib2)
        (foldl (updateSkeleton haveInvBindMatrices) (lib_skeletons lib2)
           instanceSkins)
        (joint_store lib2) (lib_scene lib2)).

(** The hierarchy below [nodeName] has at most [depth] levels, every node
    of it is declared in [json.nodes] and declares its [children]. *)
Fixpoint hierarchy_ok (depth : nat) (json : Json) (nodeName : string) : bool :=
  match depth with
  | O => false
  | S depth' =>
      match obj_get (json_nodes json) nodeName with
      | Some nodeInfo =>
          match n_children nodeInfo with
          | Some children => forallb (hierarchy_ok depth' json) children
          | None => false
          end
      | None => false
      end
  end.

(** Every location of the map names a joint of the store. *)
Definition jointsMap_ok (jointsMap : gmap string loc) (store : list Joint)
  : Prop :=
  map_Forall (λ _ l, l < length store) jointsMap.

(** What a run of the binder may do to the joint store: joints are never
    removed, keep their [name] and [index], and a joint that [jointsMap]
    does not hold is left as it is. *)
Definition store_step (jointsMap : gmap string loc) (store store' : list Joint)
  : Prop :=
  length store ≤ length store'
  ∧ (∀ l j, store !! l = Some j →
       ∃ j', store' !! l = Some j' ∧ j_index j' = j_index j
             ∧ j_name j' = j_name j)
  ∧ (∀ l j, store !! l = Some j → (∀ k, jointsMap !! k ≠ Some l) →
       store' !! l = Some j).

(** [joints[i].index === i] for the joints of a skeleton. *)
Definition skeleton_indexed (store : list Joint) (skeleton : Skeleton) : Prop :=
  ∀ i l, sk_joints skeleton !! i = Some l →
    ∃ j, store !! l = Some j ∧ j_index j = Z.of_nat i.

(** The skin [name] has its skeleton in [lib.skeletons], with one joint per
    declared joint id and each joint's index its position. *)
Definition skin_bound (lib : Lib) (name : string)
    (skinInfo : SkinInfo) : Prop :=
  ∃ skeleton,
    lib_skeletons lib !! name = Some skeleton
    ∧ length (sk_joints skeleton) = length (skin_joints skinInfo)
    ∧ skeleton_indexed (joint_store lib) skeleton.

(** A document that the skin binder can process: the inverse bind
    matrices of every skin can be sliced from the loaded buffers, and
    every node with an [instanceSkin] names a declared skin and root nodes
    with a finite, fully declared hierarchy of at most [depth] levels. *)
Definition document_ok (depth : nat) (json : Json) (lib : Lib) : Prop :=
  Forall (λ entry : string * SkinInfo,
            match skin_inverseBindMatrices entry.2 with
            | Some IBMInfo =>
                ∃ array,
                  sliceInverseBindMatrices json (lib_buffers lib) IBMInfo
                  = Ok array
            | None => True
            end) (json_skins json)
  ∧ Forall (λ entry : string * NodeInfo,
              match n_instanceSkin entry.2 with
              | Some instanceSkin =>
                  is_Some (obj_get (json_skins json) (is_skin instanceSkin))
                  ∧ forallb (hierarchy_ok depth json)
                      (is_skeletons instanceSkin) = true
              | None => True
              end) (json_nodes json).

(** The collaborator that enables skinning on the meshes never throws. *)
Definition collaborators_ok : Prop :=
  ∀ scene node skin indices,
    ∃ scene', enableSkinningForNode scene node skin indices = Ok scene'.

End WithCollaborators.

(** A skinned mesh node over a three-level hierarchy whose middle node is
    not a joint of the skin. *)
Definition ex_json : Json :=
  mkJson
    [("skin", mkSkinInfo ["jRoot"; "jArm"] None)]
    [("mesh", mkNodeInfo None (Some [])
                (Some (mkInstanceSkin "skin" ["root"])));
     ("root", mkNodeInfo (Some "jRoot") (Some ["helper"]) None);
     ("helper", mkNodeInfo None (Some ["arm"]) None);
     ("arm", mkNodeInfo (Some "jArm") (Some []) None)]
    [].

Definition ex_defaults : Joint := mkJoint "" (-1) (-1) None None.

Definition ex_lib : Lib (Scene := unit) :=
  mkLib ∅ (list_to_map [("mesh", 0); ("root", 1); ("helper", 2); ("arm", 3)])
    ∅ [] tt.

Definition ex_enableSkinning (scene : unit) (node : option nodeRef)
    (skin : string) (indices : list Z) : result unit :=
  Ok scene.

Definition ex_store : list Joint :=
  [mkJoint "jRoot" 0 (-1) None None; mkJoint "jArm" 1 (-1) None None].

Definition ex_jointsMap : gmap string loc :=
  <["jArm" := 1]> (<["jRoot" := 0]> ∅).

End Skins.

(** ** [_parseMeshes]: geometry and materials of the mesh primitives *)
Module Meshes.

(** The element of a typed array, as the bytes that store it.  Two arrays
    of one constructor read the same number from the same bytes; a copy
    between them keeps the bytes (a NaN stays a NaN). *)
Abbreviation Elem := (list Byte.byte) (only parsing).

(** [array[k]] through a view; [None] is [undefined], past the end. *)
Definition readView (buffers : gmap string (list Byte.byte)) (v : TypedView)
    (k : nat) : option Elem :=
  if decide (k < tv_length v) then
    bytes ← tv_buffer v ≫= (buffers !!.);
    Some (take (BYTES_PER_ELEMENT (tv_ctor v))
            (drop (tv_byteOffset v + k * BYTES_PER_ELEMENT (tv_ctor v)) bytes))
  else None.

(** What a typed array stores when it is assigned a value read from an
    array of the same constructor: the value itself, or the conversion of
    [undefined] (NaN in a float array, 0 in an integer array). *)
Definition storeElem (ctor : ArrayCtor) (v : option Elem) : Elem :=
  match v with
  | Some e => e
  | None =>
      match ctor with
      | Float32Array => [Byte.x00; Byte.x00; Byte.xc0; Byte.x7f]
      | _ => replicate (BYTES_PER_ELEMENT ctor) Byte.x00
      end
  end.

Definition semanticAttributeMap : obj string :=
  [("NORMAL", "normal"); ("POSITION", "position");
   ("TEXCOORD_0", "texcoord0"); ("TEXCOORD_1", "texcoord1");
   ("WEIGHT", "weight"); ("JOINT", "joint"); ("COLOR", "color")].

(** [accessor.type]: a GL enum in documents older than 1.0, a name since. *)
Inductive AccessorType : Type :=
  | TypeEnum (n : N)
  | TypeName (s : string).

(** Lines 676-682: the constructor for a [componentType]. *)
Definition componentCtor (componentType : N) : ArrayCtor :=
  if decide (componentType = 5120%N) then Int8Array
  else if decide (componentType = 5121%N) then Uint8Array
  else if decide (componentType = 5122%N) then Int16Array
  else if decide (componentType = 5123%N) then Uint16Array
  else Float32Array.

(** Lines 684-692: the element size for a type name; [None] is the
    [undefined] of a key the table does not have. *)
Definition typeSize (attributeType : option AccessorType) : option nat :=
  match attributeType with
  | Some (TypeName s) =>
      obj_get [("SCALAR", 1); ("VEC2", 2); ("VEC3", 3); ("VEC4", 4);
               ("MAT2", 4); ("MAT3", 9); ("MAT4", 16)] s
  | _ => None
  end.

(** The value of an attribute slot of the geometry: a view over a loaded
    buffer, or an array of its own. *)
Inductive AttributeValue : Type :=
  | ViewValue (array : TypedView)
  | OwnedValue (ctor : ArrayCtor) (elems : list (list Byte.byte)).

(** Lines 704-709: the fresh array of [count * 3] zeros and the loop that
    fills it. *)
Definition copyWeight (attributeArray : nat → option Elem) (ctor : ArrayCtor)
    (weightArray : list Elem) (i : nat) : list Elem :=
  let weightArray :=
    <[i * 3 := storeElem ctor (attributeArray (i * 4))]> weightArray in
  let weightArray :=
    <[i * 3 + 1 := storeElem ctor (attributeArray (i * 4 + 1))]> weightArray in
  <[i * 3 + 2 := storeElem ctor (attributeArray (i * 4 + 2))]> weightArray.

Definition compactWeights (attributeArray : nat → option Elem)
    (ctor : ArrayCtor) (count : nat) : list Elem :=
  foldl (copyWeight attributeArray ctor)
    (replicate (count * 3) (replicate (BYTES_PER_ELEMENT ctor) Byte.x00))
    (seq 0 count).

Section WithNumbers.

(** JSON numbers that the stage copies and never computes with. *)
Context {num : Type}.

(** The materials of [lib.materials], built by [_parseMaterials]. *)
Context {Material : Type}.

(** [new Material({shader: shaderLib.get(shaderName)})]. *)
Variable defaultMaterial : Material.

(** [material.shader.isTextureEnabled('normalMap')]. *)
Variable normalMapEnabled : Material → bool.

Record AccessorInfo : Type := mkAccessor {
  a_bufferView : string;
  a_byteOffset : nat;
  a_componentType : option N;
  a_type : option AccessorType;
  a_count : nat;
  a_min : option (list num);
  a_max : option (list num)
}.

Record PrimitiveInfo : Type := mkPrimitive {
  p_attributes : obj string;
  p_indices : string;
  p_material : string
}.

Record MeshInfo : Type := mkMeshInfo {
  m_primitives : list PrimitiveInfo;
  m_name : option string
}.

Record Json : Type := mkJson {
  json_accessors : obj AccessorInfo;
  json_bufferViews : obj BufferViewInfo;
  json_meshes : obj MeshInfo
}.

Record Geometry : Type := mkGeometry {
  g_attributes : gmap string AttributeValue;
  g_indices : option TypedView;
  g_boundingBox_min : option (list (option num));
  g_boundingBox_max : option (list (option num));
  g_tangents : bool
}.

(** Modelled from the spec: [geometry.generateTangents()] is outside src;
    the spec has it derive the tangent data of a geometry that lacks it.
    The model records that it ran and leaves the other slots alone. *)
Definition generateTangents (geometry : Geometry) : Geometry :=
  mkGeometry (g_attributes geometry) (g_indices geometry)
    (g_boundingBox_min geometry) (g_boundingBox_max geometry) true.

Record Mesh : Type := mkMesh {
  mesh_geometry : Geometry;
  mesh_material : Material;
  mesh_name : option string
}.

(** The [var]s of [_parseMeshes] that keep their value from one attribute
    to the next, and the console. *)
Record Vars : Type := mkVars {
  v_size : option nat;
  v_ArrayCtor : option ArrayCtor;
  v_warnings : list string
}.

Record Lib : Type := mkLib {
  lib_buffers : gmap string (list Byte.byte);
  lib_materials : gmap string Material;
  lib_meshes : gmap string (list Mesh)
}.

(** Lines 648-693: [size] and [ArrayCtor] for an accessor.  In the legacy
    branch an unsupported type warns and leaves both as they were. *)
Definition decodeLayout (vars : Vars) (attributeInfo : AccessorInfo) : Vars :=
  match a_componentType attributeInfo with
  | None =>
      match a_type attributeInfo with
      | Some (TypeEnum 0x8B50) =>
          mkVars (Some 2) (Some Float32Array) (v_warnings vars)
      | Some (TypeEnum 0x8B51) =>
          mkVars (Some 3) (Some Float32Array) (v_warnings vars)
      | Some (TypeEnum 0x8B52) =>
          mkVars (Some 4) (Some Float32Array) (v_warnings vars)
      | Some (TypeEnum 0x1406) =>
          mkVars (Some 1) (Some Float32Array) (v_warnings vars)
      | _ =>
          mkVars (v_size vars) (v_ArrayCtor vars)
            (v_warnings vars ++ ["Attribute type not support yet"])
      end
  | Some componentType =>
      mkVars (typeSize (a_type attributeInfo))
        (Some (componentCtor componentType)) (v_warnings vars)
  end.

(** [vec.set(a[0], a[1], a[2])]. *)
Definition firstThree (a : list num) : list (option num) :=
  [a !! 0; a !! 1; a !! 2].

(** Lines 640-726: the body of the loop over the semantics of a primitive. *)
Definition parseAttribute (json : Json)
    (buffers : gmap string (list Byte.byte)) (st : Vars * Geometry)
    (entry : string * string) : result (Vars * Geometry) :=
  let '(vars, geometry) := st in
  let '(semantic, accessorName) := entry in
  let attributeInfo := obj_get (json_accessors json) accessorName in
  match obj_get semanticAttributeMap semantic with
  | None => Ok st
  | Some attributeName =>
      match attributeInfo with
      | None => Err TypeError
      | Some attributeInfo =>
          let vars := decodeLayout vars attributeInfo in
          match obj_get (json_bufferViews json) (a_bufferView attributeInfo) with
          | None => Err TypeError
          | Some bufferViewInfo =>
              let byteOffset :=
                bv_byteOffset bufferViewInfo + a_byteOffset attributeInfo in
              match v_ArrayCtor vars with
              | None => Err TypeError
              | Some ArrayCtor =>
                  attributeArray ←
                    newTypedArray ArrayCtor buffers (bv_buffer bufferViewInfo)
                      byteOffset
                      (a_count attributeInfo * default 0 (v_size vars));
                  let value :=
                    if decide (semantic = "WEIGHT" ∧ v_size vars = Some 4)
                    then OwnedValue ArrayCtor
                           (compactWeights (readView buffers attributeArray)
                              ArrayCtor (a_count attributeInfo))
                    else ViewValue attributeArray in
                  let attributes :=
                    <[attributeName := value]> (g_attributes geometry) in
                  let '(bmin, bmax) :=
                    if decide (semantic = "POSITION") then
                      (from_option (Some ∘ firstThree)
                         (g_boundingBox_min geometry) (a_min attributeInfo),
                       from_option (Some ∘ firstThree)
                         (g_boundingBox_max geometry) (a_max attributeInfo))
                    else (g_boundingBox_min geometry,
                          g_boundingBox_max geometry) in
                  Ok (vars,
                      mkGeometry attributes (g_indices geometry) bmin bmax
                        (g_tangents geometry))
              end
          end
      end
  end.

(** Lines 728-741: the index array, 32-bit for [UNSIGNED_INT]. *)
Definition parseIndices (json : Json) (buffers : gmap string (list Byte.byte))
    (primitiveInfo : PrimitiveInfo) : result TypedView :=
  match obj_get (json_accessors json) (p_indices primitiveInfo) with
  | None => Err TypeError
  | Some indicesInfo =>
      match obj_get (json_bufferViews json) (a_bufferView indicesInfo) with
      | None => Err TypeError
      | Some bufferViewInfo =>
          let byteOffset :=
            bv_byteOffset bufferViewInfo + a_byteOffset indicesInfo in
          newTypedArray
            (if decide (a_componentType indicesInfo = Some 0x1405%N)
             then Uint32Array else Uint16Array)
            buffers (bv_buffer bufferViewInfo) byteOffset (a_count indicesInfo)
      end
  end.

(** Lines 760-768. *)
Definition meshName (meshInfo : MeshInfo) (pp : nat) : option string :=
  match m_name meshInfo with
  | Some name =>
      if decide (name = "") then None
      else if decide (1 < length (m_primitives meshInfo))
           then Some (name +:+ "-" +:+ pretty pp)
           else Some name
  | None => None
  end.

(** Lines 633-771: the body of the loop over the primitives of a mesh.  The
    state is the [var]s and the list [lib.meshes[name]]. *)
Definition parsePrimitive (json : Json) (lib : Lib) (meshInfo : MeshInfo)
    (st : Vars * list Mesh) (entry : nat * PrimitiveInfo)
  : result (Vars * list Mesh) :=
  let '(vars, meshes) := st in
  let '(pp, primitiveInfo) := entry in
  let geometry := mkGeometry ∅ None None None false in
  '(vars, geometry) ←
    forM (parseAttribute json (lib_buffers lib)) (p_attributes primitiveInfo)
      (vars, geometry);
  indices ← parseIndices json (lib_buffers lib) primitiveInfo;
  let geometry :=
    mkGeometry (g_attributes geometry) (Some indices)
      (g_boundingBox_min geometry) (g_boundingBox_max geometry)
      (g_tangents geometry) in
  let material :=
    match lib_materials lib !! p_material primitiveInfo with
    | Some material => material
    | None => defaultMaterial
    end in
  let geometry :=
    if normalMapEnabled material then
      match g_attributes geometry !! "tangent" with
      | Some _ => geometry
      | None => generateTangents geometry
      end
    else geometry in
  Ok (vars, meshes ++ [mkMesh geometry material (meshName meshInfo pp)]).

(** Lines 626-772: the body of the loop over [json.meshes]. *)
Definition parseMesh (json : Json) (st : Vars * Lib)
    (entry : string * MeshInfo) : result (Vars * Lib) :=
  let '(vars, lib) := st in
  let '(name, meshInfo) := entry in
  '(vars, meshes) ←
    forM (parsePrimitive json lib meshInfo)
      (imap (λ pp primitiveInfo, (pp, primitiveInfo)) (m_primitives meshInfo))
      (vars, []);
  Ok (vars,
      mkLib (lib_buffers lib) (lib_materials lib)
        (<[name := meshes]> (lib_meshes lib))).

(** Lines 623-773.  The result carries the console next to [lib]. *)
Definition _parseMeshes (json : Json) (lib : Lib)
  : result (Vars * Lib) :=
  forM (parseMesh json) (json_meshes json) (mkVars None None [], lib).

(** The material a primitive ends up with. *)
Definition primitiveMaterial (lib : Lib) (primitiveInfo : PrimitiveInfo)
  : Material :=
  match lib_materials lib !! p_material primitiveInfo with
  | Some material => material
  | None => defaultMaterial
  end.

(** The references of a primitive that the stage follows all resolve: the
    index accessor and its buffer view, and for each attribute of a mapped
    semantic its accessor and buffer view. *)
Definition references_resolve (json : Json) (primitiveInfo : PrimitiveInfo)
  : Prop :=
  (∃ indicesInfo,
     obj_get (json_accessors json) (p_indices primitiveInfo) = Some indicesInfo
     ∧ is_Some (obj_get (json_bufferViews json) (a_bufferView indicesInfo)))
  ∧ ∀ semantic accessorName,
      (semantic, accessorName) ∈ p_attributes primitiveInfo →
      is_Some (obj_get semanticAttributeMap semantic) →
      ∃ attributeInfo,
        obj_get (json_accessors json) accessorName = Some attributeInfo
        ∧ is_Some (obj_get (json_bufferViews json)
                     (a_bufferView attributeInfo)).

(** The only message the stage ever writes to the console. *)
Definition only_type_warnings (vars : Vars) : Prop :=
  Forall (λ w, w = "Attribute type not support yet") (v_warnings vars).

End WithNumbers.

(** One buffer of 32 bytes holding the four float weights of two vertices,
    one of 6 bytes holding three 16-bit indices; a mesh of one primitive
    whose material is not declared. *)
Definition ex_weights : list Byte.byte :=
  [Byte.x00; Byte.x01; Byte.x02; Byte.x03; Byte.x04; Byte.x05; Byte.x06;
   Byte.x07; Byte.x08; Byte.x09; Byte.x0a; Byte.x0b; Byte.x0c; Byte.x0d;
   Byte.x0e; Byte.x0f; Byte.x10; Byte.x11; Byte.x12; Byte.x13; Byte.x14;
   Byte.x15; Byte.x16; Byte.x17; Byte.x18; Byte.x19; Byte.x1a; Byte.x1b;
   Byte.x1c; Byte.x1d; Byte.x1e; Byte.x1f].

Definition ex_buffers : gmap string (list Byte.byte) :=
  <["weights" := ex_weights]>
    (<["indices" := replicate 6 Byte.x00]> ∅).

Definition ex_json : Json (num := Z) :=
  mkJson
    [("acc_w", mkAccessor "bv_w" 0 (Some 5126%N) (Some (TypeName "VEC4")) 2
                 None None);
     ("acc_i", mkAccessor "bv_i" 0 (Some 5123%N) (Some (TypeName "SCALAR")) 3
                 None None)]
    [("bv_w", mkBufferView "weights" 0); ("bv_i", mkBufferView "indices" 0)]
    [("mesh", mkMeshInfo [mkPrimitive [("WEIGHT", "acc_w")] "acc_i" "none"]
                (Some "body"))].

Definition ex_vars : Vars := mkVars None None [].

Definition ex_geometry : Geometry (num := Z) :=
  mkGeometry ∅ None None None false.

Definition ex_lib : Lib (num := Z) (Material := string) :=
  mkLib ex_buffers ∅ ∅.

(** The same mesh with an attribute that names no accessor. *)
Definition ex_json_dangling : Json (num := Z) :=
  mkJson (json_accessors ex_json) (json_bufferViews ex_json)
    [("mesh", mkMeshInfo
                [mkPrimitive [("POSITION", "acc_p"); ("WEIGHT", "acc_w")]
                   "acc_i" "none"]
                (Some "body"))].

End Meshes.

(** ** [_parseNodes]: the scene entity and the transform of each node *)
Module Nodes.

(** Scene entities are objects: a mesh built by [_parseMeshes] can be
    reached from [lib.meshes] and from several entries of [lib.nodes].
    They live in a store and are named by location. *)
Abbreviation loc := nat (only parsing).

Section WithNumbers.

(** JSON numbers that the stage copies and never computes with. *)
Context {num : Type}.

(** Modelled from the spec: [Matrix4.decomposeMatrix] is outside src; the
    spec has it decompose the matrix into translation, rotation and
    scale. *)
Variable decomposeMatrix : list num → list num * list num * list num.

(** A vector, quaternion or matrix of a node: what the constructor left
    (the identity), or the array last written with [setArray] or by the
    decomposition. *)
Inductive Value : Type :=
  | Identity
  | FromArray (a : list num).

Inductive Variant : Type :=
  | PerspectiveCamera (aspect fov far near : option num)
  | OrthographicCamera
  | PointLight (color : option (list num))
  | SpotLight (color : option (list num))
  | DirectionalLight (color : option (list num))
  | Mesh
  | Node.

Record SceneObject : Type := mkObject {
  o_variant : Variant;
  o_name : option string;
  o_localTransform : Value;
  o_position : Value;
  o_rotation : Value;
  o_scale : Value;
  o_children : list loc;
  o_parent : option loc;
  o_skeleton : option string
}.

(** Modelled from the spec: the constructors of the scene entities are
    outside src; the spec has the translation, rotation and scale of a node
    default to the identity. *)
Definition newObject (variant : Variant) (name : option string) : SceneObject :=
  mkObject variant name Identity Identity Identity Identity [] None None.

Record CameraInfo : Type := mkCamera {
  c_projection : option string;
  c_aspect_ratio : option num;
  c_xfov : option num;
  c_zfar : option num;
  c_znear : option num
}.

Record LightParams : Type := mkLightParams {
  lp_color : option (list num)
}.

Record LightInfo : Type := mkLight {
  li_type : option string;
  li_id : option string;
  li_point : option LightParams;
  li_spot : option LightParams;
  li_directional : option LightParams
}.

Record InstanceSkin : Type := mkInstanceSkin {
  is_skin : string;
  is_sources : list string
}.

Record NodeInfo : Type := mkNodeInfo {
  n_name : option string;
  n_camera : option string;
  n_lights : option (list string);
  n_meshes : option (list string);
  n_instanceSkin : option InstanceSkin;
  n_children : option (list string);
  n_matrix : option (list num);
  n_translation : option (list num);
  n_rotation : option (list num);
  n_scale : option (list num)
}.

Record Json : Type := mkJson {
  json_nodes : obj NodeInfo;
  json_cameras : obj CameraInfo;
  json_lights : obj LightInfo
}.

(** The loader's options. *)
Record Options : Type := mkOptions {
  includeCamera : bool;
  includeLight : bool;
  includeMesh : bool
}.

(** [lib], the store of the entities, the console, and [node]: the [var]
    of [_parseNodes] that keeps its value from one descriptor to the
    next. *)
Record State : Type := mkState {
  s_store : list SceneObject;
  lib_nodes : gmap string loc;
  lib_cameras : gmap string loc;
  lib_meshes : gmap string (list loc);
  s_node : option loc;
  s_warnings : list string
}.

(** A string is truthy unless it is empty. *)
Definition truthy (s : option string) : option string :=
  match s with
  | Some s => if decide (s = "") then None else Some s
  | None => None
  end.

(** [node.setName(name)]. *)
Definition setName (name : option string) (o : SceneObject) : SceneObject :=
  mkObject (o_variant o) name (o_localTransform o) (o_position o)
    (o_rotation o) (o_scale o) (o_children o) (o_parent o) (o_skeleton o).

Definition setSkeleton (skin : string) (o : SceneObject) : SceneObject :=
  mkObject (o_variant o) (o_name o) (o_localTransform o) (o_position o)
    (o_rotation o) (o_scale o) (o_children o) (o_parent o) (Some skin).

(** Modelled from the spec: [Node.add] is outside src.  The child is
    appended to the children of its new parent and leaves the children of
    the parent it had. *)
Definition Node_add (parent child : loc) (store : list SceneObject)
  : list SceneObject :=
  match store !! child with
  | Some c =>
      if decide (o_parent c = Some parent) then store
      else
        let detach (o : SceneObject) :=
          mkObject (o_variant o) (o_name o) (o_localTransform o)
            (o_position o) (o_rotation o) (o_scale o)
            (filter (λ l, l ≠ child) (o_children o)) (o_parent o)
            (o_skeleton o) in
        let store :=
          match o_parent c with
          | Some old => alter detach old store
          | None => store
          end in
        let store :=
          alter (λ o, mkObject (o_variant o) (o_name o) (o_localTransform o)
                        (o_position o) (o_rotation o) (o_scale o)
                        (o_children o) (Some parent) (o_skeleton o))
                child store in
        alter (λ o, mkObject (o_variant o) (o_name o) (o_localTransform o)
                      (o_position o) (o_rotation o) (o_scale o)
                      (o_children o ++ [child]) (o_parent o) (o_skeleton o))
              parent store
  | None => store
  end.

(** Lines 896-922.  The result is the light, or [undefined] with a warning
    for a type that is not supported. *)
Definition _parseLight (lightInfo : LightInfo)
  : result (option SceneObject * list string) :=
  let light (params : option LightParams)
      (ctor : option (list num) → Variant) :=
    match params with
    | Some p => Ok (Some (newObject (ctor (lp_color p)) (li_id lightInfo)), [])
    | None => Err TypeError
    end in
  if decide (li_type lightInfo = Some "point") then
    light (li_point lightInfo) PointLight
  else if decide (li_type lightInfo = Some "spot") then
    light (li_spot lightInfo) SpotLight
  else if decide (li_type lightInfo = Some "directional") then
    light (li_directional lightInfo) DirectionalLight
  else
    Ok (None,
        ["Light " +:+ propertyKey (li_type lightInfo) +:+ " not support yet"]).

(** Lines 802-808: the body of the loop over [nodeInfo.lights].  The state
    is the store, the array [lights] and the console. *)
Definition parseNodeLight (json : Json)
    (st : list SceneObject * list loc * list string) (lightName : string)
  : result (list SceneObject * list loc * list string) :=
  let '(store, lights, warnings) := st in
  match obj_get (json_lights json) lightName with
  | None => Err TypeError
  | Some lightInfo =>
      '(light, warned) ← _parseLight lightInfo;
      match light with
      | Some light =>
          Ok (store ++ [light], lights ++ [length store], warnings ++ warned)
      | None => Ok (store, lights, warnings ++ warned)
      end
  end.

(** Lines 780, 800, 822, 852: which branch of the chain a descriptor
    takes, with the camera name, the light names or the mesh key
    ([nodeInfo.meshes[0]], else [nodeInfo.instanceSkin.sources[0]]) it
    goes on with. *)
Inductive Branch : Type :=
  | CameraBranch (camera : string)
  | LightBranch (lightNames : list string)
  | MeshBranch (meshKey : option string)
  | GenericBranch.

Definition branch (options : Options) (nodeInfo : NodeInfo) : Branch :=
  match truthy (n_camera nodeInfo), includeCamera options with
  | Some camera, true => CameraBranch camera
  | _, _ =>
      match n_lights nodeInfo, includeLight options with
      | Some lightNames, true => LightBranch lightNames
      | _, _ =>
          if includeMesh options then
            match n_meshes nodeInfo, n_instanceSkin nodeInfo with
            | Some meshes, _ => MeshBranch (meshes !! 0)
            | None, Some instanceSkin =>
                MeshBranch (is_sources instanceSkin !! 0)
            | None, None => GenericBranch
            end
          else GenericBranch
      end
  end.

(** Lines 780-855: the entity of a node descriptor.  Every branch but one
    assigns [node]; the mesh branch leaves it as the previous descriptor
    set it when the mesh key is missing or names no mesh of [lib.meshes]. *)
Definition selectVariant (options : Options) (json : Json) (st : State)
    (nodeInfo : NodeInfo) : result State :=
  let store := s_store st in
  match branch options nodeInfo with
  | CameraBranch camera =>
      match obj_get (json_cameras json) camera with
      | None => Err TypeError
      | Some cameraInfo =>
          let '(node, warned) :=
            if decide (c_projection cameraInfo = Some "perspective") then
              (newObject
                 (PerspectiveCamera (c_aspect_ratio cameraInfo)
                    (c_xfov cameraInfo) (c_zfar cameraInfo)
                    (c_znear cameraInfo))
                 (n_name nodeInfo), [])
            else (newObject OrthographicCamera None,
                  ["TODO:Orthographic camera"]) in
          let l := length store in
          Ok (mkState (store ++ [setName (n_name nodeInfo) node])
                (lib_nodes st)
                (<[propertyKey (n_name nodeInfo) := l]> (lib_cameras st))
                (lib_meshes st) (Some l) (s_warnings st ++ warned))
      end
  | LightBranch lightNames =>
      '(store, lights, warnings) ←
        forM (parseNodeLight json) lightNames (store, [], s_warnings st);
      match lights with
      | [light] =>
          Ok (mkState (alter (setName (n_name nodeInfo)) light store)
                (lib_nodes st) (lib_cameras st) (lib_meshes st)
                (Some light) warnings)
      | _ =>
          let l := length store in
          let store := store ++ [newObject Node (n_name nodeInfo)] in
          Ok (mkState (foldl (λ s light, Node_add l light s) store lights)
                (lib_nodes st) (lib_cameras st) (lib_meshes st)
                (Some l) warnings)
      end
  | MeshBranch meshKey =>
      match truthy meshKey ≫= (lib_meshes st !!.) with
      | Some [primitive] =>
          Ok (mkState (alter (setName (n_name nodeInfo)) primitive store)
                (lib_nodes st) (lib_cameras st) (lib_meshes st)
                (Some primitive) (s_warnings st))
      | Some primitives =>
          let l := length store in
          let store := store ++ [newObject Node (n_name nodeInfo)] in
          let attach s primitive :=
            Node_add l primitive
              match n_instanceSkin nodeInfo with
              | Some instanceSkin =>
                  alter (setSkeleton (is_skin instanceSkin)) primitive s
              | None => s
              end in
          Ok (mkState (foldl attach store primitives)
                (lib_nodes st) (lib_cameras st) (lib_meshes st)
                (Some l) (s_warnings st))
      | None => Ok st
      end
  | GenericBranch =>
      let l := length store in
      Ok (mkState (store ++ [newObject Node (n_name nodeInfo)])
            (lib_nodes st) (lib_cameras st) (lib_meshes st)
            (Some l) (s_warnings st))
  end.

(** Lines 856-877 on the entity [o] that [node] names. *)
Definition setTransform (nodeInfo : NodeInfo) (o : SceneObject) : SceneObject :=
  match n_matrix nodeInfo with
  | Some matrix =>
      let '(position, rotation, scale) := decomposeMatrix matrix in
      mkObject (o_variant o) (o_name o) (FromArray matrix)
        (FromArray position) (FromArray rotation) (FromArray scale)
        (o_children o) (o_parent o) (o_skeleton o)
  | None =>
      mkObject (o_variant o) (o_name o) (o_localTransform o)
        (from_option FromArray (o_position o) (n_translation nodeInfo))
        (from_option FromArray (o_rotation o) (n_rotation nodeInfo))
        (from_option FromArray (o_scale o) (n_scale nodeInfo))
        (o_children o) (o_parent o) (o_skeleton o)
  end.

(** Lines 856-877: with [node] undefined, the first field read throws. *)
Definition applyTransform (nodeInfo : NodeInfo) (st : State) : result State :=
  match s_node st with
  | Some l =>
      Ok (mkState (alter (setTransform nodeInfo) l (s_store st))
            (lib_nodes st) (lib_cameras st) (lib_meshes st) (s_node st)
            (s_warnings st))
  | None =>
      match n_matrix nodeInfo, n_translation nodeInfo, n_rotation nodeInfo,
            n_scale nodeInfo with
      | None, None, None, None => Ok st
      | _, _, _, _ => Err TypeError
      end
  end.

(** Lines 777-880: the body of the first loop over [json.nodes]. *)
Definition parseNode (options : Options) (json : Json) (st : State)
    (entry : string * NodeInfo) : result State :=
  let '(name, nodeInfo) := entry in
  st ← selectVariant options json st nodeInfo;
  st ← applyTransform nodeInfo st;
  Ok (mkState (s_store st)
        match s_node st with
        | Some l => <[name := l]> (lib_nodes st)
        | None => delete name (lib_nodes st)
        end
        (lib_cameras st) (lib_meshes st) (s_node st) (s_warnings st)).

(** Lines 883-893: the body of the second loop over [json.nodes].
    [Node.add] reads the parent of its argument: an undefined parent or
    child throws. *)
Definition attachChildren (nodes : gmap string loc)
    (store : list SceneObject) (entry : string * NodeInfo)
  : result (list SceneObject) :=
  let '(name, nodeInfo) := entry in
  match n_children nodeInfo with
  | Some children =>
      forM (λ store childName,
              match nodes !! name, nodes !! childName with
              | Some node, Some child => Ok (Node_add node child store)
              | _, _ => Err TypeError
              end)
        children store
  | None => Ok store
  end.

(** Lines 775-894: the first loop builds the entities ([node] is undefined
    when it starts), the second the hierarchy. *)
Definition _parseNodes (options : Options) (json : Json) (st : State)
  : result State :=
  st ← forM (parseNode options json) (json_nodes json)
         (mkState (s_store st) (lib_nodes st) (lib_cameras st) (lib_meshes st)
            None (s_warnings st));
  store ← forM (attachChildren (lib_nodes st)) (json_nodes json) (s_store st);
  Ok (mkState store (lib_nodes st) (lib_cameras st) (lib_meshes st)
        (s_node st) (s_warnings st)).

(** The branches of [selectVariant] that build a new entity for the
    descriptor: all but a mesh node of exactly one primitive (which is that
    primitive) and a mesh node whose mesh does not resolve. *)
Definition builds_entity (options : Options) (st : State)
    (nodeInfo : NodeInfo) : bool :=
  match branch options nodeInfo with
  | MeshBranch meshKey =>
      match truthy meshKey ≫= (lib_meshes st !!.) with
      | Some [_] | None => false
      | Some _ => true
      end
  | _ => true
  end.

(** The transform of an entity. *)
Definition transform (o : SceneObject) : Value * Value * Value * Value :=
  (o_localTransform o, o_position o, o_rotation o, o_scale o).

(** Two stores that hold entities with the same transforms. *)
Definition same_transforms (store store' : list SceneObject) : Prop :=
  ∀ l, transform <$> store' !! l = transform <$> store !! l.

(** The entity at [l] has the transform its constructor gave it. *)
Definition identity_at (store : list SceneObject) (l : loc) : Prop :=
  ∃ o, store !! l = Some o
       ∧ transform o = (Identity, Identity, Identity, Identity).

(** A node descriptor with other translation, rotation and scale fields. *)
Definition with_TRS (nodeInfo : NodeInfo) (t r s : option (list num))
  : NodeInfo :=
  mkNodeInfo (n_name nodeInfo) (n_camera nodeInfo) (n_lights nodeInfo)
    (n_meshes nodeInfo) (n_instanceSkin nodeInfo) (n_children nodeInfo)
    (n_matrix nodeInfo) t r s.

End WithNumbers.

(** Two node descriptors that instance the same single-primitive mesh; only
    the first carries a translation. *)
Definition ex_shared : Json (num := Z) :=
  mkJson
    [("n1", mkNodeInfo (Some "n1") None None (Some ["m"]) None None None
              (Some [1; 2; 3]%Z) None None);
     ("n2", mkNodeInfo (Some "n2") None None (Some ["m"]) None None None
              None None None)]
    [] [].

Definition ex_options : Options := mkOptions true true true.

Definition ex_state : State (num := Z) :=
  mkState [newObject Mesh None] ∅ ∅ (<["m" := [0]]> ∅) None [].

(** A camera node whose projection is neither perspective nor
    orthographic, with a matrix and a translation. *)
Definition ex_camera_node : NodeInfo (num := Z) :=
  mkNodeInfo (Some "eye") (Some "cam") None None None None
    (Some [1; 0; 0; 0; 0; 1; 0; 0; 0; 0; 1; 0; 5; 6; 7; 1]%Z)
    (Some [9; 9; 9]%Z) None None.

Definition ex_cameras : Json (num := Z) :=
  mkJson [("eye", ex_camera_node)]
    [("cam", mkCamera (Some "fisheye") None None None None)] [].

(** A decomposition for matrices without rotation and shear. *)
Definition ex_decompose (m : list Z) : list Z * list Z * list Z :=
  ([default 0%Z (m !! 12); default 0%Z (m !! 13); default 0%Z (m !! 14)],
   [0; 0; 0; 1]%Z,
   [default 0%Z (m !! 0); default 0%Z (m !! 5); default 0%Z (m !! 10)]).

End Nodes.

(** ** [_parseAnimations]: the keyframe clips *)
Module Animations.

(** Every array of this stage is a [Float32Array]; its byte offset must be
    a multiple of 4, so the stage reads and writes a buffer in aligned
    cells of 4 bytes.  A buffer is the list of the numbers in its cells, a
    view a window of cells of a buffer.  A view without buffer is the empty
    array of its own that the constructor returns for a buffer that failed
    to load. *)
Record View : Type := mkView {
  f_buffer : option string;
  f_offset : nat;
  f_length : nat
}.

Record AccessorInfo : Type := mkAccessor {
  a_bufferView : string;
  a_byteOffset : nat;
  a_type : option N;
  a_count : nat
}.

Record Channel : Type := mkChannel {
  ch_target_id : string
}.

Record AnimationInfo : Type := mkAnimation {
  an_parameters : obj string;
  an_channels : list Channel
}.

Record Json : Type := mkJson {
  json_accessors : obj AccessorInfo;
  json_bufferViews : obj BufferViewInfo;
  json_animations : obj AnimationInfo
}.

(** A node of [lib.nodes]: the entity and its name. *)
Record NodeEntity : Type := mkNode {
  ne_ref : nat;
  ne_name : option string
}.

Section WithNumbers.

(** Single-precision numbers. *)
Context {num : Type}.

(** What a float array stores when it is assigned [undefined]. *)
Variable nan : num.

(** [x *= 1000] on an element of a float array. *)
Variable mul1000 : num → num.

(** Modelled from the spec: [quat.setAxisAngle(out, axis, rad)] of the
    matrix library is outside src; the spec has it build the quaternion of
    the rotation by [rad] around [axis].  The arguments are the three
    components of the axis and the angle, the result the four components
    left in [out]. *)
Variable setAxisAngle : num → num → num → num → num * num * num * num.

(** [array[k]]; [None] is [undefined], past the end of the view. *)
Definition readView (buffers : gmap string (list num)) (v : View) (k : nat)
  : option num :=
  if decide (k < f_length v) then
    cells ← f_buffer v ≫= (buffers !!.);
    cells !! (f_offset v + k)
  else None.

(** [array[k] = x]: through to the buffer, or ignored past the end. *)
Definition writeView (buffers : gmap string (list num)) (v : View) (k : nat)
    (x : num) : gmap string (list num) :=
  if decide (k < f_length v) then
    match f_buffer v with
    | Some b => alter (<[f_offset v + k := x]>) b buffers
    | None => buffers
    end
  else buffers.

(** [new Float32Array(buffer, byteOffset, length)]. *)
Definition newFloat32Array (buffers : gmap string (list num))
    (bufferName : string) (byteOffset len : nat) : result View :=
  match buffers !! bufferName with
  | None => Ok (mkView None 0 0)
  | Some cells =>
      if decide (byteOffset mod 4 = 0 ∧ byteOffset / 4 + len ≤ length cells)
      then Ok (mkView (Some bufferName) (byteOffset / 4) len)
      else Err RangeError
  end.

Record Clip : Type := mkClip {
  clip_name : option string;
  clip_target : nat;
  clip_time : View;
  clip_rotation : option View;
  clip_position : option View;
  clip_scale : option View;
  clip_life : option num
}.

(** [lib.buffers], [lib.clips], and [size]: the [var] of
    [_parseAnimations] that keeps its value from one parameter to the
    next. *)
Record State : Type := mkState {
  lib_buffers : gmap string (list num);
  lib_clips : gmap string Clip;
  v_size : option nat
}.

(** Lines 942-955: a type outside the four cases leaves [size] as it was. *)
Definition componentCount (size : option nat) (type : option N) : option nat :=
  match type with
  | Some 0x8B50%N => Some 2
  | Some 0x8B51%N => Some 3
  | Some 0x8B52%N => Some 4
  | Some 0x1406%N => Some 1
  | _ => size
  end.

(** Lines 935-957: the body of the loop over the parameters of a track. *)
Definition parseParameter (json : Json) (buffers : gmap string (list num))
    (st : option nat * gmap string View) (entry : string * string)
  : result (option nat * gmap string View) :=
  let '(size, parameters) := st in
  let '(paramName, accessorName) := entry in
  match obj_get (json_accessors json) accessorName with
  | None => Err TypeError
  | Some accessorInfo =>
      match obj_get (json_bufferViews json) (a_bufferView accessorInfo) with
      | None => Err TypeError
      | Some bufferViewInfo =>
          let byteOffset :=
            bv_byteOffset bufferViewInfo + a_byteOffset accessorInfo in
          let size := componentCount size (a_type accessorInfo) in
          array ←
            newFloat32Array buffers (bv_buffer bufferViewInfo) byteOffset
              (default 0 size * a_count accessorInfo);
          Ok (size, <[paramName := array]> parameters)
      end
  end.

(** Lines 971-984: one turn of the loop over the time samples. *)
Definition convertSample (TIME rotationArr : View)
    (buffers : gmap string (list num)) (i : nat) : gmap string (list num) :=
  let buffers :=
    writeView buffers TIME i (mul1000 (default nan (readView buffers TIME i))) in
  let offset := i * 4 in
  let '(q0, q1, q2, q3) :=
    setAxisAngle (default nan (readView buffers rotationArr offset))
      (default nan (readView buffers rotationArr (offset + 1)))
      (default nan (readView buffers rotationArr (offset + 2)))
      (default nan (readView buffers rotationArr (offset + 3))) in
  let buffers := writeView buffers rotationArr offset q0 in
  let buffers := writeView buffers rotationArr (offset + 1) q1 in
  let buffers := writeView buffers rotationArr (offset + 2) q2 in
  writeView buffers rotationArr (offset + 3) q3.

(** Lines 969-985. *)
Definition convertRotations (parameters : gmap string View)
    (buffers : gmap string (list num)) : gmap string (list num) :=
  match parameters !! "TIME", parameters !! "rotation" with
  | Some TIME, Some rotationArr =>
      foldl (convertSample TIME rotationArr) buffers (seq 0 (f_length TIME))
  | _, _ => buffers
  end.

(** The quaternion the loop computes from the sample [i] of [rotationArr]. *)
Definition sampleQuaternion (buffers : gmap string (list num))
    (rotationArr : View) (i : nat)
  : num * num * num * num :=
  setAxisAngle (default nan (readView buffers rotationArr (i * 4)))
    (default nan (readView buffers rotationArr (i * 4 + 1)))
    (default nan (readView buffers rotationArr (i * 4 + 2)))
    (default nan (readView buffers rotationArr (i * 4 + 3))).

(** [TIME[TIME.length - 1]]. *)
Definition lastSample (buffers : gmap string (list num)) (TIME : View)
  : option num :=
  match f_length TIME with
  | O => None
  | S n => readView buffers TIME n
  end.

(** Lines 931-1001: the body of the loop over [json.animations]. *)
Definition parseAnimation (json : Json) (nodes : gmap string NodeEntity)
    (st : State) (entry : string * AnimationInfo) : result State :=
  let '(animName, animationInfo) := entry in
  '(size, parameters) ←
    forM (parseParameter json (lib_buffers st)) (an_parameters animationInfo)
      (v_size st, ∅);
  match parameters !! "TIME", an_channels animationInfo with
  | Some TIME, channel :: _ =>
      let targetId := ch_target_id channel in
      match nodes !! targetId with
      | None => Err TypeError
      | Some targetNode =>
          let buffers := convertRotations parameters (lib_buffers st) in
          let clip :=
            mkClip (ne_name targetNode) (ne_ref targetNode) TIME
              (parameters !! "rotation") (parameters !! "translation")
              (parameters !! "scale") (lastSample buffers TIME) in
          Ok (mkState buffers (<[targetId := clip]> (lib_clips st)) size)
      end
  | _, _ => Ok (mkState (lib_buffers st) (lib_clips st) size)
  end.

(** Lines 924-1004: [lib.clips] starts empty. *)
Definition _parseAnimations (json : Json) (nodes : gmap string NodeEntity)
    (buffers : gmap string (list num)) : result State :=
  forM (parseAnimation json nodes) (json_animations json)
    (mkState buffers ∅ None).

(** The view is a window of a loaded buffer. *)
Definition view_ok (buffers : gmap string (list num)) (v : View) : Prop :=
  ∃ b cells, f_buffer v = Some b ∧ buffers !! b = Some cells
             ∧ f_offset v + f_length v ≤ length cells.

(** Two views that share no cell. *)
Definition separate (v w : View) : Prop :=
  f_buffer v ≠ f_buffer w
  ∨ f_offset v + f_length v ≤ f_offset w
  ∨ f_offset w + f_length w ≤ f_offset v.

(** The component [k] of a quaternion. *)
Definition component (q : num * num * num * num) (k : nat) : num :=
  let '(q0, q1, q2, q3) := q in
  match k with
  | 0 => q0
  | 1 => q1
  | 2 => q2
  | _ => q3
  end.

End WithNumbers.

(** Modelled from the spec: the axis-angle-to-quaternion construction of
    [quat.setAxisAngle], over the real numbers: the axis scaled by the sine
    of the half angle, and the cosine of the half angle. *)
Definition setAxisAngle_R (x y z rad : R) : R * R * R * R :=
  (sin (rad * / 2) * x, sin (rad * / 2) * y, sin (rad * / 2) * z,
   cos (rad * / 2))%R.

(** Two samples of a rotation track in one buffer: two times followed by
    two rotations of four components; integers stand for the numbers, the
    scaling is the integer product, and the stand-in for the conversion
    scales the axis by the angle. *)
Definition ex_buffers : gmap string (list Z) :=
  <["anim" := [0; 2; 0; 0; 1; 3; 0; 1; 0; 5]%Z]> ∅.

Definition ex_mul1000 (x : Z) : Z := (x * 1000)%Z.

Definition ex_setAxisAngle (x y z rad : Z) : Z * Z * Z * Z :=
  (rad * x, rad * y, rad * z, rad)%Z.

Definition ex_json : Json :=
  mkJson
    [("time", mkAccessor "bv" 0 (Some 0x1406%N) 2);
     ("rot", mkAccessor "bv" 8 (Some 0x8B52%N) 2)]
    [("bv", mkBufferView "anim" 0)]
    [("spin", mkAnimation [("TIME", "time"); ("rotation", "rot")]
                [mkChannel "arm"]);
     ("mute", mkAnimation [("rotation", "rot")] [mkChannel "arm"])].

Definition ex_spin : AnimationInfo :=
  mkAnimation [("TIME", "time"); ("rotation", "rot")] [mkChannel "arm"].

Definition ex_nodes : gmap string NodeEntity :=
  <["arm" := mkNode 3 (Some "Arm")]> ∅.

Definition ex_TIME : View := mkView (Some "anim") 0 2.

Definition ex_rotation : View := mkView (Some "anim") 2 8.

Definition ex_parameters : gmap string View :=
  <["rotation" := ex_rotation]> (<["TIME" := ex_TIME]> ∅).

Definition ex_state : State := mkState ex_buffers ∅ None.

(** Two rotation tracks, for two nodes, that share their TIME accessor. *)
Definition ex_shared_buffers : gmap string (list Z) :=
  <["anim" := [0; 2; 0; 0; 1; 3; 0; 1; 0; 5; 1; 0; 0; 7; 0; 0; 1; 9]%Z]> ∅.

Definition ex_shared_json : Json :=
  mkJson
    [("time", mkAccessor "bv" 0 (Some 0x1406%N) 2);
     ("rotArm", mkAccessor "bv" 8 (Some 0x8B52%N) 2);
     ("rotLeg", mkAccessor "bv" 40 (Some 0x8B52%N) 2)]
    [("bv", mkBufferView "anim" 0)]
    [("spinArm", mkAnimation [("TIME", "time"); ("rotation", "rotArm")]
                   [mkChannel "arm"]);
     ("spinLeg", mkAnimation [("TIME", "time"); ("rotation", "rotLeg")]
                   [mkChannel "leg"])].

Definition ex_shared_nodes : gmap string NodeEntity :=
  <["leg" := mkNode 4 (Some "Leg")]> (<["arm" := mkNode 3 (Some "Arm")]> ∅).

End Animations.

(** ** [_parseMaterials]: techniques, uniforms and materials *)
Module Materials.

(** A render-state flag of a technique: documents write them as booleans
    or as 0 and 1. *)
Inductive Flag : Type :=
  | FlagBool (b : bool)
  | FlagNum (n : Z).

Definition flag_truthy (f : Flag) : bool :=
  match f with
  | FlagBool b => b
  | FlagNum n => negb (n =? 0)%Z
  end.

Record States : Type := mkStates {
  depthMask : option Flag;
  depthTestEnable : option Flag;
  cullFaceEnable : option Flag;
  blendEnable : option Flag
}.

(** A pass of a legacy technique, or a current technique: what carries the
    states. *)
Record Pass : Type := mkPass {
  p_states : option States
}.

Record TechniqueInfo : Type := mkTechnique {
  t_passes : option (obj Pass);
  t_pass : option string;
  t_states : option States
}.

(** The loader's options. *)
Record Options : Type := mkOptions {
  useStandardMaterial : bool
}.

Section WithNumbers.

(** JSON numbers, and the arithmetic the stage does on them. *)
Context {num : Type}.
Variable num_truthy : num → bool.
Variable Math_log : num → num.
Variable div : num → num → num.
Variable sub : num → num → num.
Variable one half n8192 : num.

(** The value of a uniform: as the document gives it (a number, an array of
    numbers, or a string naming a texture), and as the loader leaves it
    once resolved (the texture of [lib.textures] or [null] in place of a
    string). *)
Inductive UValue : Type :=
  | UNull
  | UNum (n : num)
  | UArr (a : list num)
  | UStr (s : string)
  | UTexture (name : string).

(** The conversion to a number of a value that is not one. *)
Variable toNumber : UValue → num.

Definition Number (v : UValue) : num :=
  match v with
  | UNum n => n
  | _ => toNumber v
  end.

Definition truthy (v : option UValue) : bool :=
  match v with
  | Some (UNum n) => num_truthy n
  | Some (UStr s) => bool_decide (s ≠ "")
  | Some (UArr _) | Some (UTexture _) => true
  | Some UNull | None => false
  end.

(** [v != null]. *)
Definition notNull (v : option UValue) : option UValue :=
  match v with
  | Some UNull | None => None
  | Some v => Some v
  end.

(** The properties of a material's [instanceTechnique] that the loader
    reads after the merge. *)
Record InstanceTechnique : Type := mkInstanceTechnique {
  it_technique : option string;
  it_values : option (obj UValue)
}.

Record MaterialInfo : Type := mkMaterialInfo {
  m_name : option string;
  m_technique : option string;
  m_values : option (obj UValue);
  m_instanceTechnique : option InstanceTechnique
}.

Record Json : Type := mkJson {
  json_techniques : obj TechniqueInfo;
  json_materials : obj MaterialInfo
}.

(** Modelled from the spec: [Material] and [StandardMaterial] are outside
    src; the spec has a material hold named uniform values and render-state
    flags.  A value set with [material.set] and a property assigned on a
    standard material are entries of one table. *)
Record Material : Type := mkMaterial {
  mat_name : option string;
  mat_standard : bool;
  mat_enabledTextures : list string;
  mat_depthMask : option Flag;
  mat_depthTest : option Flag;
  mat_cullFace : Flag;
  mat_transparent : bool;
  mat_values : gmap string UValue
}.

(** Lines 497-509: the states of the pass a technique stands for: of
    [passes[pass]] for a legacy technique, of the technique itself
    otherwise.  [None] is a pass or states that are [undefined]; reading
    [technique.states.depthMask] then throws. *)
Definition normalizeTechnique (techniqueInfo : TechniqueInfo)
  : option States :=
  match t_passes techniqueInfo with
  | Some passes =>
      obj_get passes (propertyKey (t_pass techniqueInfo)) ≫= p_states
  | None => t_states techniqueInfo
  end.

Fixpoint parseTechniques (techniques : obj TechniqueInfo)
    (table : gmap string States) : gmap string States :=
  match techniques with
  | [] => table
  | (name, techniqueInfo) :: rest =>
      parseTechniques rest
        match normalizeTechnique techniqueInfo with
        | Some states => <[name := states]> table
        | None => delete name table
        end
  end.

(** Lines 516-521: the properties of [instanceTechnique] overwrite those
    of the material, and [instanceTechnique] becomes [null]. *)
Definition mergeInstanceTechnique (materialInfo : MaterialInfo)
  : MaterialInfo :=
  match m_instanceTechnique materialInfo with
  | Some instanceTechnique =>
      mkMaterialInfo (m_name materialInfo)
        (match it_technique instanceTechnique with
         | Some technique => Some technique
         | None => m_technique materialInfo
         end)
        (match it_values instanceTechnique with
         | Some values => Some values
         | None => m_values materialInfo
         end)
        None
  | None => materialInfo
  end.

(** Lines 526-537: the loop writes into [materialInfo.values] itself. *)
Definition resolveUniform (textures : gmap string nat) (value : UValue)
  : UValue :=
  match value with
  | UStr s =>
      match textures !! s with
      | Some _ => UTexture s
      | None => UNull
      end
  | _ => value
  end.

Definition resolveValues (textures : gmap string nat)
    (uniforms : obj UValue) : obj UValue :=
  map (λ entry, (entry.1, resolveUniform textures entry.2)) uniforms.

Definition resolveUniforms (textures : gmap string nat)
    (materialInfo : MaterialInfo) : MaterialInfo :=
  mkMaterialInfo (m_name materialInfo) (m_technique materialInfo)
    (option_map (resolveValues textures) (m_values materialInfo))
    (m_instanceTechnique materialInfo).

(** [array.slice(0, 3)] on a resolved uniform (none is a string any more);
    only an array has [slice]. *)
Definition slice3 (v : UValue) : result UValue :=
  match v with
  | UArr a => Ok (UArr (take 3 a))
  | _ => Err TypeError
  end.

Definition isTexture (v : option UValue) : bool :=
  match v with
  | Some (UTexture _) => true
  | _ => false
  end.

(** [material.set(symbol, value)] when [value] is there. *)
Definition setIf (symbol : string) (value : option UValue)
    (values : gmap string UValue) : gmap string UValue :=
  match value with
  | Some v => <[symbol := v]> values
  | None => values
  end.

(** Lines 601-611. *)
Definition setShininess (shininess : option UValue)
    (values : gmap string UValue) : gmap string UValue :=
  match notNull shininess with
  | Some shininess =>
      let glossiness := div (Math_log (Number shininess)) (Math_log n8192) in
      <["shininess" := shininess]>
        (<["roughness" := UNum (sub one glossiness)]>
           (<["glossiness" := UNum glossiness]> values))
  | None =>
      <["shininess" := UNum half]> (<["glossiness" := UNum half]> values)
  end.

(** Lines 510-620: the body of the loop over [json.materials].  It returns
    the material descriptor as the loop leaves it in the document, and the
    material. *)
Definition parseMaterial (options : Options)
    (techniques : gmap string States) (textures : gmap string nat)
    (materialInfo : MaterialInfo) : result (MaterialInfo * Material) :=
  let materialInfo := mergeInstanceTechnique materialInfo in
  let technique := techniques !! propertyKey (m_technique materialInfo) in
  let materialInfo := resolveUniforms textures materialInfo in
  match m_values materialInfo with
  | None => Err TypeError
  | Some uniforms =>
      let enabledTextures :=
        (if isTexture (obj_get uniforms "diffuse") then ["diffuseMap"] else [])
        ++ (if isTexture (obj_get uniforms "normalMap") then ["normalMap"]
            else []) in
      let isStandardMaterial := useStandardMaterial options in
      match technique with
      | Some states =>
          let values : gmap string UValue := ∅ in
          let diffuseProp := obj_get uniforms "diffuse" in
          let values :=
            if truthy diffuseProp then
              match diffuseProp with
              | Some (UArr a) => <["color" := UArr (take 3 a)]> values
              | Some v => <["diffuseMap" := v]> values
              | None => values
              end
            else values in
          let values :=
            setIf "normalMap" (notNull (obj_get uniforms "normalMap")) values in
          emission ←
            match notNull (obj_get uniforms "emission") with
            | Some v => Some <$> slice3 v
            | None => Ok None
            end;
          let values := setIf "emission" emission values in
          let values := setShininess (obj_get uniforms "shininess") values in
          specular ←
            match notNull (obj_get uniforms "specular") with
            | Some v => Some <$> slice3 v
            | None => Ok None
            end;
          let values := setIf "specularColor" specular values in
          let values :=
            setIf "alpha" (notNull (obj_get uniforms "transparency")) values in
          Ok (materialInfo,
              mkMaterial (m_name materialInfo) isStandardMaterial
                (if isStandardMaterial then [] else enabledTextures)
                (depthMask states) (depthTestEnable states)
                (match cullFaceEnable states with
                 | Some f => if flag_truthy f then f else FlagBool false
                 | None => FlagBool false
                 end)
                (match blendEnable states with
                 | Some f => flag_truthy f
                 | None => false
                 end)
                values)
      | None => Err TypeError
      end
  end.

(** Lines 510-620: the loop.  The state is the list of the material
    descriptors as the loop leaves them, and [lib.materials]. *)
Definition parseMaterialEntry (options : Options)
    (techniques : gmap string States) (textures : gmap string nat)
    (st : obj MaterialInfo * gmap string Material)
    (entry : string * MaterialInfo)
  : result (obj MaterialInfo * gmap string Material) :=
  let '(done, materials) := st in
  let '(name, materialInfo) := entry in
  '(materialInfo, material) ←
    parseMaterial options techniques textures materialInfo;
  Ok (done ++ [(name, materialInfo)], <[name := material]> materials).

(** Lines 494-621: the document after the stage, and [lib.materials]. *)
Definition _parseMaterials (options : Options) (textures : gmap string nat)
    (json : Json) (materials : gmap string Material)
  : result (Json * gmap string Material) :=
  let techniques := parseTechniques (json_techniques json) ∅ in
  '(materialInfos, materials) ←
    forM (parseMaterialEntry options techniques textures)
      (json_materials json) ([], materials);
  Ok (mkJson (json_techniques json) materialInfos, materials).

(** A material descriptor that the stage can process: its technique has
    states, it has values, and its emission and specular uniforms, if any,
    are arrays. *)
Definition processable (techniques : gmap string States)
    (textures : gmap string nat) (materialInfo : MaterialInfo) : Prop :=
  let materialInfo := resolveUniforms textures
                        (mergeInstanceTechnique materialInfo) in
  is_Some (techniques !! propertyKey (m_technique materialInfo))
  ∧ ∃ uniforms,
      m_values materialInfo = Some uniforms
      ∧ (∀ v, notNull (obj_get uniforms "emission") = Some v →
           ∃ a, v = UArr a)
      ∧ (∀ v, notNull (obj_get uniforms "specular") = Some v →
           ∃ a, v = UArr a).

(** The descriptor has no [instanceTechnique] and no uniform that is a
    string. *)
Definition plain (materialInfo : MaterialInfo) : Prop :=
  m_instanceTechnique materialInfo = None
  ∧ ∀ uniforms, m_values materialInfo = Some uniforms →
      Forall (λ entry, ∀ s, entry.2 ≠ UStr s) uniforms.

End WithNumbers.

(** A legacy material: its technique and values sit in [instanceTechnique],
    its diffuse uniform names a texture.  Integers stand for the numbers,
    in fixed point with three decimals for the results. *)
Definition ex_log (n : Z) : Z := Z.log2 n.
Definition ex_div (a b : Z) : Z := (1000 * a / b)%Z.
Definition ex_truthy (n : Z) : bool := negb (n =? 0)%Z.
Definition ex_toNumber (v : UValue (num := Z)) : Z := 0%Z.

Definition ex_material : MaterialInfo (num := Z) :=
  mkMaterialInfo (Some "Mat") None None
    (Some (mkInstanceTechnique (Some "tech")
             (Some [("diffuse", UStr "tex"); ("shininess", UNum 64%Z)]))).

Definition ex_json : Json (num := Z) :=
  mkJson
    [("tech", mkTechnique None None
                (Some (mkStates (Some (FlagNum 1)) (Some (FlagNum 1))
                         (Some (FlagNum 1)) (Some (FlagNum 0)))))]
    [("mat", ex_material)].

Definition ex_textures : gmap string nat := <["tex" := 0]> ∅.

Definition ex_options : Options := mkOptions false.

Definition ex_techniques : gmap string States :=
  parseTechniques (json_techniques ex_json) ∅.

End Materials.

(** ** Skins: what the binding loops leave behind *)
Module SkinBinding.
Import Skins.

(** Some skin of the document declares [inverseBindMatrices]: the value of
    [haveInvBindMatrices] after the loop of lines 309-338. *)
Definition declaresInverseBindMatrices (json : Json) : bool :=
  existsb (λ entry : string * SkinInfo,
             bool_decide (is_Some (skin_inverseBindMatrices entry.2)))
    (json_skins json).

(** The number of root node ids that the nodes of the document give for the
    skin [skinName], over all the nodes that instance it. *)
Definition declaredRoots (nodes : obj NodeInfo) (skinName : string) : nat :=
  sum_list_with
    (λ entry : string * NodeInfo,
       match n_instanceSkin entry.2 with
       | Some instanceSkin =>
           if decide (is_skin instanceSkin = skinName)
           then length (is_skeletons instanceSkin)
           else 0
       | None => 0
       end)
    nodes.

(** The skins that some node of the document instances. *)
Definition instancedSkins (nodes : obj NodeInfo) : list string :=
  omap (λ entry : string * NodeInfo, is_skin <$> n_instanceSkin entry.2) nodes.

(** A parent index that does not dangle: -1, or the index of a joint that
    the skin's joint map holds. *)
Definition parent_ok (jointsMap : gmap string loc) (store : list Joint)
    (parentIndex : Z) : Prop :=
  parentIndex = (-1)%Z
  ∨ ∃ k l j, jointsMap !! k = Some l ∧ store !! l = Some j
             ∧ j_index j = parentIndex.

(** Two skins; only the second declares inverse bind matrices, and only
    the first is instanced, twice. *)
Definition ex_json : Json :=
  mkJson
    [("body", mkSkinInfo ["jRoot"; "jArm"] None);
     ("cape", mkSkinInfo ["jCape"] (Some (mkIBM "view" 0 1)))]
    [("meshA", mkNodeInfo None (Some [])
                 (Some (mkInstanceSkin "body" ["root"])));
     ("meshB", mkNodeInfo None (Some [])
                 (Some (mkInstanceSkin "body" ["root"; "arm"])));
     ("root", mkNodeInfo (Some "jRoot") (Some ["arm"]) None);
     ("arm", mkNodeInfo (Some "jArm") (Some []) None)]
    [("view", mkBufferView "bin" 0)].

Definition ex_lib : Lib (Scene := unit) :=
  mkLib ∅ (list_to_map [("meshA", 0); ("meshB", 1); ("root", 2); ("arm", 3)])
    ∅ [] tt.

End SkinBinding.

(** ** [enableSkinningForMesh]: the meshes and materials of a skinned node *)
Module Skinning.
Import Skins.

(** A shader of the library, by what [shaderLib.get] is asked for: the
    enabled textures, and [JOINT_COUNT] when it is compiled with
    [SKINNING]. *)
Record Shader : Type := mkShader {
  sh_textures : list string;
  sh_JOINT_COUNT : option nat
}.

Record Material : Type := mkMaterial {
  mat_standard : bool;
  mat_jointCount : option nat;
  mat_shader : Shader
}.

(** Materials are objects shared between meshes until they are cloned:
    they live in a store of their own.  A mesh without material has
    [None]. *)
Record Mesh : Type := mkMesh {
  mesh_skeleton : option string;
  mesh_joints : option (list Z);
  mesh_material : option loc
}.

(** The entities of [lib.nodes]: a mesh, or any other node with its
    [_children]. *)
Inductive Entity : Type :=
  | MeshEntity (mesh : Mesh)
  | NodeEntity (_children : list nodeRef).

Record Scene : Type := mkScene {
  sc_entities : list Entity;
  sc_materials : list Material
}.

(** Modelled from the spec: [Material.clone] and [shaderLib.get] are
    outside src; the spec has the material cloned per mesh and its shader
    variant re-resolved with the skinning flag and the joint count.  The
    clone is a new material with the fields of the original, the shader is
    the one described by the request. *)
Definition clone (material : Material) : Material := material.

Definition shaderLib_get (textures : list string) (JOINT_COUNT : nat)
  : Shader :=
  mkShader textures (Some JOINT_COUNT).

(** Lines 377-398.  The mesh is an entity of the scene; an entity that is
    no mesh has no material, and reading the shader of [undefined]
    throws. *)
Definition enableSkinningForMesh (scene : Scene) (mesh : nodeRef)
    (skeleton : string) (jointIndices : list Z) : result Scene :=
  match sc_entities scene !! mesh with
  | Some (MeshEntity m) =>
      match mesh_material m ≫= (sc_materials scene !!.) with
      | Some original =>
          let originalShader := mat_shader original in
          let material := clone original in
          let material :=
            if mat_standard material then
              mkMaterial (mat_standard material) (Some (length jointIndices))
                (mat_shader material)
            else
              mkMaterial (mat_standard material) (mat_jointCount material)
                (shaderLib_get (sh_textures originalShader)
                   (length jointIndices)) in
          Ok (mkScene
                (<[mesh := MeshEntity
                             (mkMesh (Some skeleton) (Some jointIndices)
                                (Some (length (sc_materials scene))))]>
                   (sc_entities scene))
                (sc_materials scene ++ [material]))
      | None => Err TypeError
      end
  | _ => Err TypeError
  end.

(** Lines 409-419: the node itself when it is a mesh, each of its
    [_children] otherwise. *)
Definition enableSkinningForNode (scene : Scene) (node : option nodeRef)
    (skeleton : string) (jointIndices : list Z) : result Scene :=
  match node with
  | Some ref =>
      match sc_entities scene !! ref with
      | Some (MeshEntity _) =>
          enableSkinningForMesh scene ref skeleton jointIndices
      | Some (NodeEntity _children) =>
          forM (λ scene child,
                  enableSkinningForMesh scene child skeleton jointIndices)
            _children scene
      | None => Err TypeError
      end
  | None => Err TypeError
  end.

(** The joint count a material is parametrised with. *)
Definition jointCount (material : Material) : option nat :=
  if mat_standard material then mat_jointCount material
  else sh_JOINT_COUNT (mat_shader material).

(** Every mesh with a skeleton has the joint indices 0, 1, ... of the
    skin's joints and a material with their number as its joint count, and
    no two meshes with a skeleton share their material. *)
Definition skinned_ok (json : Json) (scene : Scene) : Prop :=
  (∀ ref mesh skeleton,
     sc_entities scene !! ref = Some (MeshEntity mesh) →
     mesh_skeleton mesh = Some skeleton →
     ∃ skinInfo l material,
       (skeleton, skinInfo) ∈ json_skins json
       ∧ mesh_joints mesh
         = Some (Z.of_nat <$> seq 0 (length (skin_joints skinInfo)))
       ∧ mesh_material mesh = Some l
       ∧ sc_materials scene !! l = Some material
       ∧ jointCount material = Some (length (skin_joints skinInfo)))
  ∧ ∀ ref1 ref2 mesh1 mesh2,
      sc_entities scene !! ref1 = Some (MeshEntity mesh1) →
      sc_entities scene !! ref2 = Some (MeshEntity mesh2) →
      is_Some (mesh_skeleton mesh1) → is_Some (mesh_skeleton mesh2) →
      ref1 ≠ ref2 →
      mesh_material mesh1 ≠ mesh_material mesh2.

(** Every skeleton of [lib.skeletons] is that of a declared skin. *)
Definition all_bound (json : Json) (lib : Lib (Scene := Scene)) : Prop :=
  ∀ name skeleton, lib_skeletons lib !! name = Some skeleton →
    ∃ skinInfo, (name, skinInfo) ∈ json_skins json
                ∧ skin_bound lib name skinInfo.

(** The document of [Skins.ex_json] over a scene of two meshes that share
    one material: the skinned node is a container of both. *)
Definition ex_scene : Scene :=
  mkScene
    [NodeEntity [4; 5]; NodeEntity []; NodeEntity []; NodeEntity [];
     MeshEntity (mkMesh None None (Some 0));
     MeshEntity (mkMesh None None (Some 0))]
    [mkMaterial false None (mkShader ["diffuseMap"] None)].

Definition ex_lib : Lib :=
  mkLib ∅ (list_to_map [("mesh", 0); ("root", 1); ("helper", 2); ("arm", 3)])
    ∅ [] ex_scene.

End Skinning.

(** ** Meshes: what a built geometry holds *)
Module MeshGeometry.
Import Meshes.

(** The view is the empty array of a buffer that failed to load, or lies
    inside its loaded buffer at an offset that is a multiple of the element
    width. *)
Definition view_in_bounds (buffers : gmap string (list Byte.byte))
    (v : TypedView) : Prop :=
  match tv_buffer v with
  | Some bufferName =>
      ∃ bytes,
        buffers !! bufferName = Some bytes
        ∧ tv_byteOffset v mod BYTES_PER_ELEMENT (tv_ctor v) = 0
        ∧ tv_byteOffset v + tv_length v * BYTES_PER_ELEMENT (tv_ctor v)
          ≤ length bytes
  | None => tv_length v = 0
  end.

Section WithNumbers.
Context {num : Type}.

(** [attributeInfo.min] (or [max], by [bound]) of the accessor that the
    primitive gives for POSITION, as [boundingBox.min.set] takes it. *)
Definition declaredBound (bound : AccessorInfo (num := num) → option (list num))
    (json : Json) (attributes : obj string) : option (list (option num)) :=
  accessorName ← obj_get attributes "POSITION";
  attributeInfo ← obj_get (json_accessors json) accessorName;
  firstThree <$> bound attributeInfo.

End WithNumbers.

(** A named mesh of two primitives over the buffers of [Meshes.ex_buffers];
    the first primitive has a POSITION accessor that declares its bounds. *)
Definition ex_json : Json (num := Z) :=
  mkJson
    [("acc_p", mkAccessor "bv_w" 0 (Some 5126%N) (Some (TypeName "VEC3")) 2
                 (Some [0; 1; 2; 3]%Z) (Some [4; 5]%Z));
     ("acc_w", mkAccessor "bv_w" 0 (Some 5126%N) (Some (TypeName "VEC4")) 2
                 None None);
     ("acc_i", mkAccessor "bv_i" 0 (Some 5123%N) (Some (TypeName "SCALAR")) 3
                 None None)]
    [("bv_w", mkBufferView "weights" 0); ("bv_i", mkBufferView "indices" 0)]
    [("mesh", mkMeshInfo
                [mkPrimitive [("POSITION", "acc_p"); ("TANGENT", "acc_w")]
                   "acc_i" "bumpy";
                 mkPrimitive [("WEIGHT", "acc_w")] "acc_i" "none"]
                (Some "body"))].

(** The materials are their names; the one named "bumpy" has a normal
    map. *)
Definition ex_lib : Lib (num := Z) (Material := string) :=
  mkLib ex_buffers (<["bumpy" := "bumpy"]> ∅) ∅.

Definition ex_normalMapEnabled (material : string) : bool :=
  bool_decide (material = "bumpy").

End MeshGeometry.

(** ** Nodes: which descriptors select an entity *)
Module NodeEntities.
Import Nodes.

Section WithNumbers.
Context {num : Type}.

(** The descriptor takes the mesh branch and its mesh key is missing or
    names no mesh of [lib.meshes]: the one path through lines 780-855 on
    which [node] is not assigned. *)
Definition unresolved (options : Options) (meshes : gmap string (list loc))
    (nodeInfo : NodeInfo (num := num)) : bool :=
  match branch options nodeInfo with
  | MeshBranch meshKey => bool_decide (truthy meshKey ≫= (meshes !!.) = None)
  | _ => false
  end.

(** The light types that [_parseLight] has a case for. *)
Definition supported (lightInfo : LightInfo (num := num)) : bool :=
  bool_decide (li_type lightInfo = Some "point"
               ∨ li_type lightInfo = Some "spot"
               ∨ li_type lightInfo = Some "directional").

(** The lights of a node that are declared with a supported type. *)
Definition supportedName (json : Json (num := num)) (lightName : string)
  : bool :=
  match obj_get (json_lights json) lightName with
  | Some lightInfo => supported lightInfo
  | None => false
  end.

Definition supportedLights (json : Json (num := num))
    (lightNames : list string) : list string :=
  filter (λ lightName, supportedName json lightName = true) lightNames.

Definition isLight (variant : Variant (num := num)) : bool :=
  match variant with
  | PointLight _ | SpotLight _ | DirectionalLight _ => true
  | _ => false
  end.

End WithNumbers.

(** A generic node followed by a node whose mesh is not in [lib.meshes],
    and a node before both whose mesh is not there either. *)
Definition ex_json : Json (num := Z) :=
  mkJson
    [("ghost", mkNodeInfo (Some "ghost") None None (Some ["lost"]) None None
                 None None None None);
     ("pivot", mkNodeInfo (Some "pivot") None None None None None None
                 None None None);
     ("body", mkNodeInfo (Some "body") None None (Some ["lost"]) None None
                None (Some [1; 2; 3]%Z) None None)]
    [] [].

Definition ex_state : State (num := Z) := mkState [] ∅ ∅ ∅ None [].

(** A node with two lights, of which one has a type the loader does not
    know. *)
Definition ex_lights : Json (num := Z) :=
  mkJson
    [("lamp", mkNodeInfo (Some "lamp") None (Some ["bulb"; "area"]) None None
                None None None None None)]
    []
    [("bulb", mkLight (Some "point") (Some "bulb")
                (Some (mkLightParams (Some [1; 1; 1]%Z))) None None);
     ("area", mkLight (Some "area") (Some "area") None None None)].

End NodeEntities.

(** ** Animations: the cells a track writes and the clips it leaves *)
Module AnimationTracks.
Import Animations.

(** The cell [i] of the buffer [b] lies in the window of the view. *)
Definition covers (v : View) (b : string) (i : nat) : Prop :=
  f_buffer v = Some b ∧ f_offset v ≤ i < f_offset v + f_length v.

(** The buffer [b] is as long as it was, and its cells outside the windows
    of the two views are as they were. *)
Definition untouched {num : Type} (TIME rotationArr : View) (b : string)
    (buffers buffers' : gmap string (list num)) : Prop :=
  match buffers !! b with
  | Some cells =>
      ∃ cells', buffers' !! b = Some cells'
        ∧ length cells' = length cells
        ∧ ∀ i, ¬ covers TIME b i → ¬ covers rotationArr b i →
            cells' !! i = cells !! i
  | None => buffers' !! b = None
  end.

(** The track gives a clip: it has a TIME parameter and a first channel,
    whose target is [targetId]. *)
Definition animates (animationInfo : AnimationInfo) (targetId : string)
  : Prop :=
  "TIME" ∈ obj_keys (an_parameters animationInfo)
  ∧ ∃ channel channels,
      an_channels animationInfo = channel :: channels
      ∧ ch_target_id channel = targetId.

(** A translation track and a rotation track over one buffer: two time
    samples, two translations of three components, two rotations of
    four. *)
Definition ex_buffers : gmap string (list Z) :=
  <["anim" := [1; 2; 10; 11; 12; 20; 21; 22; 0; 0; 1; 3; 0; 1; 0; 5]%Z]> ∅.

Definition ex_json : Json :=
  mkJson
    [("time", mkAccessor "bv" 0 (Some 0x1406%N) 2);
     ("move", mkAccessor "bv" 8 (Some 0x8B51%N) 2);
     ("rot", mkAccessor "bv" 32 (Some 0x8B52%N) 2)]
    [("bv", mkBufferView "anim" 0)]
    [("slide", mkAnimation [("TIME", "time"); ("translation", "move")]
                 [mkChannel "arm"]);
     ("still", mkAnimation [("translation", "move")] [mkChannel "leg"])].

Definition ex_slide : AnimationInfo :=
  mkAnimation [("TIME", "time"); ("translation", "move")] [mkChannel "arm"].

Definition ex_parameters : gmap string View :=
  <["rotation" := mkView (Some "anim") 8 8]>
    (<["TIME" := mkView (Some "anim") 0 2]> ∅).

End AnimationTracks.

(** ** Materials: a document parsed before, a texture that is missing *)
Module MaterialDocuments.
Import Materials.

(** A material whose diffuse uniform names a texture that [lib.textures]
    does not hold. *)
Definition ex_material : MaterialInfo (num := Z) :=
  mkMaterialInfo (Some "Mat") (Some "tech")
    (Some [("diffuse", UStr "lost"); ("shininess", UNum 64%Z)]) None.

End MaterialDocuments.

(** ** [load], [parse] and [_loadBuffer]: where the buffers are requested
    and when the stages start *)
Module Loader.

(** A string is the sequence of its code units; the loader only compares
    them with the slash. *)

Definition slash : Ascii.ascii :=
  match "/" with
  | String c _ => c
  | EmptyString => Ascii.zero
  end.

(** [s.lastIndexOf(c)]: the index of the last [c] of [s], or -1. *)
Fixpoint lastIndexOf (c : Ascii.ascii) (s : string) : Z :=
  match s with
  | EmptyString => (-1)%Z
  | String a rest =>
      let i := lastIndexOf c rest in
      if decide (0 ≤ i)%Z then (i + 1)%Z
      else if decide (a = c) then 0%Z else (-1)%Z
  end.

(** [s.slice(0, end)]: a negative [end] counts from the end of [s], and
    the bounds are clamped to the string. *)
Definition slice0 (s : string) (e : Z) : string :=
  let len := Z.of_nat (String.length s) in
  let e := if decide (e < 0)%Z then Z.max (len + e) 0 else Z.min e len in
  String.substring 0 (Z.to_nat e) s.

(** The paths the loader is configured with; [None] is [null]. *)
Record Paths : Type := mkPaths {
  rootPath : option string;
  bufferRootPath : option string;
  textureRootPath : option string
}.

(** Lines 152-154: [load] derives [rootPath] from the url of the document
    unless one is set. *)
Definition load (paths : Paths) (url : string) : Paths :=
  match rootPath paths with
  | Some _ => paths
  | None =>
      mkPaths (Some (slice0 url (lastIndexOf slash url))) (bufferRootPath paths)
        (textureRootPath paths)
  end.

(** Lines 284-291: the url that [_loadBuffer] requests for [path]; a
    [path] that is [undefined] is concatenated as the string "undefined",
    and an empty root path is falsy. *)
Definition _loadBuffer (paths : Paths) (path : option string) : option string :=
  let root :=
    match bufferRootPath paths with
    | Some root => Some root
    | None => rootPath paths
    end in
  match root with
  | Some root =>
      if decide (root = "") then path
      else Some (root +:+ "/" +:+ propertyKey path)
  | None => path
  end.

Record BufferInfo : Type := mkBufferInfo {
  b_uri : option string;
  b_path : option string
}.

(** The counter [loading] of [parse], [lib.buffers], the urls requested so
    far, and what [lib.buffers] held each time [afterLoadBuffer] was
    called. *)
Record State : Type := mkState {
  loading : Z;
  lib_buffers : gmap string (list Byte.byte);
  requested : list (option string);
  started : list (gmap string (list Byte.byte))
}.

(** [request.get] is outside src.  What the loader observes of it is the
    order in which [parse] issues its requests and the callbacks run: a
    request of the loop over [json.buffers], the [onload] of the request
    for a buffer, or the [onerror] of a request. *)
Inductive Event : Type :=
  | Request (name : string) (bufferInfo : BufferInfo)
  | Load (name : string) (buffer : list Byte.byte)
  | Error.

(** Lines 203-206 and 208-211: [loading--], then the stages start if it
    is 0. *)
Definition settle (st : State) : State :=
  let loading := (loading st - 1)%Z in
  mkState loading (lib_buffers st) (requested st)
    (if decide (loading = 0%Z) then started st ++ [lib_buffers st]
     else started st).

(** Lines 192-213: one turn of the loop over [json.buffers], and the two
    callbacks it passes to [_loadBuffer]. *)
Definition step (paths : Paths) (st : State) (event : Event) : State :=
  match event with
  | Request name bufferInfo =>
      let path :=
        match b_uri bufferInfo with
        | Some uri => Some uri
        | None => b_path bufferInfo
        end in
      mkState (loading st + 1)%Z (lib_buffers st)
        (requested st ++ [_loadBuffer paths path]) (started st)
  | Load name buffer =>
      settle (mkState (loading st) (<[name := buffer]> (lib_buffers st))
                (requested st) (started st))
  | Error => settle st
  end.

(** Lines 177-188: [parse] starts with [loading] 0 and an empty [lib]. *)
Definition parse_start : State := mkState 0 ∅ [] [].

(** The requests of the loop over [json.buffers].  [util.each] is outside
    src; it calls the function on the entries of the object, in the order
    of the document. *)
Definition requests (buffers : obj BufferInfo) : list Event :=
  map (λ entry, Request entry.1 entry.2) buffers.

Definition isRequest (event : Event) : bool :=
  match event with
  | Request _ _ => true
  | _ => false
  end.

(** The buffers that a run of callbacks hands over. *)
Definition loaded (events : list Event)
    (buffers : gmap string (list Byte.byte)) : gmap string (list Byte.byte) :=
  foldl (λ buffers event,
           match event with
           | Load name buffer => <[name := buffer]> buffers
           | _ => buffers
           end)
    buffers events.

(** The string holds no [c]. *)
Fixpoint free_of (c : Ascii.ascii) (s : string) : bool :=
  match s with
  | EmptyString => true
  | String a rest => bool_decide (a ≠ c) && free_of c rest
  end.

Definition ex_buffers : obj BufferInfo :=
  [("geometry", mkBufferInfo (Some "geometry.bin") None);
   ("skin", mkBufferInfo None (Some "skin.bin"))].

End Loader.

(** ** [_parseTextures]: samplers, targets and the images to load *)
Module Textures.

(** A GL enum of the document: a number, or in documents older than 1.0
    its name. *)
Inductive EnumValue : Type :=
  | EnumNum (n : N)
  | EnumStr (s : string).

Record SamplerInfo : Type := mkSampler {
  s_wrapS : option EnumValue;
  s_wrapT : option EnumValue;
  s_magFilter : option EnumValue;
  s_minFilter : option EnumValue
}.

Record TextureInfo : Type := mkTextureInfo {
  t_sampler : option string;
  t_target : option EnumValue;
  t_format : option EnumValue;
  t_source : option string
}.

Record ImageInfo : Type := mkImage {
  i_path : option string
}.

Record Json : Type := mkJson {
  json_textures : obj TextureInfo;
  json_samplers : obj SamplerInfo;
  json_images : obj ImageInfo
}.

(** A property of the [parameters] object: absent, or set to a value that
    may be [undefined]. *)
Inductive Setting (A : Type) : Type :=
  | Unset
  | SetTo (value : option A).
Arguments Unset {A}.
Arguments SetTo {A} value.

(** Modelled from the spec: [Texture2D] is outside src; the spec has a
    texture hold the sampler parameters it is constructed with and load its
    image from a url.  The record is the [parameters] object passed to the
    constructor and the arguments of [texture.load]. *)
Record Texture : Type := mkTexture {
  tex_wrapS : Setting N;
  tex_wrapT : Setting N;
  tex_magFilter : Setting N;
  tex_minFilter : Setting N;
  tex_format : option EnumValue;
  tex_url : string;
  tex_crossOrigin : option string
}.

Section WithCollaborators.

(** The table [glenum] of the GL constants by name is outside src; [None]
    is the [undefined] of a name it does not have. *)
Variable glenum : string → option N.

(** [util.relative2absolute(path, basePath)] is outside src. *)
Variable relative2absolute : option string → option string → string.

(** [glenum[value]]: a value that is no string is converted to the
    property key. *)
Definition glenumOf (value : option EnumValue) : option N :=
  match value with
  | Some (EnumStr s) => glenum s
  | Some (EnumNum n) => glenum (pretty n)
  | None => glenum "undefined"
  end.

(** Lines 461-468: one sampler parameter. *)
Definition samplerParameter (value : option EnumValue) : Setting N :=
  match value with
  | None => Unset
  | Some (EnumStr s) => SetTo (glenum s)
  | Some (EnumNum n) => SetTo (Some n)
  end.

(** Lines 471-477: the target compared with [glenum.TEXTURE_2D], and the
    format; both are looked up in [glenum] when the target is a string. *)
Definition targetOf (textureInfo : TextureInfo) : option N :=
  match t_target textureInfo with
  | Some (EnumStr s) => glenum s
  | Some (EnumNum n) => Some n
  | None => None
  end.

Definition formatOf (textureInfo : TextureInfo) : option EnumValue :=
  match t_target textureInfo with
  | Some (EnumStr _) => EnumNum <$> glenumOf (t_format textureInfo)
  | _ => t_format textureInfo
  end.

(** [target === glenum.TEXTURE_2D]. *)
Definition is2D (textureInfo : TextureInfo) : bool :=
  bool_decide (targetOf textureInfo = glenum "TEXTURE_2D").

(** Lines 456-489: the body of the loop over [json.textures]. *)
Definition parseTexture (json : Json) (rootPath crossOrigin : option string)
    (textures : gmap string Texture) (entry : string * TextureInfo)
  : result (gmap string Texture) :=
  let '(name, textureInfo) := entry in
  match obj_get (json_samplers json) (propertyKey (t_sampler textureInfo)) with
  | None => Err TypeError
  | Some samplerInfo =>
      if is2D textureInfo then
        match obj_get (json_images json)
                (propertyKey (t_source textureInfo)) with
        | None => Err TypeError
        | Some imageInfo =>
            let texture :=
              mkTexture (samplerParameter (s_wrapS samplerInfo))
                (samplerParameter (s_wrapT samplerInfo))
                (samplerParameter (s_magFilter samplerInfo))
                (samplerParameter (s_minFilter samplerInfo))
                (formatOf textureInfo)
                (relative2absolute (i_path imageInfo) rootPath)
                crossOrigin in
            Ok (<[name := texture]> textures)
        end
      else Ok textures
  end.

(** Lines 451-490: the root path is [textureRootPath], or [rootPath] when
    that is [null].  [util.each] is outside src; it calls the function on
    the entries of [json.textures], in the order of the document. *)
Definition _parseTextures (json : Json)
    (textureRootPath rootPath crossOrigin : option string)
    (textures : gmap string Texture) : result (gmap string Texture) :=
  let rootPath :=
    match textureRootPath with
    | Some root => Some root
    | None => rootPath
    end in
  forM (parseTexture json rootPath crossOrigin) (json_textures json) textures.

(** The two values stand for the same GL constant: the same number, or a
    name and the number that [glenum] has for it. *)
Definition same_enum (legacy current : option EnumValue) : Prop :=
  match legacy, current with
  | None, None => True
  | Some (EnumNum n), Some (EnumNum n') => n = n'
  | Some (EnumStr s), Some (EnumNum n') => glenum s = Some n'
  | _, _ => False
  end.

(** A legacy texture and sampler, with names for the constants, and their
    counterparts of a current document. *)
Definition same_sampler (legacy current : SamplerInfo) : Prop :=
  same_enum (s_wrapS legacy) (s_wrapS current)
  ∧ same_enum (s_wrapT legacy) (s_wrapT current)
  ∧ same_enum (s_magFilter legacy) (s_magFilter current)
  ∧ same_enum (s_minFilter legacy) (s_minFilter current).

Definition same_texture (legacy current : TextureInfo) : Prop :=
  t_sampler legacy = t_sampler current
  ∧ t_source legacy = t_source current
  ∧ (∃ target format n n',
       t_target legacy = Some (EnumStr target)
       ∧ t_format legacy = Some (EnumStr format)
       ∧ glenum target = Some n ∧ glenum format = Some n'
       ∧ t_target current = Some (EnumNum n)
       ∧ t_format current = Some (EnumNum n')).

End WithCollaborators.

(** The constants of a few names. *)
Definition ex_glenum (name : string) : option N :=
  obj_get [("TEXTURE_2D", 3553%N); ("TEXTURE_CUBE_MAP", 34067%N);
           ("RGBA", 6408%N); ("REPEAT", 10497%N); ("LINEAR", 9729%N)] name.

Definition ex_relative2absolute (path base : option string) : string :=
  propertyKey base +:+ "/" +:+ propertyKey path.

(** A legacy document with a 2D texture and a cube map, and the 2D
    texture as a current document has it. *)
Definition ex_json : Json :=
  mkJson
    [("wood", mkTextureInfo (Some "smooth") (Some (EnumStr "TEXTURE_2D"))
                (Some (EnumStr "RGBA")) (Some "wood.png"));
     ("sky", mkTextureInfo (Some "smooth") (Some (EnumStr "TEXTURE_CUBE_MAP"))
               (Some (EnumStr "RGBA")) (Some "sky.png"))]
    [("smooth", mkSampler (Some (EnumStr "REPEAT")) (Some (EnumNum 10497))
                  (Some (EnumStr "LINEAR")) None)]
    [("wood.png", mkImage (Some "wood.png"))].

Definition ex_current : Json :=
  mkJson
    [("wood", mkTextureInfo (Some "smooth") (Some (EnumNum 3553))
                (Some (EnumNum 6408)) (Some "wood.png"))]
    [("smooth", mkSampler (Some (EnumNum 10497)) (Some (EnumNum 10497))
                  (Some (EnumNum 9729)) None)]
    [("wood.png", mkImage (Some "wood.png"))].

End Textures.

(** * The point light (src/3d/light/point.js) *)
Module PointLightUniforms.

Section WithNumbers.

(** JavaScript numbers; [nan] is what [undefined] converts to in a
    product. *)
Context {num : Type}.
Variable nan : num.
Variable mul : num → num → num.

(** The fields of a point light that its uniform templates read.  [color]
    and [intensity] come from [Light], which is outside src. *)
Record Instance : Type := mkInstance {
  range : num;
  castShadow : bool;
  color : list num;
  intensity : num;
  worldPosition : list num
}.

(** [color[k] * intensity]: an index past the end of the array reads
    [undefined]. *)
Definition scaled (instance : Instance) (k : nat) : num :=
  mul (default nan (color instance !! k)) (intensity instance).

(** Lines 27-32. *)
Definition pointLightPosition (instance : Instance) : list num :=
  worldPosition instance.

(** Lines 33-38. *)
Definition pointLightRange (instance : Instance) : num := range instance.

(** Lines 39-46. *)
Definition pointLightColor (instance : Instance) : list num :=
  [scaled instance 0; scaled instance 1; scaled instance 1].

End WithNumbers.

(** A blue light and a black light of the same intensity. *)
Definition ex_blue : Instance (num := Z) :=
  mkInstance 100%Z false [0; 0; 1]%Z 2%Z [0; 0; 0]%Z.

Definition ex_black : Instance (num := Z) :=
  mkInstance 100%Z false [0; 0; 0]%Z 2%Z [0; 0; 0]%Z.

End PointLightUniforms.

(** * The basic shader (src/shader/source/basic.essl) *)
Module BasicShader.

Section WithFloats.

(** GLSL floats, and the vectors of the fragment shader by their
    components. *)
Context {float : Type}.

Record vec2 : Type := mkVec2 { v_x : float; v_y : float }.
Record vec3 : Type := mkVec3 { v_r : float; v_g : float; v_b : float }.
Record vec4 : Type := mkVec4 { rgb : vec3; a : float }.

(** The constants 1.0, 0.01, [ALPHA_TEST_THRESHOLD] (0.5) and the value
    of the expression [1 / 2.2]. *)
Variable one : float.
Variable hundredth : float.
Variable ALPHA_TEST_THRESHOLD : float.
Variable gamma : float.

(** The arithmetic and the built-in functions of GLSL. *)
Variable lt : float → float → bool.
Variable add3 : vec3 → vec3 → vec3.
Variable mul3 : vec3 → vec3 → vec3.
Variable pow3 : vec3 → vec3 → vec3.
Variable mix : vec3 → vec3 → float → vec3.
Variable texture2D : vec2 → vec4.

(** The chunks the shader imports ([qtek.util.rgbm], [qtek.util.srgb],
    [qtek.util.edge_factor]) are outside src; [edgeFactor] reads the
    varying [v_Barycentric]. *)
Variable decodeHDR : vec4 → vec4.
Variable encodeHDR : vec4 → vec4.
Variable sRGBToLinear : vec4 → vec4.
Variable edgeFactor : vec3 → float → float.

(** The macros the shader is compiled with. *)
Record Defines : Type := mkDefines {
  RENDER_TEXCOORD : bool;
  DIFFUSEMAP_ENABLED : bool;
  SRGB_DECODE : bool;
  DIFFUSEMAP_ALPHA_ALPHA : bool;
  GAMMA_ENCODE : bool;
  ALPHA_TEST : bool
}.

Record Uniforms : Type := mkUniforms {
  u_color : vec3;
  u_emission : vec3;
  u_alpha : float;
  u_lineWidth : float;
  u_lineColor : vec3
}.

(** Lines 71-75: the texel of the diffuse map. *)
Definition texel (defines : Defines) (v_Texcoord : vec2) : vec4 :=
  let tex := decodeHDR (texture2D v_Texcoord) in
  if SRGB_DECODE defines then sRGBToLinear tex else tex.

(** Lines 60-103: [main] of the fragment shader.  The result is
    [gl_FragColor], or [None] for a fragment that is discarded. *)
Definition fragment (defines : Defines) (uniforms : Uniforms)
    (v_Texcoord : vec2) (v_Barycentric : vec3) : option vec4 :=
  if RENDER_TEXCOORD defines then
    Some (mkVec4 (mkVec3 (v_x v_Texcoord) (v_y v_Texcoord) one) one)
  else
    let gl_FragColor := mkVec4 (u_color uniforms) (u_alpha uniforms) in
    let gl_FragColor :=
      if DIFFUSEMAP_ENABLED defines then
        let tex := texel defines v_Texcoord in
        let gl_FragColor :=
          if DIFFUSEMAP_ALPHA_ALPHA defines
          then mkVec4 (rgb gl_FragColor) (a tex)
          else gl_FragColor in
        mkVec4 (mul3 (rgb gl_FragColor) (rgb tex)) (a gl_FragColor)
      else gl_FragColor in
    let gl_FragColor :=
      mkVec4 (add3 (rgb gl_FragColor) (u_emission uniforms))
        (a gl_FragColor) in
    let gl_FragColor :=
      if lt hundredth (u_lineWidth uniforms) then
        mkVec4 (mul3 (rgb gl_FragColor)
                  (mix (u_lineColor uniforms) (mkVec3 one one one)
                     (edgeFactor v_Barycentric (u_lineWidth uniforms))))
          (a gl_FragColor)
      else gl_FragColor in
    let gl_FragColor :=
      if GAMMA_ENCODE defines then
        mkVec4 (pow3 (rgb gl_FragColor) (mkVec3 gamma gamma gamma))
          (a gl_FragColor)
      else gl_FragColor in
    if ALPHA_TEST defines && lt (a gl_FragColor) ALPHA_TEST_THRESHOLD
    then None
    else Some (encodeHDR gl_FragColor).

(** The alpha that the alpha test sees: the texel's with a diffuse map
    compiled for it, the uniform's otherwise. *)
Definition testedAlpha (defines : Defines) (uniforms : Uniforms)
    (v_Texcoord : vec2) : float :=
  if DIFFUSEMAP_ENABLED defines && DIFFUSEMAP_ALPHA_ALPHA defines
  then a (texel defines v_Texcoord)
  else u_alpha uniforms.

End WithFloats.

End BasicShader.

(** * Properties *)

(** ** Loops and JSON objects *)

Lemma obj_get_elem_of {A : Type} (o : obj A) name v :
  obj_get o name = Some v → (name, v) ∈ o.
Proof.
  induction o as [|[k w] o IH]; simpl; [done|].
  case_decide as Hk.
  - intros [= ->]. subst. left.
  - intros H. right. auto.
Qed.

(** In an object with distinct keys, the key of an entry differs from the
    keys of the entries before it. *)
Lemma obj_keys_fresh {A : Type} (o pre post : obj A) name v name' v' :
  NoDup (obj_keys o) → o = pre ++ (name, v) :: post → (name', v') ∈ pre →
  name' ≠ name.
Proof.
  unfold obj_keys. intros Hnd -> Hin ->. rewrite fmap_app in Hnd.
  apply NoDup_app in Hnd as (_ & Hdisj & _). apply (Hdisj name).
  - apply list_elem_of_fmap. by exists (name, v').
  - simpl. left.
Qed.

Lemma bind_Ok {A B : Type} (r : result A) (k : A → result B) b :
  (r ≫= k) = Ok b → ∃ a, r = Ok a ∧ k a = Ok b.
Proof. destruct r as [a|e]; simpl; [eauto|done]. Qed.

Lemma fmap_Ok {A B : Type} (f : A → B) (r : result A) b :
  f <$> r = Ok b → ∃ a, r = Ok a ∧ b = f a.
Proof. destruct r as [a|e]; simpl; [|done]. intros [= <-]. eauto. Qed.

(** An invariant kept by every iteration of a loop holds when it ends. *)
Lemma forM_invariant {A S : Type} (P : S → Prop) (body : S → A → result S) l :
  (∀ s a s', a ∈ l → P s → body s a = Ok s' → P s') →
  ∀ s s', P s → forM body l s = Ok s' → P s'.
Proof.
  induction l as [|a l IH]; intros Hstep s s' HP; simpl.
  - by intros [= <-].
  - intros (s1 & Hb & Hrest)%bind_Ok.
    eapply IH; [|eapply (Hstep s a s1); [left|done|done]|done].
    intros ? ? ? ?. apply Hstep. by right.
Qed.

(** The same with an invariant that speaks of the entries already seen. *)
Lemma forM_prefix_invariant {A S : Type} (P : list A → S → Prop)
    (body : S → A → result S) l s0 s' :
  P [] s0 →
  (∀ pre a post s s1,
     l = pre ++ a :: post → P pre s → body s a = Ok s1 → P (pre ++ [a]) s1) →
  forM body l s0 = Ok s' → P l s'.
Proof.
  intros H0 Hstep.
  enough (∀ post pre s, l = pre ++ post → P pre s →
                        forM body post s = Ok s' → P l s') as Hgen
    by (by apply (Hgen l [] s0)).
  induction post as [|a post IH]; intros pre s Hl HP; simpl.
  - intros [= <-]. by rewrite Hl, app_nil_r.
  - intros (s1 & Hb & Hrest)%bind_Ok.
    apply (IH (pre ++ [a]) s1); [by rewrite <- app_assoc| |done].
    by eapply Hstep.
Qed.

(** A loop whose body cannot throw from a state satisfying the invariant. *)
Lemma forM_total {A S : Type} (P : S → Prop) (body : S → A → result S) l :
  (∀ s a, a ∈ l → P s → ∃ s', body s a = Ok s' ∧ P s') →
  ∀ s, P s → ∃ s', forM body l s = Ok s' ∧ P s'.
Proof.
  induction l as [|a l IH]; intros Hstep s HP; simpl; [eauto|].
  destruct (Hstep s a) as (s1 & -> & HP1); [left|done|]. simpl.
  apply IH; [|done]. intros ? ? ?. apply Hstep. by right.
Qed.

(** Every entry of a loop that ended was processed without an exception,
    from a state that satisfies the loop's invariant. *)
Lemma forM_Ok_each {A S : Type} (P : S → Prop) (body : S → A → result S) l :
  (∀ s a s', P s → body s a = Ok s' → P s') →
  ∀ s s', P s → forM body l s = Ok s' →
    P s' ∧ Forall (λ a, ∃ s1 s2, P s1 ∧ body s1 a = Ok s2) l.
Proof.
  intros Hstep. induction l as [|a l IH]; intros s s' HP; simpl.
  - intros [= <-]. by split.
  - intros (s1 & Hb & Hrest)%bind_Ok.
    destruct (IH s1 s') as [HP' Hall]; [by eapply Hstep|done|].
    split; [done|]. constructor; [|done]. by exists s, s1.
Qed.

(** ** The skin binder *)
Section SkinsProperties.
Import Skins.

Context {Scene : Type}.
Variable Joint_defaults : Joint.
Variable enableSkinningForNode :
  Scene → option nodeRef → string → list Z → result Scene.

Local Abbreviation bindNodeToJoint := (Skins.bindNodeToJoint Joint_defaults).
Local Abbreviation createJoints := (Skins.createJoints Joint_defaults).
Local Abbreviation createSkeleton :=
  (Skins.createSkeleton (Scene := Scene) Joint_defaults).
Local Abbreviation bindRoot := (Skins.bindRoot Joint_defaults).
Local Abbreviation bindInstanceSkin :=
  (Skins.bindInstanceSkin Joint_defaults enableSkinningForNode).
Local Abbreviation _parseSkins :=
  (Skins._parseSkins Joint_defaults enableSkinningForNode).

Lemma store_step_refl jointsMap store : store_step jointsMap store store.
Proof. split; [done|]. split; eauto. Qed.

Lemma store_step_trans jointsMap s1 s2 s3 :
  store_step jointsMap s1 s2 → store_step jointsMap s2 s3 →
  store_step jointsMap s1 s3.
Proof.
  intros (Hl1 & Hi1 & Hf1) (Hl2 & Hi2 & Hf2). split; [lia|]. split.
  - intros l j Hj. destruct (Hi1 l j Hj) as (j1 & Hj1 & Hidx1 & Hn1).
    destruct (Hi2 l j1 Hj1) as (j2 & Hj2 & Hidx2 & Hn2).
    exists j2. split; [done|]. split; congruence.
  - intros l j Hj Hk. apply Hf2; [|done]. by apply Hf1.
Qed.

Lemma store_step_alloc jointsMap store j :
  store_step jointsMap store (store ++ [j]).
Proof.
  split; [rewrite length_app; lia|]. split.
  - intros l j0 Hj0. exists j0. split; [|done]. by apply lookup_app_l_Some.
  - intros l j0 Hj0 _. by apply lookup_app_l_Some.
Qed.

Lemma store_step_update jointsMap store k l j parentIndex node rootNode :
  jointsMap !! k = Some l → store !! l = Some j →
  store_step jointsMap store
    (<[l := mkJoint (j_name j) (j_index j) parentIndex node rootNode]> store).
Proof.
  intros Hk Hj. split; [by rewrite length_insert|]. split.
  - intros l' j' Hj'. destruct (decide (l = l')) as [<-|Hne].
    + rewrite list_lookup_insert_eq by (by eapply lookup_lt_Some).
      eexists. split; [done|]. simpl. by simplify_eq.
    + rewrite list_lookup_insert_ne by done. eauto.
  - intros l' j' Hj' Hfree. rewrite list_lookup_insert_ne; [done|].
    intros <-. by apply (Hfree k).
Qed.

(** Every successful call of the walk is a [store_step]. *)
Lemma bindNodeToJoint_store_step fuel json nodes jointsMap :
  ∀ nodeName parentIndex rootNode store r store',
    bindNodeToJoint fuel json nodes jointsMap nodeName parentIndex rootNode
      store = Ok (r, store') →
    store_step jointsMap store store'.
Proof.
  induction fuel as [|fuel IH]; intros nodeName parentIndex rootNode store r
    store'; simpl; [done|].
  destruct (obj_get (json_nodes json) nodeName) as [nodeInfo|]; [|done].
  intros ([[joint parentIndex'] store1] & Hfirst & Hrest)%bind_Ok.
  assert (store_step jointsMap store store1) as Hstep1.
  { destruct (jointsMap !! propertyKey (n_jointId nodeInfo)) as [l|] eqn:Hk.
    - destruct (store !! l) as [j|] eqn:Hj; [|done].
      injection Hfirst as <- <- <-. by eapply store_step_update.
    - injection Hfirst as <- <- <-. apply store_step_alloc. }
  destruct (n_children nodeInfo) as [children|]; [|done].
  apply bind_Ok in Hrest as (store2 & Hloop & [= <- <-]).
  eapply store_step_trans; [exact Hstep1|].
  revert Hloop. apply forM_invariant; [|apply store_step_refl].
  intros s child s' _ Hs ([r' s''] & Hcall & ->)%fmap_Ok. simpl.
  eapply store_step_trans; [exact Hs|]. by eapply IH.
Qed.

Lemma jointsMap_ok_step jointsMap store store' :
  jointsMap_ok jointsMap store → store_step jointsMap store store' →
  jointsMap_ok jointsMap store'.
Proof.
  intros Hok (Hlen & _) k l Hk. specialize (Hok k l Hk). simpl in *. lia.
Qed.

(** What a successful call returns: the joint found in [jointsMap], or a
    new joint that carries the arguments of the call and that the rest of
    the walk leaves alone. *)
Lemma bindNodeToJoint_returns fuel json nodes jointsMap nodeName parentIndex
    rootNode store r store' :
  jointsMap_ok jointsMap store →
  bindNodeToJoint fuel json nodes jointsMap nodeName parentIndex rootNode
    store = Ok (r, store') →
  ∃ nodeInfo l j,
    obj_get (json_nodes json) nodeName = Some nodeInfo
    ∧ r = Some l ∧ store' !! l = Some j
    ∧ match jointsMap !! propertyKey (n_jointId nodeInfo) with
      | Some l' => l = l'
      | None =>
          l = length store
          ∧ j = mkJoint (j_name Joint_defaults) (j_index Joint_defaults)
                  parentIndex (nodes !! nodeName) rootNode
      end.
Proof.
  intros Hok Hcall. pose proof Hcall as Hwhole.
  apply bindNodeToJoint_store_step in Hwhole.
  destruct fuel as [|fuel]; simpl in Hcall; [done|].
  destruct (obj_get (json_nodes json) nodeName) as [nodeInfo|]; [|done].
  apply bind_Ok in Hcall as ([[joint parentIndex'] store1] & Hfirst & Hrest).
  destruct (n_children nodeInfo) as [children|]; [|done].
  apply bind_Ok in Hrest as (store2 & Hloop & [= <- <-]).
  assert (store_step jointsMap store1 store2) as Hstep2.
  { revert Hloop. apply forM_invariant; [|apply store_step_refl].
    intros s child s' _ Hs ([r' s''] & Hc & ->)%fmap_Ok. simpl.
    eapply store_step_trans; [exact Hs|].
    by eapply bindNodeToJoint_store_step. }
  exists nodeInfo.
  destruct (jointsMap !! propertyKey (n_jointId nodeInfo)) as [l|] eqn:Hk.
  - destruct (store !! l) as [j|] eqn:Hj; [|done].
    injection Hfirst as <- <- <-.
    destruct Hwhole as (_ & Hidx & _).
    destruct (Hidx l j Hj) as (j' & Hj' & _). by exists l, j'.
  - injection Hfirst as <- <- <-.
    eexists (length store), _. split; [done|]. split; [done|].
    split; [|done].
    destruct Hstep2 as (_ & _ & Hframe). apply Hframe.
    + by apply list_lookup_middle.
    + intros k Hk'. specialize (Hok k _ Hk'). simpl in Hok. lia.
Qed.

(** Over a finite, fully declared hierarchy the walk returns. *)
Lemma bindNodeToJoint_total depth json nodes jointsMap :
  ∀ nodeName parentIndex rootNode store,
    hierarchy_ok depth json nodeName = true →
    jointsMap_ok jointsMap store →
    ∃ r store',
      bindNodeToJoint depth json nodes jointsMap nodeName parentIndex rootNode
        store = Ok (r, store').
Proof.
  induction depth as [|depth IH]; intros nodeName parentIndex rootNode store;
    simpl; [done|].
  destruct (obj_get (json_nodes json) nodeName) as [nodeInfo|]; [|done].
  destruct (n_children nodeInfo) as [children|]; [|done].
  intros Hchildren Hok.
  rewrite forallb_forall in Hchildren.
  set (first := match jointsMap !! propertyKey (n_jointId nodeInfo) with
                | Some l => _ | None => _ end).
  assert (∃ joint parentIndex' store1,
            first = Ok (joint, parentIndex', store1)
            ∧ jointsMap_ok jointsMap store1) as (joint & p' & store1 & -> & Hok1).
  { subst first.
    destruct (jointsMap !! propertyKey (n_jointId nodeInfo)) as [l|] eqn:Hk.
    - destruct (lookup_lt_is_Some_2 store l (Hok _ _ Hk)) as [j Hj].
      rewrite Hj. do 3 eexists. split; [done|].
      eapply jointsMap_ok_step; [done|]. by eapply store_step_update.
    - do 3 eexists. split; [done|].
      eapply jointsMap_ok_step; [done|]. apply store_step_alloc. }
  simpl.
  destruct (forM_total (jointsMap_ok jointsMap)
              (λ s child, snd <$> bindNodeToJoint depth json nodes jointsMap
                                    child p' rootNode s) children)
    with (s := store1) as (store2 & -> & _); [|done|simpl; eauto].
  intros s child Hin Hs.
  destruct (IH child p' rootNode s) as (r & s' & Hcall); [|done|].
  { apply Hchildren. by apply list_elem_of_In. }
  rewrite Hcall. simpl. eexists. split; [done|].
  eapply jointsMap_ok_step; [done|]. by eapply bindNodeToJoint_store_step.
Qed.

(** The loop over the root node ids: one push per id. *)
Lemma bindRoots_spec fuel json nodes jointsMap rootNames store roots store'
    roots' :
  jointsMap_ok jointsMap store →
  forM (bindRoot fuel json nodes jointsMap) rootNames (store, roots)
    = Ok (store', roots') →
  store_step jointsMap store store'
  ∧ ∃ pushed, roots' = roots ++ pushed
      ∧ length pushed = length rootNames
      ∧ Forall (λ l, is_Some (store' !! l)) pushed.
Proof.
  intros Hok Hloop.
  apply (forM_prefix_invariant
           (λ pre st, store_step jointsMap store st.1
              ∧ ∃ pushed, st.2 = roots ++ pushed
                  ∧ length pushed = length pre
                  ∧ Forall (λ l, is_Some (st.1 !! l)) pushed)) in Hloop;
    [done| |].
  - split; [apply store_step_refl|]. exists []. by rewrite app_nil_r.
  - intros pre rootName post [s rs] [s1 rs1] _ (Hs & pushed & Hrs & Hlen & Hall).
    simpl in *. subst rs. intros ([r s2] & Hcall & Hpush)%bind_Ok.
    pose proof (bindNodeToJoint_store_step _ _ _ _ _ _ _ _ _ _ Hcall) as Hstep.
    apply bindNodeToJoint_returns in Hcall
      as (nodeInfo & l & j & _ & -> & Hl & _);
      [|by eapply jointsMap_ok_step].
    injection Hpush as <- <-.
    split; [by eapply store_step_trans|].
    exists (pushed ++ [l]). split; [by rewrite app_assoc|].
    split; [rewrite !length_app; simpl; lia|].
    apply Forall_app. split; [|by repeat constructor].
    eapply Forall_impl; [exact Hall|]. intros l' [j' Hj'].
    destruct Hstep as (_ & Hidx & _).
    destruct (Hidx l' j' Hj') as (j'' & -> & _). done.
Qed.

Lemma bindRoots_total depth json nodes jointsMap rootNames store roots :
  forallb (hierarchy_ok depth json) rootNames = true →
  jointsMap_ok jointsMap store →
  ∃ st, forM (bindRoot depth json nodes jointsMap) rootNames (store, roots)
        = Ok st.
Proof.
  intros Hroots Hok. rewrite forallb_forall in Hroots.
  destruct (forM_total (λ st, jointsMap_ok jointsMap st.1)
              (bindRoot depth json nodes jointsMap) rootNames)
    with (s := (store, roots)) as (st & -> & _); [|done|eauto].
  intros [s rs] rootName Hin Hs. simpl in *.
  destruct (bindNodeToJoint_total depth json nodes jointsMap
              rootName (-1)%Z (nodes !! rootName) s)
    as (r & s' & Hcall); [apply Hroots; by apply list_elem_of_In|done|].
  rewrite Hcall. simpl.
  apply bindNodeToJoint_store_step in Hcall.
  destruct r; eexists; (split; [done|]); by eapply jointsMap_ok_step.
Qed.


(** *** The joints of a skeleton and their indices *)

Lemma createJoints_spec jointIds :
  ∀ store joints store' joints',
    createJoints jointIds store joints = (store', joints') →
    store_step ∅ store store'
    ∧ length joints' = length joints + length jointIds
    ∧ ((∀ i l, joints !! i = Some l →
          ∃ j, store !! l = Some j ∧ j_index j = Z.of_nat i) →
       (∀ i l, joints' !! i = Some l →
          ∃ j, store' !! l = Some j ∧ j_index j = Z.of_nat i)).
Proof.
  induction jointIds as [|jointId rest IH]; intros store joints store' joints';
    simpl.
  - intros [= <- <-]. split; [apply store_step_refl|]. split; [lia|done].
  - intros (Hstep & Hlen & Hidx)%IH.
    split; [eapply store_step_trans; [apply store_step_alloc|done]|].
    split; [rewrite length_app in Hlen; simpl in *; lia|].
    intros Hold. apply Hidx. intros i l Hl.
    apply lookup_app_Some in Hl as [Hl|[Hge Hl]].
    + destruct (Hold i l Hl) as (j & Hj & Hi). exists j.
      split; [by apply lookup_app_l_Some|done].
    + apply list_lookup_singleton_Some in Hl as [Hi <-].
      eexists. split; [by apply list_lookup_middle|]. simpl.
      f_equal. lia.
Qed.

Lemma skeleton_indexed_step jointsMap store store' skeleton :
  store_step jointsMap store store' →
  skeleton_indexed store skeleton → skeleton_indexed store' skeleton.
Proof.
  intros (_ & Hidx & _) Hsk i l Hl.
  destruct (Hsk i l Hl) as (j & Hj & Hi).
  destruct (Hidx l j Hj) as (j' & Hj' & Hi' & _).
  exists j'. split; [done|congruence].
Qed.

Lemma createSkeleton_spec json lib have name skinInfo lib' have' :
  createSkeleton json (lib, have) (name, skinInfo) = Ok (lib', have') →
  store_step ∅ (joint_store lib) (joint_store lib')
  ∧ skin_bound lib' name skinInfo
  ∧ ∀ name', name' ≠ name →
      lib_skeletons lib' !! name' = lib_skeletons lib !! name'.
Proof.
  unfold createSkeleton.
  destruct (createJoints (skin_joints skinInfo) (joint_store lib) [])
    as [store joints] eqn:Hcreate.
  apply createJoints_spec in Hcreate as (Hstep & Hlen & Hidx).
  intros ([invBind have''] & _ & [= <- <-])%bind_Ok. simpl.
  split; [done|]. split.
  - eexists. simpl. rewrite lookup_insert_eq. split; [done|]. simpl.
    split; [done|]. intros i l Hl. apply Hidx; [|done].
    intros ? ? Hnil. by rewrite lookup_nil in Hnil.
  - intros name' Hne. by rewrite lookup_insert_ne.
Qed.

Lemma createSkeletons_spec json lib lib1 have :
  NoDup (obj_keys (json_skins json)) →
  forM (createSkeleton json) (json_skins json) (lib, false) = Ok (lib1, have) →
  ∀ name skinInfo, (name, skinInfo) ∈ json_skins json →
    skin_bound lib1 name skinInfo.
Proof.
  intros Hnd.
  apply (forM_prefix_invariant
           (λ pre st, ∀ name skinInfo, (name, skinInfo) ∈ pre →
                        skin_bound st.1 name skinInfo)).
  - intros ? ? Hin. inversion Hin.
  - intros pre [name skinInfo] post [l h] [l1 h1] Hsplit Hpre Hbody.
    apply createSkeleton_spec in Hbody as (Hstep & Hnew & Hother).
    intros name' skinInfo' [Hin|Hin]%elem_of_app; simpl in *.
    + assert (name' ≠ name) as Hne by (by eapply obj_keys_fresh).
      destruct (Hpre _ _ Hin) as (sk & Hsk & Hlen & Hidx).
      exists sk. rewrite Hother by done. split; [done|]. split; [done|].
      by eapply skeleton_indexed_step.
    + apply list_elem_of_singleton in Hin as [= -> ->]. done.
Qed.

Lemma bindInstanceSkin_spec fuel json lib instanceSkins entry lib' instanceSkins'
    name skinInfo :
  bindInstanceSkin fuel json (lib, instanceSkins) entry
    = Ok (lib', instanceSkins') →
  skin_bound lib name skinInfo → skin_bound lib' name skinInfo.
Proof.
  destruct entry as [nodeName nodeInfo]. unfold bindInstanceSkin.
  destruct (n_instanceSkin nodeInfo) as [instanceSkin|];
    [|by intros [= <- <-]].
  destruct (lib_skeletons lib !! is_skin instanceSkin) as [skeleton|] eqn:Hsk;
    [|done].
  intros (indices & _ & (scene' & _ & (jointsMap & Hmap &
            ([store' roots'] & Hroots & [= <- <-])%bind_Ok)%bind_Ok)%bind_Ok
         )%bind_Ok.
  assert (jointsMap_ok jointsMap (joint_store lib)) as Hok.
  { revert Hmap. generalize (sk_joints skeleton).
    assert (jointsMap_ok ∅ (joint_store lib)) as Hempty
      by apply map_Forall_empty.
    revert Hempty. generalize (∅ : gmap string nat).
    intros m Hm joints. revert m Hm.
    induction joints as [|l joints IH]; intros m Hm; simpl.
    - by intros [= <-].
    - destruct (joint_store lib !! l) as [j|] eqn:Hj; [|done].
      apply IH. apply map_Forall_insert_2; [|done].
      by eapply lookup_lt_Some. }
  apply bindRoots_spec in Hroots as [Hstep _]; [|done].
  intros (sk & Hlook & Hlen & Hidx). unfold skin_bound. simpl.
  destruct (decide (is_skin instanceSkin = name)) as [<-|Hne].
  - rewrite lookup_insert_eq. eexists. split; [done|]. simpl.
    assert (sk = skeleton) as -> by congruence. split; [done|].
    intros i l Hl. by eapply (skeleton_indexed_step _ _ _ skeleton).
  - rewrite lookup_insert_ne by done. exists sk. split; [done|].
    split; [done|]. by eapply skeleton_indexed_step.
Qed.

Lemma updateSkeletons_joints have names :
  ∀ (skeletons : gmap string Skeleton) name sk,
    skeletons !! name = Some sk →
    ∃ sk', foldl (updateSkeleton have) skeletons names !! name = Some sk'
           ∧ sk_joints sk' = sk_joints sk.
Proof.
  induction names as [|n names IH]; intros skeletons name sk Hsk; simpl;
    [eauto|].
  unfold updateSkeleton at 2.
  destruct (decide (n = name)) as [->|Hne].
  - edestruct (IH (alter (λ sk0, mkSkeleton (sk_name sk0) (sk_joints sk0)
                       (sk_roots sk0) (sk_invBindPoseMatricesArray sk0)
                       (sk_skinMatricesArray sk0) (Some have)) name skeletons)
                 name) as (sk' & Hsk' & Hj).
    { rewrite lookup_alter_eq, Hsk. done. }
    exists sk'. split; [done|]. by rewrite Hj.
  - apply IH. by rewrite lookup_alter_ne.
Qed.

Lemma jointIndices_total store joints :
  Forall (λ l, l < length store) joints →
  ∃ indices, Skins.jointIndices store joints = Ok indices.
Proof.
  induction 1 as [|l joints Hl _ [indices IH]]; simpl; [by eexists|].
  destruct (lookup_lt_is_Some_2 store l Hl) as [joint ->].
  rewrite IH. by eexists.
Qed.

Lemma buildJointsMap_total store joints :
  Forall (λ l, l < length store) joints →
  ∀ jointsMap, jointsMap_ok jointsMap store →
    ∃ jointsMap', buildJointsMap store joints jointsMap = Ok jointsMap'
                  ∧ jointsMap_ok jointsMap' store.
Proof.
  induction 1 as [|l joints Hl _ IH]; intros jointsMap Hok; simpl;
    [by eexists|].
  destruct (lookup_lt_is_Some_2 store l Hl) as [joint ->].
  apply IH. by apply map_Forall_insert_2.
Qed.

Lemma skeleton_indexed_valid store skeleton :
  skeleton_indexed store skeleton →
  Forall (λ l, l < length store) (sk_joints skeleton).
Proof.
  intros Hidx. apply Forall_lookup. intros i l Hl.
  destruct (Hidx i l Hl) as (j & Hj & _). by eapply lookup_lt_Some.
Qed.

(** On a document that can be processed, [_parseSkins] returns. *)
Lemma parseSkins_total depth json lib :
  NoDup (obj_keys (json_skins json)) →
  document_ok depth json lib →
  collaborators_ok enableSkinningForNode →
  ∃ lib', _parseSkins depth json lib = Ok lib'.
Proof.
  intros Hnd [Hskins Hnodes] Hcollab. unfold Skins._parseSkins.
  destruct (forM_total (λ st, lib_buffers st.1 = lib_buffers lib)
              (createSkeleton json) (json_skins json))
    with (s := (lib, false)) as ([lib1 have] & Hcreate & _); [|done|].
  { intros [l h] [name skinInfo] Hin Hbuffers. simpl in *.
    rewrite Forall_forall in Hskins. specialize (Hskins _ Hin). simpl in Hskins.
    unfold Skins.createSkeleton.
    destruct (createJoints (skin_joints skinInfo) (joint_store l) [])
      as [store joints].
    destruct (skin_inverseBindMatrices skinInfo) as [IBMInfo|].
    - destruct Hskins as [array Harray]. rewrite Hbuffers, Harray. simpl.
      by eexists.
    - simpl. by eexists. }
  rewrite Hcreate. simpl.
  pose proof (createSkeletons_spec _ _ _ _ Hnd Hcreate) as Hbound.
  destruct (forM_total
              (λ st, ∀ name skinInfo, (name, skinInfo) ∈ json_skins json →
                       skin_bound st.1 name skinInfo)
              (bindInstanceSkin depth json) (json_nodes json))
    with (s := (lib1, @nil string)) as ([lib2 instanceSkins] & -> & _);
    [|done|simpl; by eexists].
  intros [l skins] [name nodeInfo] Hin Hinv. simpl in *.
  rewrite Forall_forall in Hnodes. specialize (Hnodes _ Hin). simpl in Hnodes.
  assert (∀ st', bindInstanceSkin depth json (l, skins) (name, nodeInfo)
                   = Ok st' →
                 ∀ name' skinInfo, (name', skinInfo) ∈ json_skins json →
                   skin_bound st'.1 name' skinInfo) as Hkeep.
  { intros [l' skins'] Hstep name' skinInfo Hskin.
    eapply bindInstanceSkin_spec; [done|]. by apply Hinv. }
  enough (∃ st', bindInstanceSkin depth json (l, skins) (name, nodeInfo)
                 = Ok st') as [st' Hstep] by (exists st'; eauto).
  unfold Skins.bindInstanceSkin.
  destruct (n_instanceSkin nodeInfo) as [instanceSkin|]; [|by eexists].
  destruct Hnodes as [[skinInfo Hskin%obj_get_elem_of] Hroots].
  destruct (Hinv _ _ Hskin) as (skeleton & -> & _ & Hidx%skeleton_indexed_valid).
  destruct (jointIndices_total _ _ Hidx) as [indices ->]. simpl.
  destruct (Hcollab (lib_scene l) (lib_nodes l !! name)
              (is_skin instanceSkin) indices) as [scene' ->]. simpl.
  destruct (buildJointsMap_total _ _ Hidx ∅) as (jointsMap & -> & Hok);
    [apply map_Forall_empty|]. simpl.
  destruct (bindRoots_total depth json (lib_nodes l) jointsMap
              (is_skeletons instanceSkin) (joint_store l) (sk_roots skeleton))
    as [[store' roots'] ->]; [done|done|]. simpl. by eexists.
Qed.

(** C1.  For every skin descriptor processed by [_parseSkins], the
    resulting skeleton's joint list has the length of the skin's declared
    [joints] array, and the joint stored at position [i] has [index] equal
    to [i].  On a document that the binder can process it returns, and
    whenever it returns the skeletons are as stated. *)
Theorem parseSkins_joint_index json lib :
  NoDup (obj_keys (json_skins json)) →
  (∀ depth, document_ok depth json lib →
     collaborators_ok enableSkinningForNode →
     ∃ lib', _parseSkins depth json lib = Ok lib')
  ∧ ∀ fuel lib', _parseSkins fuel json lib = Ok lib' →
      ∀ name skinInfo, obj_get (json_skins json) name = Some skinInfo →
        ∃ skeleton,
          lib_skeletons lib' !! name = Some skeleton
          ∧ length (sk_joints skeleton) = length (skin_joints skinInfo)
          ∧ ∀ i l, sk_joints skeleton !! i = Some l →
              ∃ j, joint_store lib' !! l = Some j ∧ j_index j = Z.of_nat i.
Proof.
  intros Hnd. split; [intros; by eapply parseSkins_total|].
  intros fuel lib' Hparse name skinInfo Hskin%obj_get_elem_of.
  unfold Skins._parseSkins in Hparse.
  apply bind_Ok in Hparse as ([lib1 have] & Hcreate & Hparse).
  apply bind_Ok in Hparse as ([lib2 instanceSkins] & Hbind & [= <-]).
  pose proof (createSkeletons_spec _ _ _ _ Hnd Hcreate _ _ Hskin) as Hbound1.
  assert (skin_bound lib2 name skinInfo) as (sk & Hsk & Hlen & Hidx).
  { revert Hbind.
    apply (forM_invariant (λ st, skin_bound st.1 name skinInfo)); [|done].
    intros [l i] entry [l' i'] _ Hb Hstep. simpl in *.
    by eapply bindInstanceSkin_spec. }
  destruct (updateSkeletons_joints have instanceSkins _ _ _ Hsk)
    as (sk' & Hsk' & Hjoints).
  exists sk'. simpl. split; [done|]. rewrite Hjoints. split; [done|].
  exact Hidx.
Qed.

End SkinsProperties.


Lemma parseSkins_joint_index_witness :
  ∃ lib' skeleton,
    Skins._parseSkins Skins.ex_defaults Skins.ex_enableSkinning 3
      Skins.ex_json Skins.ex_lib = Ok lib'
    ∧ Skins.lib_skeletons lib' !! "skin" = Some skeleton
    ∧ length (Skins.sk_joints skeleton) = 2
    ∧ ∀ i l, Skins.sk_joints skeleton !! i = Some l →
        ∃ j, Skins.joint_store lib' !! l = Some j
             ∧ Skins.j_index j = Z.of_nat i.
Proof.
  destruct (parseSkins_joint_index Skins.ex_defaults Skins.ex_enableSkinning
              Skins.ex_json Skins.ex_lib (NoDup_singleton "skin"))
    as [Htotal Hindexed].
  destruct (Htotal 3) as [lib' Hrun].
  - split; repeat constructor; simpl. by eexists.
  - intros scene node skin indices. by exists scene.
  - destruct (Hindexed 3 lib' Hrun "skin"
                (Skins.mkSkinInfo ["jRoot"; "jArm"] None) eq_refl)
      as (skeleton & Hskeleton & Hlength & Hindex).
    exists lib', skeleton. split; [exact Hrun|]. split; [exact Hskeleton|].
    split; [exact Hlength|exact Hindex].
Defined.

(** ** The geometry builder *)
Section MeshesProperties.
Import Meshes.

Lemma copyWeight_length read ctor w i :
  length (copyWeight read ctor w i) = length w.
Proof. unfold copyWeight. by rewrite !length_insert. Qed.

(** The state of [weightArray] after the first [n] iterations. *)
Lemma copyWeights_prefix read ctor (w0 : list (list Byte.byte)) n :
  n * 3 ≤ length w0 →
  let w := foldl (copyWeight read ctor) w0 (seq 0 n) in
  length w = length w0
  ∧ (∀ i k, i < n → k < 3 →
       w !! (i * 3 + k) = Some (storeElem ctor (read (i * 4 + k))))
  ∧ (∀ p, n * 3 ≤ p → w !! p = w0 !! p).
Proof.
  induction n as [|n IH]; intros Hlen; cbv zeta.
  - simpl. split; [done|]. split; [lia|done].
  - rewrite seq_S, foldl_app. simpl.
    destruct IH as (IHlen & IHdone & IHrest); [lia|].
    set (w := foldl (copyWeight read ctor) w0 (seq 0 n)) in *.
    split; [by rewrite copyWeight_length|]. split.
    + intros i k Hi Hk. unfold copyWeight.
      destruct (decide (i = n)) as [->|Hne].
      * assert (k = 0 ∨ k = 1 ∨ k = 2) as [-> | [-> | ->]] by lia.
        -- rewrite !Nat.add_0_r.
           rewrite list_lookup_insert_ne, list_lookup_insert_ne by lia.
           rewrite list_lookup_insert_eq by lia. done.
        -- rewrite list_lookup_insert_ne by lia.
           rewrite list_lookup_insert_eq by (rewrite length_insert; lia). done.
        -- rewrite list_lookup_insert_eq by (rewrite !length_insert; lia). done.
      * rewrite !list_lookup_insert_ne by lia. apply IHdone; lia.
    + intros p Hp. unfold copyWeight.
      rewrite !list_lookup_insert_ne by lia. apply IHrest. lia.
Qed.

Lemma compactWeights_spec read ctor count :
  length (compactWeights read ctor count) = count * 3
  ∧ ∀ i k, i < count → k < 3 →
      compactWeights read ctor count !! (i * 3 + k)
      = Some (storeElem ctor (read (i * 4 + k))).
Proof.
  unfold compactWeights.
  destruct (copyWeights_prefix read ctor
              (replicate (count * 3)
                 (replicate (BYTES_PER_ELEMENT ctor) Byte.x00)) count)
    as (Hlen & Hdone & _); [by rewrite length_replicate|].
  rewrite length_replicate in Hlen. done.
Qed.

(** Inside a view over a loaded buffer every element is there. *)
Lemma readView_loaded buffers ctor bufferName byteOffset len v k :
  is_Some (buffers !! bufferName) →
  newTypedArray ctor buffers bufferName byteOffset len = Ok v →
  k < len →
  ∃ e, readView buffers v k = Some e ∧ length e = BYTES_PER_ELEMENT ctor.
Proof.
  intros [bytes Hbytes]. unfold newTypedArray. rewrite Hbytes.
  case_decide as Hrange; [|done]. intros [= <-] Hk.
  unfold readView. simpl. rewrite decide_True by done. rewrite Hbytes. simpl.
  eexists. split; [done|].
  rewrite length_take, length_drop. destruct Hrange as [_ Hrange]. nia.
Qed.

Context {num Material : Type}.
Variable defaultMaterial : Material.
Variable normalMapEnabled : Material → bool.

Lemma newTypedArray_loaded ctor buffers bufferName byteOffset len v :
  is_Some (buffers !! bufferName) →
  newTypedArray ctor buffers bufferName byteOffset len = Ok v →
  v = mkView ctor (Some bufferName) byteOffset len.
Proof.
  intros [bytes Hbytes]. unfold newTypedArray. rewrite Hbytes.
  case_decide; [|done]. by intros [= <-].
Qed.

(** What one turn of the attribute loop does, by the semantic of the
    attribute. *)
Lemma parseAttribute_cases (json : Json (num := num)) buffers vars geometry
    semantic accessorName vars' geometry' :
  parseAttribute json buffers (vars, geometry) (semantic, accessorName)
    = Ok (vars', geometry') →
  match obj_get semanticAttributeMap semantic with
  | None => vars' = vars ∧ geometry' = geometry
  | Some attributeName =>
      ∃ attributeInfo bufferViewInfo ArrayCtor attributeArray,
        obj_get (json_accessors json) accessorName = Some attributeInfo
        ∧ obj_get (json_bufferViews json) (a_bufferView attributeInfo)
          = Some bufferViewInfo
        ∧ vars' = decodeLayout vars attributeInfo
        ∧ v_ArrayCtor vars' = Some ArrayCtor
        ∧ newTypedArray ArrayCtor buffers (bv_buffer bufferViewInfo)
            (bv_byteOffset bufferViewInfo + a_byteOffset attributeInfo)
            (a_count attributeInfo * default 0 (v_size vars'))
          = Ok attributeArray
        ∧ (is_Some (buffers !! bv_buffer bufferViewInfo) →
           tv_buffer attributeArray = Some (bv_buffer bufferViewInfo))
        ∧ if decide (semantic = "WEIGHT" ∧ v_size vars' = Some 4) then
            ∃ weightArray,
              g_attributes geometry' !! attributeName
              = Some (OwnedValue ArrayCtor weightArray)
              ∧ length weightArray = a_count attributeInfo * 3
              ∧ ∀ i k, i < a_count attributeInfo → k < 3 →
                  weightArray !! (i * 3 + k)
                  = Some (storeElem ArrayCtor
                            (readView buffers attributeArray (i * 4 + k)))
                  ∧ (is_Some (buffers !! bv_buffer bufferViewInfo) →
                     weightArray !! (i * 3 + k)
                     = readView buffers attributeArray (i * 4 + k))
          else
            g_attributes geometry' !! attributeName
            = Some (ViewValue attributeArray)
  end.
Proof.
  unfold parseAttribute.
  destruct (obj_get semanticAttributeMap semantic) as [attributeName|];
    [|by intros [= <- <-]].
  destruct (obj_get (json_accessors json) accessorName) as [attributeInfo|]
    eqn:Haccessor; [|done].
  destruct (obj_get (json_bufferViews json) (a_bufferView attributeInfo))
    as [bufferViewInfo|] eqn:Hview; [|done].
  destruct (v_ArrayCtor (decodeLayout vars attributeInfo)) as [ctor|] eqn:Hctor;
    [|done].
  intros (attributeArray & Hnew & Hrest)%bind_Ok.
  exists attributeInfo, bufferViewInfo, ctor, attributeArray.
  assert (vars' = decodeLayout vars attributeInfo
          ∧ g_attributes geometry'
            = <[attributeName :=
                  if decide (semantic = "WEIGHT"
                             ∧ v_size (decodeLayout vars attributeInfo) = Some 4)
                  then OwnedValue ctor
                         (compactWeights (readView buffers attributeArray) ctor
                            (a_count attributeInfo))
                  else ViewValue attributeArray]> (g_attributes geometry))
    as [-> Hattrs].
  { destruct (decide (semantic = "POSITION")); by injection Hrest as <- <-. }
  do 5 (split; [done|]).
  split; [intros Hloaded;
          by rewrite (newTypedArray_loaded _ _ _ _ _ _ Hloaded Hnew)|].
  rewrite Hattrs, lookup_insert_eq.
  case_decide as Hweight; [|done].
  destruct Hweight as [_ Hsize]. rewrite Hsize in Hnew. simpl in Hnew.
  destruct (compactWeights_spec (readView buffers attributeArray) ctor
              (a_count attributeInfo)) as [Hlen Hcopy].
  eexists. split; [done|]. split; [done|].
  intros i k Hi Hk. split; [by apply Hcopy|].
  intros Hloaded. rewrite Hcopy by done.
  destruct (readView_loaded _ _ _ _ _ _ (i * 4 + k) Hloaded Hnew)
    as (e & -> & _); [lia|done].
Qed.

(** C2, amended.  For every mesh-primitive attribute with semantic WEIGHT
    whose decoded element size is 4, the geometry builder stores a newly
    allocated array of 3 components per vertex whose entries at [3i],
    [3i+1], [3i+2] are the source entries at [4i], [4i+1], [4i+2] (the
    fourth component is dropped).  An attribute with any other semantic of
    the semantic-name map (or a WEIGHT of another element size) is stored
    as the uncopied typed view over the owning buffer; an attribute whose
    semantic is not in the map is not stored at all. *)
Theorem parseAttribute_stores (json : Json (num := num)) buffers vars geometry
    semantic accessorName vars' geometry' :
  parseAttribute json buffers (vars, geometry) (semantic, accessorName)
    = Ok (vars', geometry') →
  match obj_get semanticAttributeMap semantic with
  | None => vars' = vars ∧ geometry' = geometry
  | Some attributeName =>
      ∃ attributeInfo bufferViewInfo ArrayCtor attributeArray,
        obj_get (json_accessors json) accessorName = Some attributeInfo
        ∧ obj_get (json_bufferViews json) (a_bufferView attributeInfo)
          = Some bufferViewInfo
        ∧ vars' = decodeLayout vars attributeInfo
        ∧ v_ArrayCtor vars' = Some ArrayCtor
        ∧ newTypedArray ArrayCtor buffers (bv_buffer bufferViewInfo)
            (bv_byteOffset bufferViewInfo + a_byteOffset attributeInfo)
            (a_count attributeInfo * default 0 (v_size vars'))
          = Ok attributeArray
        ∧ (is_Some (buffers !! bv_buffer bufferViewInfo) →
           tv_buffer attributeArray = Some (bv_buffer bufferViewInfo))
        ∧ if decide (semantic = "WEIGHT" ∧ v_size vars' = Some 4) then
            ∃ weightArray,
              g_attributes geometry' !! attributeName
              = Some (OwnedValue ArrayCtor weightArray)
              ∧ length weightArray = a_count attributeInfo * 3
              ∧ ∀ i k, i < a_count attributeInfo → k < 3 →
                  weightArray !! (i * 3 + k)
                  = Some (storeElem ArrayCtor
                            (readView buffers attributeArray (i * 4 + k)))
                  ∧ (is_Some (buffers !! bv_buffer bufferViewInfo) →
                     weightArray !! (i * 3 + k)
                     = readView buffers attributeArray (i * 4 + k))
          else
            g_attributes geometry' !! attributeName
            = Some (ViewValue attributeArray)
  end.
Proof. apply parseAttribute_cases. Qed.

Local Abbreviation parsePrimitive :=
  (Meshes.parsePrimitive (num := num) defaultMaterial normalMapEnabled).
Local Abbreviation parseMesh :=
  (Meshes.parseMesh (num := num) defaultMaterial normalMapEnabled).
Local Abbreviation _parseMeshes :=
  (Meshes._parseMeshes (num := num) defaultMaterial normalMapEnabled).
Local Abbreviation primitiveMaterial :=
  (Meshes.primitiveMaterial (num := num) defaultMaterial).

Lemma decodeLayout_warnings vars (attributeInfo : AccessorInfo (num := num)) :
  only_type_warnings vars →
  only_type_warnings (decodeLayout vars attributeInfo).
Proof.
  unfold only_type_warnings, decodeLayout. intros Hw.
  destruct (a_componentType attributeInfo); [done|].
  destruct (a_type attributeInfo) as [[[|p]|]|]; simpl;
    try (apply Forall_app; split; [done|by repeat constructor]).
  repeat (destruct p as [p|p|]; simpl;
          try (apply Forall_app; split; [done|by repeat constructor]);
          try done).
Qed.

Lemma parseAttribute_warnings (json : Json (num := num)) buffers vars geometry
    entry vars' geometry' :
  parseAttribute json buffers (vars, geometry) entry = Ok (vars', geometry') →
  only_type_warnings vars → only_type_warnings vars'.
Proof.
  destruct entry as [semantic accessorName]. intros Hrun Hw.
  apply parseAttribute_cases in Hrun.
  destruct (obj_get semanticAttributeMap semantic).
  - destruct Hrun as (attributeInfo & _ & _ & _ & _ & _ & -> & _).
    by apply decodeLayout_warnings.
  - by destruct Hrun as [-> _].
Qed.

Lemma parsePrimitive_spec (json : Json (num := num)) lib meshInfo vars meshes
    pp primitiveInfo vars' meshes' :
  parsePrimitive json lib meshInfo (vars, meshes) (pp, primitiveInfo)
    = Ok (vars', meshes') →
  references_resolve json primitiveInfo
  ∧ (only_type_warnings vars → only_type_warnings vars')
  ∧ ∃ mesh, meshes' = meshes ++ [mesh]
      ∧ mesh_material mesh = primitiveMaterial lib primitiveInfo.
Proof.
  unfold Meshes.parsePrimitive.
  intros ([vars1 geometry] & Hattrs & (indices & Hindices & [= <- <-])%bind_Ok
         )%bind_Ok.
  apply (forM_Ok_each (λ st, only_type_warnings vars → only_type_warnings st.1))
    in Hattrs as [Hwarn Heach]; [| |done].
  2:{ intros [v g] entry [v' g'] Hv Hstep Hw. simpl in *.
      eapply parseAttribute_warnings; [done|]. by apply Hv. }
  split; [split|].
  - unfold parseIndices in Hindices.
    destruct (obj_get (json_accessors json) (p_indices primitiveInfo))
      as [indicesInfo|]; [|done].
    exists indicesInfo. split; [done|].
    by destruct (obj_get (json_bufferViews json) (a_bufferView indicesInfo)).
  - intros semantic accessorName Hin [attributeName Hmapped].
    rewrite Forall_forall in Heach.
    destruct (Heach _ Hin) as ([v g] & [v' g'] & _ & Hstep).
    apply parseAttribute_cases in Hstep. rewrite Hmapped in Hstep.
    destruct Hstep as (attributeInfo & bufferViewInfo & _ & _ & Ha & Hb & _).
    exists attributeInfo. split; [done|]. by exists bufferViewInfo.
  - split; [done|]. eexists. split; [done|]. done.
Qed.

Lemma parseMesh_spec (json : Json (num := num)) vars lib name meshInfo vars'
    lib' :
  parseMesh json (vars, lib) (name, meshInfo) = Ok (vars', lib') →
  Forall (references_resolve json) (m_primitives meshInfo)
  ∧ (only_type_warnings vars → only_type_warnings vars')
  ∧ lib_materials lib' = lib_materials lib
  ∧ (∀ name', name' ≠ name → lib_meshes lib' !! name' = lib_meshes lib !! name')
  ∧ ∃ meshes,
      lib_meshes lib' !! name = Some meshes
      ∧ length meshes = length (m_primitives meshInfo)
      ∧ ∀ pp primitiveInfo mesh,
          m_primitives meshInfo !! pp = Some primitiveInfo →
          meshes !! pp = Some mesh →
          mesh_material mesh = primitiveMaterial lib primitiveInfo.
Proof.
  unfold Meshes.parseMesh.
  intros ([vars1 meshes] & Hloop & [= <- <-])%bind_Ok. simpl.
  pose proof Hloop as Hpos.
  apply (forM_Ok_each (λ st, only_type_warnings vars → only_type_warnings st.1))
    in Hloop as [Hwarn Heach]; [| |done].
  2:{ intros [v ms] [pp primitiveInfo] [v' ms'] Hv Hstep Hw. simpl in *.
      apply parsePrimitive_spec in Hstep as (_ & Hw' & _). auto. }
  split.
  { apply Forall_forall. intros primitiveInfo Hin.
    apply list_elem_of_lookup in Hin as [pp Hpp].
    rewrite Forall_forall in Heach.
    destruct (Heach (pp, primitiveInfo)) as ([v ms] & [v' ms'] & _ & Hstep).
    - apply list_elem_of_lookup. exists pp. by rewrite list_lookup_imap, Hpp.
    - by apply parsePrimitive_spec in Hstep as [? _]. }
  split; [done|]. split; [done|].
  split; [intros name' Hne; by rewrite lookup_insert_ne|].
  exists meshes. rewrite lookup_insert_eq. split; [done|].
  apply (forM_prefix_invariant
           (λ pre st, length st.2 = length pre
              ∧ ∀ i entry mesh, pre !! i = Some entry → st.2 !! i = Some mesh →
                  mesh_material mesh = primitiveMaterial lib entry.2))
    in Hpos.
  - simpl in Hpos. destruct Hpos as [Hlen Hmat].
    rewrite length_imap in Hlen. split; [done|].
    intros pp primitiveInfo mesh Hpp Hmesh.
    apply (Hmat pp (pp, primitiveInfo) mesh); [|done].
    by rewrite list_lookup_imap, Hpp.
  - split; [done|]. intros i entry mesh Hnil. by rewrite lookup_nil in Hnil.
  - intros pre [pp primitiveInfo] post [v ms] [v' ms'] _ [Hlen Hmat] Hstep.
    apply parsePrimitive_spec in Hstep as (_ & _ & mesh & -> & Hmesh).
    simpl in *. split; [rewrite !length_app; simpl; lia|].
    intros i entry mesh' Hentry Hlook.
    apply lookup_app_Some in Hentry as [Hentry|[Hge Hentry]].
    + apply (Hmat i entry mesh'); [done|].
      rewrite lookup_app_l in Hlook; [done|].
      rewrite Hlen. by eapply lookup_lt_Some.
    + apply list_lookup_singleton_Some in Hentry as [Hi <-].
      rewrite lookup_app_r in Hlook by lia.
      apply list_lookup_singleton_Some in Hlook as [_ <-]. done.
Qed.


End MeshesProperties.

Lemma parseAttribute_stores_witness :
  ∃ vars' geometry' weightArray,
    Meshes.parseAttribute Meshes.ex_json Meshes.ex_buffers
      (Meshes.ex_vars, Meshes.ex_geometry) ("WEIGHT", "acc_w")
    = Ok (vars', geometry')
    ∧ Meshes.g_attributes geometry' !! "weight"
      = Some (Meshes.OwnedValue Float32Array weightArray)
    ∧ length weightArray = 6
    ∧ weightArray !! 3 = Some [Byte.x10; Byte.x11; Byte.x12; Byte.x13].
Proof.
  destruct (Meshes.parseAttribute Meshes.ex_json Meshes.ex_buffers
              (Meshes.ex_vars, Meshes.ex_geometry) ("WEIGHT", "acc_w"))
    as [[vars' geometry']|e] eqn:Hrun; [|vm_compute in Hrun; discriminate Hrun].
  pose proof (parseAttribute_stores Meshes.ex_json Meshes.ex_buffers
                Meshes.ex_vars Meshes.ex_geometry "WEIGHT" "acc_w" vars'
                geometry' Hrun) as Hspec.
  simpl in Hspec.
  destruct Hspec as (attributeInfo & bufferViewInfo & ctor & attributeArray
                     & [= <-] & [= <-] & -> & [= <-] & Hnew & _ & Hweight).
  simpl in Hnew, Hweight. injection Hnew as <-.
  destruct Hweight as (weightArray & Hslot & Hlen & Hcopy).
  eexists. exists geometry', weightArray. split; [reflexivity|].
  split; [exact Hslot|]. split; [exact Hlen|].
  destruct (Hcopy 1 0) as [_ Hread]; [lia|lia|].
  etrans; [apply Hread; by eexists|]. vm_compute. reflexivity.
Defined.

(** C2 as stated fails for an attribute whose semantic is not in the
    semantic-name map: the loop skips it and no slot of the geometry holds
    a view for it. *)
Lemma parseAttribute_unmapped_semantic_not_stored :
  ∃ vars' geometry',
    Meshes.parseAttribute Meshes.ex_json Meshes.ex_buffers
      (Meshes.ex_vars, Meshes.ex_geometry) ("TANGENT", "acc_w")
    = Ok (vars', geometry')
    ∧ ∀ attributeName,
        Meshes.g_attributes geometry' !! attributeName = None.
Proof.
  exists Meshes.ex_vars, Meshes.ex_geometry. split; [reflexivity|].
  intros attributeName. apply lookup_empty.
Qed.



(** ** The scene-graph builder *)
Section NodesProperties.
Import Nodes.

Context {num : Type}.
Variable decomposeMatrix : list num → list num * list num * list num.

Local Abbreviation SceneObject := (Nodes.SceneObject (num := num)).
Local Abbreviation parseNode := (Nodes.parseNode decomposeMatrix).
Local Abbreviation applyTransform := (Nodes.applyTransform decomposeMatrix).
Local Abbreviation setTransform := (Nodes.setTransform decomposeMatrix).

Lemma same_transforms_trans (s1 s2 s3 : list SceneObject) :
  same_transforms s1 s2 → same_transforms s2 s3 → same_transforms s1 s3.
Proof. intros H12 H23 l. by rewrite H23, H12. Qed.

Lemma alter_same_transforms (f : SceneObject → SceneObject) l store :
  (∀ o, transform (f o) = transform o) →
  same_transforms store (alter f l store).
Proof.
  intros Hf k. destruct (decide (l = k)) as [<-|Hne].
  - rewrite list_lookup_alter_eq. destruct (store !! l); simpl; [|done].
    by rewrite Hf.
  - by rewrite list_lookup_alter_ne.
Qed.

Lemma Node_add_same_transforms parent child (store : list SceneObject) :
  same_transforms store (Node_add parent child store).
Proof.
  unfold Node_add. destruct (store !! child) as [c|]; [|done].
  case_decide; [done|].
  eapply same_transforms_trans; [|by apply alter_same_transforms].
  eapply same_transforms_trans; [|by apply alter_same_transforms].
  destruct (o_parent c); [by apply alter_same_transforms|done].
Qed.

Lemma identity_at_same (s1 s2 : list SceneObject) l :
  same_transforms s1 s2 → identity_at s1 l → identity_at s2 l.
Proof.
  intros Hsame (o & Ho & Hid). specialize (Hsame l). rewrite Ho in Hsame.
  destruct (s2 !! l) as [o'|] eqn:Ho'; [|done].
  exists o'. split; [done|]. simpl in Hsame. congruence.
Qed.

Lemma identity_at_new (store : list SceneObject) variant name :
  identity_at (store ++ [newObject variant name]) (length store).
Proof. eexists. split; [by apply list_lookup_middle|done]. Qed.

Lemma identity_at_app (store : list SceneObject) o l :
  identity_at store l → identity_at (store ++ [o]) l.
Proof.
  intros (o' & Ho' & Hid). exists o'. split; [|done].
  by apply lookup_app_l_Some.
Qed.

Lemma foldl_same_transforms {A : Type}
    (f : list SceneObject → A → list SceneObject) xs :
  (∀ s x, same_transforms s (f s x)) →
  ∀ store, same_transforms store (foldl f store xs).
Proof.
  intros Hf. induction xs as [|x xs IH]; intros store; simpl; [done|].
  eapply same_transforms_trans; [apply Hf|apply IH].
Qed.

(** The lights of a node are new entities. *)
Lemma parseNodeLights_identity json lightNames (store : list SceneObject)
    warnings store' lights warnings' :
  forM (parseNodeLight json) lightNames (store, [], warnings)
    = Ok (store', lights, warnings') →
  Forall (identity_at store') lights.
Proof.
  apply (forM_invariant (λ st, Forall (identity_at st.1.1) st.1.2));
    [|by constructor].
  intros [[s ls] ws] lightName [[s' ls'] ws'] _ Hinv. simpl in *.
  unfold parseNodeLight.
  destruct (obj_get (json_lights json) lightName) as [lightInfo|]; [|done].
  intros ([light warned] & Hlight & Hpush)%bind_Ok.
  destruct light as [light|]; injection Hpush as <- <- <-; [|done].
  apply Forall_app. split.
  - eapply Forall_impl; [exact Hinv|]. intros l. apply identity_at_app.
  - constructor; [|constructor].
    unfold _parseLight in Hlight.
    assert (∀ (params : option (LightParams (num := num))) ctor,
              match params with
              | Some p =>
                  Ok (Some (newObject (ctor (lp_color p)) (li_id lightInfo)),
                      [] : list string)
              | None => Err TypeError
              end = Ok (Some light, warned) →
              identity_at (s ++ [light]) (length s)) as Hnew.
    { intros [p|] ctor; [|done]. intros [= <- <-]. apply identity_at_new. }
    repeat case_decide; try done; by eapply Hnew.
Qed.

(** A branch that builds an entity leaves [node] at an entity with the
    identity transform. *)
Lemma selectVariant_builds options (json : Json (num := num)) st nodeInfo st1 :
  selectVariant options json st nodeInfo = Ok st1 →
  builds_entity options st nodeInfo = true →
  ∃ l, s_node st1 = Some l ∧ identity_at (s_store st1) l.
Proof.
  unfold selectVariant, builds_entity.
  destruct (branch options nodeInfo) as [camera|lightNames|meshKey|].
  - destruct (obj_get (json_cameras json) camera) as [cameraInfo|]; [|done].
    case_decide; intros [= <-] _; simpl; eexists; (split; [done|]);
      apply identity_at_new.
  - intros ([[store lights] warnings] & Hloop & Hnode)%bind_Ok _.
    apply parseNodeLights_identity in Hloop.
    assert (identity_at
              (foldl (λ s light, Node_add (length store) light s)
                 (store ++ [newObject Node (n_name nodeInfo)]) lights)
              (length store)) as Hcontainer.
    { eapply identity_at_same; [|apply identity_at_new].
      apply foldl_same_transforms. intros s x.
      apply Node_add_same_transforms. }
    destruct lights as [|light [|light' lights]];
      injection Hnode as <-; simpl; eexists; (split; [done|]); try done.
    apply Forall_cons_1 in Hloop as [Hlight _].
    eapply identity_at_same; [|exact Hlight]. by apply alter_same_transforms.
  - assert (∀ primitives,
              identity_at
                (foldl (λ s primitive,
                          Node_add (length (s_store st)) primitive
                            match n_instanceSkin nodeInfo with
                            | Some instanceSkin =>
                                alter (setSkeleton (is_skin instanceSkin))
                                  primitive s
                            | None => s
                            end)
                   (s_store st ++ [newObject Node (n_name nodeInfo)])
                   primitives)
                (length (s_store st))) as Hcontainer.
    { intros primitives. eapply identity_at_same; [|apply identity_at_new].
      apply foldl_same_transforms. intros s x.
      eapply same_transforms_trans; [|apply Node_add_same_transforms].
      destruct (n_instanceSkin nodeInfo);
        [by apply alter_same_transforms|done]. }
    destruct (truthy meshKey ≫= (lib_meshes st !!.))
      as [[|primitive [|primitive' primitives]]|]; try done.
    all: intros [= <-] _; eexists; (split; [done|]).
    + apply (Hcontainer []).
    + apply (Hcontainer (primitive :: primitive' :: primitives)).
  - intros [= <-] _. simpl. eexists. split; [done|]. apply identity_at_new.
Qed.

(** C3, amended.  For every node descriptor carrying a matrix field, the
    scene-graph builder sets the node's transform from the matrix
    decomposed into translation, rotation and scale, and co-present
    translation, rotation and scale fields have no effect on the result.
    For every node descriptor without a matrix field, each of translation,
    rotation and scale is applied independently when present; when absent,
    the field of the node's entity is left as it was, which is the identity
    whenever the entity was built for this descriptor (a camera, a light, a
    generic or container node). *)
Theorem parseNode_transform options (json : Json (num := num)) st name
    nodeInfo st' :
  parseNode options json st (name, nodeInfo) = Ok st' →
  ∃ st1,
    selectVariant options json st nodeInfo = Ok st1
    ∧ lib_nodes st' !! name = s_node st1
    ∧ (is_Some (n_matrix nodeInfo) → ∀ t r s,
         parseNode options json st (name, with_TRS nodeInfo t r s) = Ok st')
    ∧ ∀ l o, s_node st1 = Some l → s_store st1 !! l = Some o →
        ∃ o', s_store st' !! l = Some o'
          ∧ transform o'
            = match n_matrix nodeInfo with
              | Some matrix =>
                  let '(position, rotation, scale) := decomposeMatrix matrix in
                  (FromArray matrix, FromArray position, FromArray rotation,
                   FromArray scale)
              | None =>
                  (o_localTransform o,
                   from_option FromArray (o_position o)
                     (n_translation nodeInfo),
                   from_option FromArray (o_rotation o) (n_rotation nodeInfo),
                   from_option FromArray (o_scale o) (n_scale nodeInfo))
              end
          ∧ (builds_entity options st nodeInfo = true →
             transform o = (Identity, Identity, Identity, Identity)).
Proof.
  intros Hrun. pose proof Hrun as Hrun'. unfold Nodes.parseNode in Hrun.
  apply bind_Ok in Hrun as (st1 & Hselect & Hrun).
  apply bind_Ok in Hrun as (st2 & Happly & [= <-]).
  exists st1. split; [done|].
  assert (s_node st2 = s_node st1) as Hnode.
  { unfold Nodes.applyTransform in Happly. destruct (s_node st1) eqn:Hn.
    - by injection Happly as <-.
    - repeat case_match; by simplify_eq. }
  split.
  { simpl. rewrite Hnode. destruct (s_node st1).
    - apply lookup_insert_eq.
    - apply lookup_delete_eq. }
  split.
  { intros [matrix Hmatrix] t r s. rewrite <- Hrun'.
    unfold Nodes.parseNode.
    change (selectVariant options json st (with_TRS nodeInfo t r s))
      with (selectVariant options json st nodeInfo).
    destruct (selectVariant options json st nodeInfo) as [st0|]; [|done].
    simpl. f_equal.
    unfold Nodes.applyTransform, Nodes.setTransform. simpl.
    rewrite Hmatrix. done. }
  intros l o Hl Ho. unfold Nodes.applyTransform in Happly.
  rewrite Hl in Happly. injection Happly as <-. simpl.
  rewrite list_lookup_alter_eq, Ho. simpl. eexists. split; [done|].
  split.
  - unfold Nodes.setTransform. destruct (n_matrix nodeInfo) as [matrix|];
      [|done].
    by destruct (decomposeMatrix matrix) as [[position rotation] scale].
  - intros Hbuilds.
    destruct (selectVariant_builds _ _ _ _ _ Hselect Hbuilds)
      as (l' & Hl' & o0 & Ho0 & Hid).
    by simplify_eq.
Qed.

Lemma setTransform_variant nodeInfo o :
  o_variant (setTransform nodeInfo o) = o_variant o.
Proof.
  unfold Nodes.setTransform. destruct (n_matrix nodeInfo) as [matrix|]; [|done].
  by destruct (decomposeMatrix matrix) as [[position rotation] scale].
Qed.

Lemma setTransform_name nodeInfo o :
  o_name (setTransform nodeInfo o) = o_name o.
Proof.
  unfold Nodes.setTransform. destruct (n_matrix nodeInfo) as [matrix|]; [|done].
  by destruct (decomposeMatrix matrix) as [[position rotation] scale].
Qed.

(** C7, amended.  For every node descriptor referencing a camera whose
    projection kind is not ['perspective'], the scene-graph builder emits a
    warning and makes the node an orthographic camera with default
    parameters, registered in the camera table: it is no generic transform
    node. *)
Theorem parseNode_unsupported_camera options (json : Json (num := num)) st
    name nodeInfo camera cameraInfo :
  includeCamera options = true →
  truthy (n_camera nodeInfo) = Some camera →
  obj_get (json_cameras json) camera = Some cameraInfo →
  c_projection cameraInfo ≠ Some "perspective" →
  ∃ st' o,
    parseNode options json st (name, nodeInfo) = Ok st'
    ∧ lib_nodes st' !! name = Some (length (s_store st))
    ∧ lib_cameras st' !! propertyKey (n_name nodeInfo)
      = Some (length (s_store st))
    ∧ s_store st' !! length (s_store st) = Some o
    ∧ o_variant o = OrthographicCamera
    ∧ o_name o = n_name nodeInfo
    ∧ s_warnings st' = s_warnings st ++ ["TODO:Orthographic camera"].
Proof.
  intros Hinclude Hcamera Hinfo Hprojection.
  unfold Nodes.parseNode, selectVariant, branch.
  rewrite Hcamera, Hinclude, Hinfo. rewrite decide_False by done. simpl.
  eexists _, (setTransform nodeInfo
                (setName (n_name nodeInfo) (newObject OrthographicCamera None))).
  split; [done|]. simpl.
  split; [apply lookup_insert_eq|]. split; [apply lookup_insert_eq|].
  split; [by rewrite list_lookup_alter_eq, list_lookup_middle|].
  by rewrite setTransform_variant, setTransform_name.
Qed.

End NodesProperties.

Lemma parseNode_transform_witness :
  ∃ st' o',
    Nodes.parseNode Nodes.ex_decompose Nodes.ex_options Nodes.ex_cameras
      Nodes.ex_state ("eye", Nodes.ex_camera_node) = Ok st'
    ∧ Nodes.lib_nodes st' !! "eye" = Some 1
    ∧ Nodes.s_store st' !! 1 = Some o'
    ∧ Nodes.o_position o' = Nodes.FromArray [5; 6; 7]%Z
    ∧ Nodes.o_scale o' = Nodes.FromArray [1; 1; 1]%Z.
Proof.
  destruct (Nodes.parseNode Nodes.ex_decompose Nodes.ex_options
              Nodes.ex_cameras Nodes.ex_state ("eye", Nodes.ex_camera_node))
    as [st'|e] eqn:Hrun; [|vm_compute in Hrun; discriminate Hrun].
  destruct (parseNode_transform Nodes.ex_decompose Nodes.ex_options
              Nodes.ex_cameras Nodes.ex_state "eye" Nodes.ex_camera_node st'
              Hrun) as (st1 & Hselect & Hnodes & _ & Htransform).
  vm_compute in Hselect. injection Hselect as <-.
  destruct (Htransform 1 _ eq_refl eq_refl) as (o' & Ho' & Ht & _).
  exists st', o'. split; [reflexivity|]. split; [exact Hnodes|].
  split; [exact Ho'|].
  unfold Nodes.transform in Ht. simpl in Ht. by injection Ht as _ -> _ ->.
Defined.

(** C3 as stated fails for a mesh shared by two nodes: the second
    descriptor has neither matrix nor translation, and its node carries the
    translation of the first. *)
Lemma parseNodes_shared_mesh_keeps_translation :
  ∃ st' l o,
    Nodes._parseNodes Nodes.ex_decompose Nodes.ex_options
      Nodes.ex_shared Nodes.ex_state = Ok st'
    ∧ Nodes.lib_nodes st' !! "n2" = Some l
    ∧ Nodes.s_store st' !! l = Some o
    ∧ Nodes.o_position o = Nodes.FromArray [1; 2; 3]%Z
    ∧ Nodes.o_position o ≠ Nodes.Identity.
Proof.
  eexists _, 0, _. split; [vm_compute; reflexivity|].
  split; [vm_compute; reflexivity|]. split; [reflexivity|].
  split; [reflexivity|]. discriminate.
Qed.

Lemma parseNode_unsupported_camera_witness :
  ∃ st' o,
    Nodes.parseNode Nodes.ex_decompose Nodes.ex_options Nodes.ex_cameras
      Nodes.ex_state ("eye", Nodes.ex_camera_node) = Ok st'
    ∧ Nodes.s_store st' !! 1 = Some o
    ∧ Nodes.o_variant o = Nodes.OrthographicCamera
    ∧ Nodes.s_warnings st' = ["TODO:Orthographic camera"].
Proof.
  destruct (parseNode_unsupported_camera Nodes.ex_decompose Nodes.ex_options
              Nodes.ex_cameras Nodes.ex_state "eye" Nodes.ex_camera_node "cam"
              (Nodes.mkCamera (Some "fisheye") None None None None))
    as (st' & o & Hrun & _ & _ & Ho & Hvariant & _ & Hwarn);
    [reflexivity|reflexivity|reflexivity|discriminate|].
  exists st', o. split; [exact Hrun|]. split; [exact Ho|].
  split; [exact Hvariant|exact Hwarn].
Defined.

(** C7 as stated fails: the node of a camera with an unsupported
    projection is an orthographic camera, not a generic transform node. *)
Lemma parseNode_unsupported_camera_not_generic :
  ∃ st' l o,
    Nodes.parseNode Nodes.ex_decompose Nodes.ex_options Nodes.ex_cameras
      Nodes.ex_state ("eye", Nodes.ex_camera_node) = Ok st'
    ∧ Nodes.lib_nodes st' !! "eye" = Some l
    ∧ Nodes.s_store st' !! l = Some o
    ∧ Nodes.o_variant o ≠ Nodes.Node.
Proof.
  eexists _, 1, _. split; [vm_compute; reflexivity|].
  split; [vm_compute; reflexivity|]. split; [reflexivity|]. discriminate.
Qed.

(** ** The animation parser *)
Section AnimationsProperties.
Import Animations.

Context {num : Type}.
Variable nan : num.
Variable mul1000 : num → num.
Variable setAxisAngle : num → num → num → num → num * num * num * num.

Local Abbreviation convertSample :=
  (Animations.convertSample nan mul1000 setAxisAngle).
Local Abbreviation sampleQuaternion :=
  (Animations.sampleQuaternion nan setAxisAngle).
Local Abbreviation convertRotations :=
  (Animations.convertRotations nan mul1000 setAxisAngle).
Local Abbreviation parseAnimation :=
  (Animations.parseAnimation nan mul1000 setAxisAngle).

Implicit Types (buffers : gmap string (list num)) (v w : View).

Lemma readView_write_eq buffers v k x :
  view_ok buffers v → k < f_length v →
  readView (writeView buffers v k x) v k = Some x.
Proof.
  intros (b & cells & Hb & Hcells & Hlen) Hk. unfold readView, writeView.
  rewrite !decide_True by done. rewrite Hb. simpl.
  rewrite lookup_alter_eq, Hcells. simpl.
  apply list_lookup_insert_eq. lia.
Qed.

Lemma readView_write_ne buffers v k x w j :
  f_buffer v ≠ f_buffer w ∨ f_offset v + k ≠ f_offset w + j →
  readView (writeView buffers v k x) w j = readView buffers w j.
Proof.
  intros Hne. unfold readView, writeView.
  case_decide; [|done]. case_decide; [|done].
  destruct (f_buffer v) as [b|]; [|done].
  destruct (f_buffer w) as [b'|]; [|done]. simpl.
  destruct (decide (b = b')) as [<-|Hbb].
  - rewrite lookup_alter_eq. destruct (buffers !! b); [|done]. simpl.
    apply list_lookup_insert_ne. destruct Hne; [done|lia].
  - by rewrite lookup_alter_ne.
Qed.

Lemma view_ok_write buffers v k x w :
  view_ok buffers w → view_ok (writeView buffers v k x) w.
Proof.
  intros (b & cells & Hb & Hcells & Hlen). unfold writeView.
  case_decide; [|by exists b, cells].
  destruct (f_buffer v) as [b'|]; [|by exists b, cells].
  destruct (decide (b' = b)) as [->|Hbb].
  - exists b, (<[f_offset v + k := x]> cells).
    rewrite lookup_alter_eq, Hcells, length_insert. done.
  - exists b, cells. by rewrite lookup_alter_ne.
Qed.

Lemma separate_cells v w k j :
  separate v w → k < f_length v → j < f_length w →
  f_buffer v ≠ f_buffer w ∨ f_offset v + k ≠ f_offset w + j.
Proof. intros [?|[?|?]] ? ?; [by left|right; lia|right; lia]. Qed.

Lemma readView_ok buffers v k :
  view_ok buffers v → k < f_length v → is_Some (readView buffers v k).
Proof.
  intros (b & cells & Hb & Hcells & Hlen) Hk. unfold readView.
  rewrite decide_True by done. rewrite Hb. simpl. rewrite Hcells. simpl.
  apply lookup_lt_is_Some_2. lia.
Qed.

(** One turn of the loop: the time sample [i] is scaled, the rotation
    sample [i] converted, every other sample is as before. *)
Lemma convertSample_spec buffers TIME rotationArr i :
  view_ok buffers TIME → view_ok buffers rotationArr →
  separate TIME rotationArr →
  f_length rotationArr = f_length TIME * 4 →
  i < f_length TIME →
  let buffers' := convertSample TIME rotationArr buffers i in
  view_ok buffers' TIME ∧ view_ok buffers' rotationArr
  ∧ (∀ j, j < f_length TIME →
       readView buffers' TIME j
       = if decide (j = i)
         then Some (mul1000 (default nan (readView buffers TIME i)))
         else readView buffers TIME j)
  ∧ (∀ j k, j < f_length TIME → k < 4 →
       readView buffers' rotationArr (j * 4 + k)
       = if decide (j = i)
         then Some (component (sampleQuaternion buffers rotationArr i) k)
         else readView buffers rotationArr (j * 4 + k)).
Proof.
  intros HokT HokR Hsep Hlen Hi. unfold Animations.convertSample.
  set (b1 := writeView buffers TIME i _).
  assert (∀ k, k < 4 →
            readView b1 rotationArr (i * 4 + k)
            = readView buffers rotationArr (i * 4 + k)) as Hread.
  { intros k Hk. apply readView_write_ne, separate_cells; [done|done|lia]. }
  pose proof (Hread 0) as Hread0. rewrite Nat.add_0_r in Hread0.
  rewrite !Hread0, !Hread by lia.
  change (setAxisAngle _ _ _ _) with (sampleQuaternion buffers rotationArr i).
  destruct (sampleQuaternion buffers rotationArr i) as [[[q0 q1] q2] q3] eqn:Hq.
  cbv zeta.
  assert (view_ok b1 TIME ∧ view_ok b1 rotationArr) as [HokT1 HokR1]
    by (split; by apply view_ok_write).
  split; [by repeat apply view_ok_write|].
  split; [by repeat apply view_ok_write|]. split.
  - intros j Hj.
    rewrite !readView_write_ne
      by (apply separate_cells; [|lia|done];
          destruct Hsep as [?|[?|?]]; [by left|right; by right|right; by left]).
    subst b1. case_decide as Hji.
    + subst j. by apply readView_write_eq.
    + apply readView_write_ne. right. lia.
  - intros j k Hj Hk. case_decide as Hji.
    + subst j. assert (k = 0 ∨ k = 1 ∨ k = 2 ∨ k = 3) as Hcases by lia.
      destruct Hcases as [-> | [-> | [-> | ->]]]; simpl.
      * rewrite Nat.add_0_r.
        rewrite !readView_write_ne by (right; lia).
        apply readView_write_eq; [done|lia].
      * rewrite !readView_write_ne by (right; lia).
        apply readView_write_eq; [by apply view_ok_write|lia].
      * rewrite !readView_write_ne by (right; lia).
        apply readView_write_eq; [by repeat apply view_ok_write|lia].
      * apply readView_write_eq; [by repeat apply view_ok_write|lia].
    + rewrite !readView_write_ne by (right; lia).
      subst b1. apply readView_write_ne, separate_cells; [done|done|lia].
Qed.

(** The state of the buffers after the first [n] turns of the loop. *)
Lemma convertSamples_prefix buffers TIME rotationArr n :
  view_ok buffers TIME → view_ok buffers rotationArr →
  separate TIME rotationArr →
  f_length rotationArr = f_length TIME * 4 →
  n ≤ f_length TIME →
  let buffers' := foldl (convertSample TIME rotationArr) buffers (seq 0 n) in
  view_ok buffers' TIME ∧ view_ok buffers' rotationArr
  ∧ (∀ j, j < f_length TIME →
       readView buffers' TIME j
       = if decide (j < n)
         then Some (mul1000 (default nan (readView buffers TIME j)))
         else readView buffers TIME j)
  ∧ (∀ j k, j < f_length TIME → k < 4 →
       readView buffers' rotationArr (j * 4 + k)
       = if decide (j < n)
         then Some (component (sampleQuaternion buffers rotationArr j) k)
         else readView buffers rotationArr (j * 4 + k)).
Proof.
  intros HokT HokR Hsep Hlen. induction n as [|n IH]; intros Hn; cbv zeta.
  - cbn [seq foldl]. split; [done|]. split; [done|].
    split; intros; by rewrite decide_False by lia.
  - rewrite seq_S, foldl_app. simpl.
    destruct IH as (HokT' & HokR' & Htime & Hrot); [lia|].
    set (b := foldl (convertSample TIME rotationArr) buffers (seq 0 n)) in *.
    destruct (convertSample_spec b TIME rotationArr n)
      as (HokT'' & HokR'' & Htime' & Hrot'); [done|done|done|done|lia|].
    split; [done|]. split; [done|]. split.
    + intros j Hj. rewrite Htime' by done. rewrite !Htime by lia.
      repeat case_decide; subst; try lia; done.
    + intros j k Hj Hk. rewrite Hrot' by done.
      case_decide as Hjn.
      * subst j. rewrite decide_True by lia. do 2 f_equal.
        unfold Animations.sampleQuaternion.
        pose proof (Hrot n 0) as Hrot0. rewrite Nat.add_0_r in Hrot0.
        rewrite Hrot0, !Hrot by lia. by rewrite !decide_False by lia.
      * rewrite Hrot by done. repeat case_decide; subst; try lia; done.
Qed.



End AnimationsProperties.

(** The two statements above are per track, on the buffers as the track
    finds them.  Tracks that share their TIME accessor share its cells, and
    each of them scales the cells: the times of the second clip are scaled
    twice, and the life of the first clip is the last time as it was when
    the clip was built. *)
Lemma parseAnimations_shared_TIME :
  ∃ st arm leg,
    Animations._parseAnimations 0%Z Animations.ex_mul1000
      Animations.ex_setAxisAngle Animations.ex_shared_json
      Animations.ex_shared_nodes Animations.ex_shared_buffers = Ok st
    ∧ Animations.lib_clips st !! "arm" = Some arm
    ∧ Animations.lib_clips st !! "leg" = Some leg
    ∧ Animations.clip_time arm = Animations.clip_time leg
    ∧ Animations.clip_life arm = Some 2000%Z
    ∧ Animations.clip_life leg = Some 2000000%Z
    ∧ Animations.lastSample (Animations.lib_buffers st)
        (Animations.clip_time arm) = Some 2000000%Z.
Proof.
  eexists _, _, _. split; [vm_compute; reflexivity|].
  split; [vm_compute; reflexivity|]. split; [vm_compute; reflexivity|].
  repeat split; vm_compute; reflexivity.
Qed.



(** ** The material resolver *)
Section MaterialsProperties.
Import Materials.

Context {num : Type}.
Variable num_truthy : num → bool.
Variable Math_log : num → num.
Variable div : num → num → num.
Variable sub : num → num → num.
Variable one half n8192 : num.
Variable toNumber : UValue (num := num) → num.

Local Abbreviation parseMaterial :=
  (Materials.parseMaterial num_truthy Math_log div sub one half n8192 toNumber).
Local Abbreviation _parseMaterials :=
  (Materials._parseMaterials num_truthy Math_log div sub one half n8192
     toNumber).
Local Abbreviation setShininess :=
  (Materials.setShininess Math_log div sub one half n8192 toNumber).
Local Abbreviation Number := (Materials.Number toNumber).

Lemma lookup_setIf_ne symbol value
    (values : gmap string (UValue (num := num))) symbol' :
  symbol ≠ symbol' → setIf symbol value values !! symbol' = values !! symbol'.
Proof.
  intros Hne. unfold setIf. destruct value; [|done]. by rewrite lookup_insert_ne.
Qed.

(** C6.  For every material whose resolved uniforms contain a shininess
    value, the material resolver stores glossiness =
    log(shininess)/log(8192), roughness = 1 − glossiness, and the raw
    shininess; for every material whose uniforms lack shininess, it stores
    glossiness = 0.5 and shininess = 0.5. *)
Theorem parseMaterial_shininess options techniques textures materialInfo :
  processable techniques textures materialInfo →
  ∃ materialInfo' material uniforms,
    parseMaterial options techniques textures materialInfo
    = Ok (materialInfo', material)
    ∧ m_values materialInfo' = Some uniforms
    ∧ match notNull (obj_get uniforms "shininess") with
      | Some shininess =>
          let glossiness :=
            div (Math_log (Number shininess)) (Math_log n8192) in
          mat_values material !! "glossiness" = Some (UNum glossiness)
          ∧ mat_values material !! "roughness"
            = Some (UNum (sub one glossiness))
          ∧ mat_values material !! "shininess" = Some shininess
      | None =>
          mat_values material !! "glossiness" = Some (UNum half)
          ∧ mat_values material !! "shininess" = Some (UNum half)
      end.
Proof.
  intros ([states Hstates] & uniforms & Hvalues & Hemission & Hspecular).
  unfold Materials.parseMaterial. rewrite Hvalues.
  replace (m_technique
             (resolveUniforms textures (mergeInstanceTechnique materialInfo)))
    with (m_technique (mergeInstanceTechnique materialInfo)) in Hstates by done.
  rewrite Hstates.
  assert (∀ v : option (UValue (num := num)),
            (∀ w, notNull v = Some w → ∃ a, w = UArr a) →
            ∃ r : option (UValue (num := num)),
              match notNull v with
              | Some w => Some <$> slice3 w
              | None => Ok None
              end = Ok r) as Hslice.
  { intros v Harr. destruct (notNull v) as [w|]; [|by eexists].
    destruct (Harr w eq_refl) as [a ->]. by eexists. }
  destruct (Hslice _ Hemission) as [emission ->].
  destruct (Hslice _ Hspecular) as [specular ->]. simpl.
  eexists _, _, uniforms. split; [done|]. split; [done|]. simpl.
  rewrite !lookup_setIf_ne by done. unfold Materials.setShininess.
  destruct (notNull (obj_get uniforms "shininess")) as [shininess|]; cbv zeta.
  - rewrite lookup_insert_ne, lookup_insert_ne, lookup_insert_eq by done.
    rewrite lookup_insert_ne, lookup_insert_eq by done.
    by rewrite lookup_insert_eq.
  - rewrite lookup_insert_ne, lookup_insert_eq by done.
    by rewrite lookup_insert_eq.
Qed.

Lemma parseMaterial_descriptor options techniques textures materialInfo
    materialInfo' material :
  parseMaterial options techniques textures materialInfo
    = Ok (materialInfo', material) →
  materialInfo'
  = resolveUniforms textures (mergeInstanceTechnique materialInfo).
Proof.
  unfold Materials.parseMaterial.
  destruct (m_values _); [|done]. destruct (techniques !! _); [|done].
  intros (emission & _ & (specular & _ & [= <- _])%bind_Ok)%bind_Ok. done.
Qed.

Lemma resolveUniforms_plain textures
    (materialInfo : MaterialInfo (num := num)) :
  plain materialInfo →
  resolveUniforms textures (mergeInstanceTechnique materialInfo)
  = materialInfo.
Proof.
  intros [Hit Hvalues]. unfold mergeInstanceTechnique. rewrite Hit.
  destruct materialInfo as [name technique values instanceTechnique].
  unfold resolveUniforms. simpl in *. f_equal.
  destruct values as [uniforms|]; [|done]. simpl. f_equal.
  specialize (Hvalues uniforms eq_refl). unfold resolveValues.
  induction Hvalues as [|[symbol value] uniforms Hvalue _ IH]; [done|].
  simpl. rewrite IH. do 2 f_equal.
  destruct value; try done. by destruct (Hvalue s).
Qed.


End MaterialsProperties.

Lemma parseMaterial_shininess_witness :
  ∃ materialInfo' material,
    Materials.parseMaterial Materials.ex_truthy Materials.ex_log
      Materials.ex_div Z.sub 1000%Z 500%Z 8192%Z Materials.ex_toNumber
      Materials.ex_options Materials.ex_techniques Materials.ex_textures
      Materials.ex_material = Ok (materialInfo', material)
    ∧ Materials.mat_values material !! "glossiness"
      = Some (Materials.UNum 461%Z)
    ∧ Materials.mat_values material !! "roughness"
      = Some (Materials.UNum 539%Z)
    ∧ Materials.mat_values material !! "shininess"
      = Some (Materials.UNum 64%Z).
Proof.
  destruct (parseMaterial_shininess Materials.ex_truthy Materials.ex_log
              Materials.ex_div Z.sub 1000%Z 500%Z 8192%Z Materials.ex_toNumber
              Materials.ex_options Materials.ex_techniques Materials.ex_textures
              Materials.ex_material)
    as (materialInfo' & material & uniforms & Hrun & Hvalues & Hstored).
  - split; [by eexists|]. eexists. split; [reflexivity|].
    split; intros v Hv; vm_compute in Hv; discriminate Hv.
  - pose proof (parseMaterial_descriptor _ _ _ _ _ _ _ _ _ _ _ _ _ _ Hrun)
      as ->.
    vm_compute in Hvalues. injection Hvalues as <-.
    eexists. exists material. split; [exact Hrun|]. exact Hstored.
Defined.



(** ** Further properties of the stages, the loader and the other sources *)

Section SkinBindingProperties.
Import Skins SkinBinding.

Context {Scene : Type}.
Variable Joint_defaults : Joint.
Variable enableSkinningForNode :
  Scene → option nodeRef → string → list Z → result Scene.

Local Abbreviation bindNodeToJoint := (Skins.bindNodeToJoint Joint_defaults).
Local Abbreviation createSkeleton :=
  (Skins.createSkeleton (Scene := Scene) Joint_defaults).
Local Abbreviation bindRoot := (Skins.bindRoot Joint_defaults).
Local Abbreviation bindInstanceSkin :=
  (Skins.bindInstanceSkin Joint_defaults enableSkinningForNode).
Local Abbreviation _parseSkins :=
  (Skins._parseSkins Joint_defaults enableSkinningForNode).

Lemma createSkeletons_flag json entries :
  ∀ (lib : Lib) have lib1 have1,
    forM (createSkeleton json) entries (lib, have) = Ok (lib1, have1) →
    have1 = have
            || existsb (λ entry : string * SkinInfo,
                          bool_decide
                            (is_Some (skin_inverseBindMatrices entry.2)))
                 entries.
Proof.
  induction entries as [|[name skinInfo] entries IH];
    intros lib have lib1 have1; simpl.
  - intros [= <- <-]. by rewrite orb_false_r.
  - intros ([lib' have'] & Hbody & Hrest)%bind_Ok.
    apply IH in Hrest as ->. rewrite orb_assoc. f_equal.
    unfold Skins.createSkeleton in Hbody.
    destruct (Skins.createJoints _ _ _ _) as [store joints].
    apply bind_Ok in Hbody as ([invBind have''] & Hslice & [= <- <-]).
    destruct (skin_inverseBindMatrices skinInfo) as [IBMInfo|]; simpl.
    + apply bind_Ok in Hslice as (array & _ & [= <- <-]).
      by rewrite orb_true_r.
    + injection Hslice as <- <-. by rewrite orb_false_r.
Qed.

Lemma buildJointsMap_ok store joints :
  ∀ jointsMap jointsMap',
    buildJointsMap store joints jointsMap = Ok jointsMap' →
    jointsMap_ok jointsMap store → jointsMap_ok jointsMap' store.
Proof.
  induction joints as [|l joints IH]; intros m m'; simpl.
  - by intros [= <-].
  - destruct (store !! l) as [j|] eqn:Hj; [|done].
    intros Hrest Hm. eapply IH; [exact Hrest|].
    apply map_Forall_insert_2; [|done]. by eapply lookup_lt_Some.
Qed.

(** One iteration of the loop over [json.nodes]: the skins recorded and the
    skeletons present stay so, the skin of the entry is recorded, and the
    roots of a skeleton grow by the root ids the entry gives for it. *)
Lemma bindInstanceSkin_step fuel json lib names name nodeInfo lib' names' :
  bindInstanceSkin fuel json (lib, names) (name, nodeInfo)
    = Ok (lib', names') →
  (∀ s, s ∈ names → s ∈ names')
  ∧ (∀ instanceSkin, n_instanceSkin nodeInfo = Some instanceSkin →
       is_skin instanceSkin ∈ names')
  ∧ (∀ s, s ∈ names' → s ∈ names
          ∨ ∃ instanceSkin, n_instanceSkin nodeInfo = Some instanceSkin
                            ∧ is_skin instanceSkin = s)
  ∧ (∀ instanceSkin, n_instanceSkin nodeInfo = Some instanceSkin →
       is_Some (lib_skeletons lib !! is_skin instanceSkin))
  ∧ ∀ s sk, lib_skeletons lib !! s = Some sk →
      ∃ sk', lib_skeletons lib' !! s = Some sk'
        ∧ sk_updated sk' = sk_updated sk
        ∧ length (sk_roots sk')
          = length (sk_roots sk)
            + match n_instanceSkin nodeInfo with
              | Some instanceSkin =>
                  if decide (is_skin instanceSkin = s)
                  then length (is_skeletons instanceSkin)
                  else 0
              | None => 0
              end.
Proof.
  unfold Skins.bindInstanceSkin.
  destruct (n_instanceSkin nodeInfo) as [instanceSkin|].
  2:{ intros [= <- <-]. split; [done|]. split; [done|]. split; [eauto|].
      split; [done|]. intros s sk Hsk. exists sk. split; [done|].
      split; [done|lia]. }
  destruct (lib_skeletons lib !! is_skin instanceSkin) as [skeleton|] eqn:Hsk;
    [|done].
  intros (indices & _ & (scene' & _ & (jointsMap & Hmap &
            ([store' roots'] & Hroots & [= <- <-])%bind_Ok)%bind_Ok)%bind_Ok
         )%bind_Ok.
  apply buildJointsMap_ok in Hmap; [|apply map_Forall_empty].
  apply bindRoots_spec in Hroots as (_ & pushed & -> & Hlen & _); [|done].
  unfold recordInstanceSkin.
  split; [|split; [|split; [|split]]].
  - intros s Hs. case_decide; [done|]. apply elem_of_app. by left.
  - intros ? [= <-]. case_decide; [done|]. apply elem_of_app. right.
    apply list_elem_of_singleton. done.
  - intros s. case_decide; [eauto|].
    intros [Hs|Hs%list_elem_of_singleton]%elem_of_app; [eauto|].
    right. eauto.
  - intros ? [= <-]. by rewrite Hsk.
  - intros s sk Hs. simpl. destruct (decide (is_skin instanceSkin = s)) as [<-|Hne].
    + rewrite lookup_insert_eq. eexists. split; [done|]. simpl.
      assert (sk = skeleton) as -> by congruence. split; [done|].
      rewrite length_app. lia.
    + rewrite lookup_insert_ne by done. exists sk. split; [done|].
      split; [done|lia].
Qed.

Lemma updateSkeletons_spec have names :
  ∀ (skeletons : gmap string Skeleton) name sk,
    skeletons !! name = Some sk →
    ∃ sk', foldl (updateSkeleton have) skeletons names !! name = Some sk'
           ∧ sk_roots sk' = sk_roots sk
           ∧ sk_updated sk'
             = if decide (name ∈ names) then Some have else sk_updated sk.
Proof.
  induction names as [|n names IH]; intros skeletons name sk Hsk;
    cbn [foldl].
  { exists sk. split; [done|]. split; [done|].
    destruct (decide (name ∈ [])) as [Hin|_]; [inversion Hin|done]. }
  unfold updateSkeleton at 2.
  destruct (decide (n = name)) as [->|Hne].
  - edestruct (IH (alter (λ sk0, mkSkeleton (sk_name sk0) (sk_joints sk0)
                       (sk_roots sk0) (sk_invBindPoseMatricesArray sk0)
                       (sk_skinMatricesArray sk0) (Some have)) name skeletons)
                 name) as (sk' & Hsk' & Hroots & Hupd).
    { rewrite lookup_alter_eq, Hsk. done. }
    exists sk'. split; [done|]. split; [done|]. rewrite Hupd. simpl.
    destruct (decide (name ∈ name :: names)) as [_|Hn];
      [by case_decide|exfalso; apply Hn; left].
  - destruct (IH (alter (λ sk0, mkSkeleton (sk_name sk0) (sk_joints sk0)
                       (sk_roots sk0) (sk_invBindPoseMatricesArray sk0)
                       (sk_skinMatricesArray sk0) (Some have)) n skeletons)
                name sk) as (sk' & Hsk' & Hroots & Hupd).
    { by rewrite lookup_alter_ne. }
    exists sk'. split; [done|]. split; [done|]. rewrite Hupd.
    destruct (decide (name ∈ names)) as [Hin|Hin].
    + destruct (decide (name ∈ n :: names)) as [_|Hn];
        [done|exfalso; apply Hn; by right].
    + destruct (decide (name ∈ n :: names)) as [[?|?]%elem_of_cons|_];
        [congruence|done|done].
Qed.

Lemma createSkeleton_fresh json lib have name skinInfo lib' have' :
  createSkeleton json (lib, have) (name, skinInfo) = Ok (lib', have') →
  ∃ sk, lib_skeletons lib' !! name = Some sk
        ∧ sk_roots sk = [] ∧ sk_updated sk = None.
Proof.
  unfold Skins.createSkeleton.
  destruct (Skins.createJoints _ _ _ _) as [store joints].
  intros ([invBind have''] & _ & [= <- <-])%bind_Ok. simpl.
  eexists. rewrite lookup_insert_eq. done.
Qed.

Lemma createSkeletons_fresh json lib lib1 have :
  NoDup (obj_keys (json_skins json)) →
  forM (createSkeleton json) (json_skins json) (lib, false) = Ok (lib1, have) →
  ∀ name skinInfo, (name, skinInfo) ∈ json_skins json →
    ∃ sk, lib_skeletons lib1 !! name = Some sk
          ∧ sk_roots sk = [] ∧ sk_updated sk = None.
Proof.
  intros Hnd.
  apply (forM_prefix_invariant
           (λ pre st, ∀ name skinInfo, (name, skinInfo) ∈ pre →
              ∃ sk, lib_skeletons st.1 !! name = Some sk
                    ∧ sk_roots sk = [] ∧ sk_updated sk = None)).
  - intros ? ? Hin. inversion Hin.
  - intros pre [name skinInfo] post [l h] [l1 h1] Hsplit Hpre Hbody.
    pose proof (createSkeleton_fresh _ _ _ _ _ _ _ Hbody) as Hnew.
    apply createSkeleton_spec in Hbody as (_ & _ & Hother).
    intros name' skinInfo' [Hin|Hin]%elem_of_app; simpl in *.
    + assert (name' ≠ name) as Hne by (by eapply obj_keys_fresh).
      rewrite Hother by done. eauto.
    + apply list_elem_of_singleton in Hin as [= -> ->]. done.
Qed.

(** What [_parseSkins] leaves in the skeleton of a declared skin. *)
Lemma parseSkins_skeletons fuel json lib lib' :
  NoDup (obj_keys (json_skins json)) →
  _parseSkins fuel json lib = Ok lib' →
  ∀ name skinInfo, (name, skinInfo) ∈ json_skins json →
    ∃ skeleton,
      lib_skeletons lib' !! name = Some skeleton
      ∧ sk_updated skeleton
        = (if decide (name ∈ instancedSkins (json_nodes json))
           then Some (declaresInverseBindMatrices json) else None)
      ∧ length (sk_roots skeleton) = declaredRoots (json_nodes json) name.
Proof.
  intros Hnd. unfold Skins._parseSkins.
  intros ([lib1 have] & Hcreate &
          ([lib2 names] & Hbind & [= <-])%bind_Ok)%bind_Ok.
  pose proof (createSkeletons_flag _ _ _ _ _ _ Hcreate) as Hflag.
  simpl in Hflag. fold (declaresInverseBindMatrices json) in Hflag.
  pose proof (createSkeletons_fresh _ _ _ _ Hnd Hcreate) as Hfresh.
  intros name skinInfo Hin. simpl.
  assert ((∀ s, s ∈ names ↔ s ∈ instancedSkins (json_nodes json))
          ∧ ∃ sk, lib_skeletons lib2 !! name = Some sk
                  ∧ sk_updated sk = None
                  ∧ length (sk_roots sk)
                    = declaredRoots (json_nodes json) name)
    as (Hnames & sk & Hsk & Hupd & Hroots).
  { revert Hbind.
    apply (forM_prefix_invariant
             (λ pre st,
                (∀ s, s ∈ st.2 ↔ s ∈ instancedSkins pre)
                ∧ ∃ sk, lib_skeletons st.1 !! name = Some sk
                        ∧ sk_updated sk = None
                        ∧ length (sk_roots sk) = declaredRoots pre name)).
    - split; [done|]. destruct (Hfresh _ _ Hin) as (sk & Hsk & Hr & Hu).
      exists sk. rewrite Hr. done.
    - intros pre [nodeName nodeInfo] post [l ns] [l1 ns1] _
        (Hns & sk & Hsk & Hupd & Hroots) Hbody. simpl in *.
      apply bindInstanceSkin_step in Hbody
        as (Hkeep & Hnew & Hfrom & _ & Hskel).
      split.
      + intros s. unfold instancedSkins. rewrite omap_app, elem_of_app.
        simpl. rewrite <- Hns. split.
        * intros [Hs|(i & Hi & <-)]%Hfrom; [by left|]. right.
          rewrite Hi. simpl. left.
        * intros [Hs|Hs]; [by apply Hkeep|].
          destruct (n_instanceSkin nodeInfo) as [i|]; simpl in Hs;
            [|inversion Hs].
          apply list_elem_of_singleton in Hs as ->. by apply Hnew.
      + destruct (Hskel _ _ Hsk) as (sk' & Hsk' & Hupd' & Hroots').
        exists sk'. split; [done|]. split; [congruence|].
        unfold declaredRoots in *. rewrite sum_list_with_app. simpl.
        lia. }
  destruct (updateSkeletons_spec have names _ _ _ Hsk)
    as (sk' & Hsk' & Hroots' & Hupd').
  exists sk'. split; [done|]. split; [|congruence].
  rewrite Hupd', Hupd, Hflag.
  destruct (decide (name ∈ names)) as [Hn|Hn];
    destruct (decide (name ∈ instancedSkins (json_nodes json))) as [Hi|Hi];
    try done; exfalso.
  - apply Hi. by apply Hnames.
  - apply Hn. by apply Hnames.
Qed.

(** X1.  [haveInvBindMatrices] is one flag for the whole document: after
    [_parseSkins] the skeleton of every declared skin that some node
    instances has been updated with [updateMatricesSubArrays] if any skin of
    the document declares inverse bind matrices, whether or not this one
    does, and with [updateJointMatrices] otherwise; the skeleton of a skin
    that no node instances is not updated at all. *)
Theorem parseSkins_update_mode fuel json lib lib' :
  NoDup (obj_keys (json_skins json)) →
  _parseSkins fuel json lib = Ok lib' →
  ∀ name skinInfo, (name, skinInfo) ∈ json_skins json →
    ∃ skeleton,
      lib_skeletons lib' !! name = Some skeleton
      ∧ sk_updated skeleton
        = if decide (name ∈ instancedSkins (json_nodes json))
          then Some (declaresInverseBindMatrices json) else None.
Proof.
  intros Hnd Hrun name skinInfo Hin.
  destruct (parseSkins_skeletons _ _ _ _ Hnd Hrun _ _ Hin)
    as (sk & Hsk & Hupd & _).
  eauto.
Qed.

(** X2.  [skeleton.roots] gets one joint per root node id of every node
    that instances the skin: after [_parseSkins] its length is the number
    of root ids that the nodes of the document give for the skin, so a skin
    instanced by two nodes holds its roots twice and a skin instanced by
    none has no roots. *)
Theorem parseSkins_roots_count fuel json lib lib' :
  NoDup (obj_keys (json_skins json)) →
  _parseSkins fuel json lib = Ok lib' →
  ∀ name skinInfo, (name, skinInfo) ∈ json_skins json →
    ∃ skeleton,
      lib_skeletons lib' !! name = Some skeleton
      ∧ length (sk_roots skeleton) = declaredRoots (json_nodes json) name.
Proof.
  intros Hnd Hrun name skinInfo Hin.
  destruct (parseSkins_skeletons _ _ _ _ Hnd Hrun _ _ Hin)
    as (sk & Hsk & _ & Hroots).
  eauto.
Qed.

Lemma parent_ok_step jointsMap store store' parentIndex :
  store_step jointsMap store store' →
  parent_ok jointsMap store parentIndex →
  parent_ok jointsMap store' parentIndex.
Proof.
  intros (_ & Hidx & _) [->|(k & l & j & Hk & Hj & <-)]; [by left|].
  destruct (Hidx _ _ Hj) as (j' & Hj' & Hi & _).
  right. by exists k, l, j'.
Qed.


End SkinBindingProperties.

Lemma parseSkins_update_mode_witness :
  ∃ lib' skeleton,
    Skins._parseSkins Skins.ex_defaults Skins.ex_enableSkinning 3
      SkinBinding.ex_json SkinBinding.ex_lib = Ok lib'
    ∧ Skins.lib_skeletons lib' !! "body" = Some skeleton
    ∧ Skins.sk_invBindPoseMatricesArray skeleton = None
    ∧ Skins.sk_updated skeleton = Some true.
Proof.
  destruct (Skins._parseSkins Skins.ex_defaults Skins.ex_enableSkinning 3
              SkinBinding.ex_json SkinBinding.ex_lib)
    as [lib'|e] eqn:Hrun; [|vm_compute in Hrun; discriminate Hrun].
  destruct (parseSkins_update_mode Skins.ex_defaults Skins.ex_enableSkinning
              3 SkinBinding.ex_json SkinBinding.ex_lib lib')
    with (name := "body") (skinInfo := Skins.mkSkinInfo ["jRoot"; "jArm"] None)
    as (skeleton & Hsk & Hupd).
  - apply (bool_decide_unpack _). by vm_compute.
  - exact Hrun.
  - left.
  - exists lib', skeleton. split; [reflexivity|]. split; [exact Hsk|].
    split; [|exact Hupd].
    vm_compute in Hrun. injection Hrun as <-. vm_compute in Hsk.
    injection Hsk as <-. reflexivity.
Defined.

Lemma parseSkins_roots_count_witness :
  ∃ lib' body cape,
    Skins._parseSkins Skins.ex_defaults Skins.ex_enableSkinning 3
      SkinBinding.ex_json SkinBinding.ex_lib = Ok lib'
    ∧ Skins.lib_skeletons lib' !! "body" = Some body
    ∧ length (Skins.sk_roots body) = 3
    ∧ Skins.lib_skeletons lib' !! "cape" = Some cape
    ∧ length (Skins.sk_roots cape) = 0.
Proof.
  destruct (Skins._parseSkins Skins.ex_defaults Skins.ex_enableSkinning 3
              SkinBinding.ex_json SkinBinding.ex_lib)
    as [lib'|e] eqn:Hrun; [|vm_compute in Hrun; discriminate Hrun].
  assert (NoDup (obj_keys (Skins.json_skins SkinBinding.ex_json))) as Hnd
    by (apply (bool_decide_unpack _); by vm_compute).
  destruct (parseSkins_roots_count Skins.ex_defaults Skins.ex_enableSkinning
              3 SkinBinding.ex_json SkinBinding.ex_lib lib' Hnd Hrun
              "body" (Skins.mkSkinInfo ["jRoot"; "jArm"] None))
    as (body & Hbody & Hroots); [left|].
  destruct (parseSkins_roots_count Skins.ex_defaults Skins.ex_enableSkinning
              3 SkinBinding.ex_json SkinBinding.ex_lib lib' Hnd Hrun
              "cape" (Skins.mkSkinInfo ["jCape"]
                        (Some (Skins.mkIBM "view" 0 1))))
    as (cape & Hcape & Hroots'); [right; left|].
  exists lib', body, cape. split; [reflexivity|]. split; [exact Hbody|].
  split; [exact Hroots|]. split; [exact Hcape|exact Hroots'].
Defined.


Section SkinningProperties.
Import Skins Skinning.

Variable Joint_defaults : Joint.

Local Abbreviation createSkeleton :=
  (Skins.createSkeleton (Scene := Scene) Joint_defaults).
Local Abbreviation bindInstanceSkin :=
  (Skins.bindInstanceSkin Joint_defaults enableSkinningForNode).
Local Abbreviation _parseSkins :=
  (Skins._parseSkins Joint_defaults enableSkinningForNode).

Lemma jointIndices_seq store joints :
  ∀ k,
    (∀ i l, joints !! i = Some l →
       ∃ j, store !! l = Some j ∧ j_index j = Z.of_nat (k + i)) →
    jointIndices store joints = Ok (Z.of_nat <$> seq k (length joints)).
Proof.
  induction joints as [|l joints IH]; intros k Hidx; simpl; [done|].
  destruct (Hidx 0 l eq_refl) as (j & -> & Hj). rewrite Nat.add_0_r in Hj.
  rewrite (IH (S k)).
  - simpl. by rewrite Hj.
  - intros i l' Hl'. destruct (Hidx (S i) l' Hl') as (j' & Hj' & Hi).
    exists j'. split; [done|]. rewrite Hi. f_equal. lia.
Qed.

Lemma enableSkinningForMesh_ok json scene mesh skeleton skinInfo scene' :
  (skeleton, skinInfo) ∈ json_skins json →
  skinned_ok json scene →
  enableSkinningForMesh scene mesh skeleton
    (Z.of_nat <$> seq 0 (length (skin_joints skinInfo))) = Ok scene' →
  skinned_ok json scene'.
Proof.
  intros Hskin [Hok Hunshared]. unfold enableSkinningForMesh.
  destruct (sc_entities scene !! mesh) as [[m|children]|] eqn:Hmesh;
    [|done|done].
  destruct (mesh_material m ≫= (sc_materials scene !!.)) as [original|];
    [|done].
  intros [= <-].
  assert (∀ ref mesh', ref ≠ mesh →
            sc_entities scene !! ref = Some (MeshEntity mesh') →
            is_Some (mesh_skeleton mesh') →
            mesh_material mesh' ≠ Some (length (sc_materials scene)))
    as Hfresh.
  { intros ref mesh' _ Href [skeleton' Hskeleton].
    destruct (Hok _ _ _ Href Hskeleton)
      as (_ & l & material & _ & _ & -> & Hl & _).
    apply lookup_lt_Some in Hl. intros [= ->]. lia. }
  split.
  - intros ref mesh' skeleton'. simpl.
    destruct (decide (ref = mesh)) as [->|Hne].
    + rewrite list_lookup_insert_eq by (by eapply lookup_lt_Some).
      intros [= <-] [= <-]. simpl.
      eexists skinInfo, _, _. split; [done|]. split; [done|].
      split; [done|]. split; [by apply list_lookup_middle|].
      unfold jointCount, clone. rewrite length_fmap, length_seq.
      by destruct (mat_standard original).
    + rewrite list_lookup_insert_ne by done. intros Href Hskeleton.
      destruct (Hok _ _ _ Href Hskeleton)
        as (skinInfo' & l & material & ? & ? & ? & Hl & ?).
      exists skinInfo', l, material. do 3 (split; [done|]).
      split; [by apply lookup_app_l_Some|done].
  - intros ref1 ref2 mesh1 mesh2. simpl.
    destruct (decide (ref1 = mesh)) as [->|Hne1];
      destruct (decide (ref2 = mesh)) as [->|Hne2].
    + done.
    + rewrite list_lookup_insert_eq by (by eapply lookup_lt_Some).
      rewrite list_lookup_insert_ne by done.
      intros [= <-] H2 _ Hs2 _ Heq. simpl in Heq.
      by eapply (Hfresh ref2 mesh2).
    + rewrite list_lookup_insert_ne by done.
      rewrite list_lookup_insert_eq by (by eapply lookup_lt_Some).
      intros H1 [= <-] Hs1 _ _ Heq. simpl in Heq.
      by eapply (Hfresh ref1 mesh1).
    + rewrite !list_lookup_insert_ne by done. apply Hunshared.
Qed.

Lemma enableSkinningForNode_ok json scene node skeleton skinInfo scene' :
  (skeleton, skinInfo) ∈ json_skins json →
  skinned_ok json scene →
  enableSkinningForNode scene node skeleton
    (Z.of_nat <$> seq 0 (length (skin_joints skinInfo))) = Ok scene' →
  skinned_ok json scene'.
Proof.
  intros Hskin Hok. unfold enableSkinningForNode.
  destruct node as [ref|]; [|done].
  destruct (sc_entities scene !! ref) as [[m|children]|]; [| |done].
  - by apply enableSkinningForMesh_ok.
  - revert Hok. apply forM_invariant.
    intros sc child sc' _ Hsc Hstep. by eapply enableSkinningForMesh_ok.
Qed.

Lemma createSkeletons_all_bound json entries :
  ∀ (lib : Lib) have lib1 have1,
    (∀ entry, entry ∈ entries → entry ∈ json_skins json) →
    all_bound json lib →
    forM (createSkeleton json) entries (lib, have) = Ok (lib1, have1) →
    all_bound json lib1 ∧ lib_scene lib1 = lib_scene lib.
Proof.
  induction entries as [|[name skinInfo] entries IH];
    intros lib have lib1 have1 Hsub Hall; simpl.
  - by intros [= <- <-].
  - intros ([lib' have'] & Hbody & Hrest)%bind_Ok.
    assert (lib_scene lib' = lib_scene lib) as Hscene.
    { unfold Skins.createSkeleton in Hbody.
      destruct (Skins.createJoints _ _ _ _) as [store joints].
      by apply bind_Ok in Hbody as ([? ?] & _ & [= <- <-]). }
    apply (createSkeleton_spec Joint_defaults) in Hbody
      as (Hstep & Hnew & Hother).
    destruct (IH lib' have' lib1 have1) as [Hall1 Hscene1]; [| |done|].
    + intros entry Hin. apply Hsub. by right.
    + intros name' skeleton Hlook.
      destruct (decide (name' = name)) as [->|Hne].
      * exists skinInfo. split; [apply Hsub; left|done].
      * rewrite Hother in Hlook by done.
        destruct (Hall _ _ Hlook) as (skinInfo' & Hin & sk & Hsk & Hlen & Hidx).
        exists skinInfo'. split; [done|]. exists sk.
        rewrite Hother by done. split; [done|]. split; [done|].
        by eapply skeleton_indexed_step.
    + split; [done|congruence].
Qed.

Lemma bindInstanceSkin_skinned json fuel lib names entry lib' names' :
  all_bound json lib → skinned_ok json (lib_scene lib) →
  bindInstanceSkin fuel json (lib, names) entry = Ok (lib', names') →
  all_bound json lib' ∧ skinned_ok json (lib_scene lib').
Proof.
  intros Hall Hok Hstep. split.
  - intros name skeleton' Hlook.
    assert (is_Some (lib_skeletons lib !! name)) as [skeleton Hold].
    { destruct entry as [nodeName nodeInfo].
      unfold Skins.bindInstanceSkin in Hstep.
      destruct (n_instanceSkin nodeInfo) as [instanceSkin|];
        [|injection Hstep as <- <-; by eexists].
      destruct (lib_skeletons lib !! is_skin instanceSkin) as [sk|] eqn:Hsk;
        [|done].
      apply bind_Ok in Hstep as (indices & _ & Hstep).
      apply bind_Ok in Hstep as (scene' & _ & Hstep).
      apply bind_Ok in Hstep as (jointsMap & _ & Hstep).
      apply bind_Ok in Hstep as ([store' roots'] & _ & [= <- <-]).
      simpl in Hlook. destruct (decide (is_skin instanceSkin = name))
        as [<-|Hne]; [by eexists|].
      rewrite lookup_insert_ne in Hlook by done. by eexists. }
    destruct (Hall _ _ Hold) as (skinInfo & Hin & Hbound).
    exists skinInfo. split; [done|].
    by eapply (bindInstanceSkin_spec Joint_defaults enableSkinningForNode).
  - destruct entry as [nodeName nodeInfo].
    unfold Skins.bindInstanceSkin in Hstep.
    destruct (n_instanceSkin nodeInfo) as [instanceSkin|];
      [|by injection Hstep as <- <-].
    destruct (lib_skeletons lib !! is_skin instanceSkin) as [sk|] eqn:Hsk;
      [|done].
    apply bind_Ok in Hstep as (indices & Hindices & Hstep).
    apply bind_Ok in Hstep as (scene' & Hscene & Hstep).
    apply bind_Ok in Hstep as (jointsMap & _ & Hstep).
    apply bind_Ok in Hstep as ([store' roots'] & _ & [= <- <-]). simpl.
    destruct (Hall _ _ Hsk) as (skinInfo & Hin & sk' & Hsk' & Hlen & Hidx).
    assert (sk' = sk) as -> by congruence.
    rewrite (jointIndices_seq _ _ 0) in Hindices by done.
    injection Hindices as <-. rewrite Hlen in Hscene.
    by eapply enableSkinningForNode_ok.
Qed.

(** X24.  Skinned meshes do not share a material, and the joint count of
    a skinned mesh is that of its skin: started from [lib.skeletons] empty
    and a scene in which this holds (one without skinned meshes, say),
    [_parseSkins] leaves every mesh that has a skeleton with the joint
    indices 0, 1, ... of the joints the skin declares and with a material
    whose joint count ([jointCount] of a standard material, [JOINT_COUNT]
    of the shader otherwise) is the number of those joints, and leaves no
    two such meshes with the same material. *)
Theorem parseSkins_skinned_meshes fuel json (lib : Lib) lib' :
  lib_skeletons lib = ∅ →
  skinned_ok json (lib_scene lib) →
  _parseSkins fuel json lib = Ok lib' →
  skinned_ok json (lib_scene lib').
Proof.
  intros Hempty Hok. unfold Skins._parseSkins.
  intros ([lib1 have] & Hcreate &
          ([lib2 names] & Hbind & [= <-])%bind_Ok)%bind_Ok. simpl.
  apply createSkeletons_all_bound in Hcreate as [Hall1 Hscene1]; [|done|].
  2:{ intros name skeleton Hlook. by rewrite Hempty, lookup_empty in Hlook. }
  rewrite <- Hscene1 in Hok.
  apply (forM_invariant
           (λ st, all_bound json st.1 ∧ skinned_ok json (lib_scene st.1)))
    in Hbind; [by destruct Hbind| |done].
  intros [l ns] entry [l' ns'] _ [Hall Hsk] Hstep. simpl in *.
  by eapply bindInstanceSkin_skinned.
Qed.

End SkinningProperties.

Lemma parseSkins_skinned_meshes_witness :
  ∃ lib' first second,
    Skins._parseSkins Skins.ex_defaults Skinning.enableSkinningForNode 3
      Skins.ex_json Skinning.ex_lib = Ok lib'
    ∧ Skinning.sc_entities (Skins.lib_scene lib') !! 4
      = Some (Skinning.MeshEntity first)
    ∧ Skinning.sc_entities (Skins.lib_scene lib') !! 5
      = Some (Skinning.MeshEntity second)
    ∧ Skinning.mesh_joints first = Some [0; 1]%Z
    ∧ Skinning.mesh_joints second = Some [0; 1]%Z
    ∧ Skinning.mesh_material first ≠ Skinning.mesh_material second
    ∧ Skinning.skinned_ok Skins.ex_json (Skins.lib_scene lib').
Proof.
  destruct (Skins._parseSkins Skins.ex_defaults Skinning.enableSkinningForNode
              3 Skins.ex_json Skinning.ex_lib)
    as [lib'|e] eqn:Hrun; [|vm_compute in Hrun; discriminate Hrun].
  pose proof (parseSkins_skinned_meshes Skins.ex_defaults 3 Skins.ex_json
                Skinning.ex_lib lib') as Hok.
  assert (∃ first second,
            Skinning.sc_entities (Skins.lib_scene lib') !! 4
            = Some (Skinning.MeshEntity first)
            ∧ Skinning.sc_entities (Skins.lib_scene lib') !! 5
              = Some (Skinning.MeshEntity second)
            ∧ Skinning.mesh_joints first = Some [0; 1]%Z
            ∧ Skinning.mesh_joints second = Some [0; 1]%Z
            ∧ Skinning.mesh_material first ≠ Skinning.mesh_material second)
    as (first & second & H4 & H5 & Hj1 & Hj2 & Hne).
  { vm_compute in Hrun. injection Hrun as <-. eexists _, _.
    split; [reflexivity|]. split; [reflexivity|]. split; [reflexivity|].
    split; [reflexivity|]. discriminate. }
  exists lib', first, second. split; [reflexivity|].
  do 5 (split; [assumption|]).
  apply Hok; [reflexivity| |exact Hrun].
  split.
  - intros ref mesh skeleton Href Hskeleton.
    destruct ref as [|[|[|[|[|[|ref]]]]]]; simpl in Href;
      try discriminate Href; injection Href as <-; discriminate Hskeleton.
  - intros ref1 ref2 mesh1 mesh2 Href1 _ [skeleton Hskeleton].
    destruct ref1 as [|[|[|[|[|[|ref1]]]]]]; simpl in Href1;
      try discriminate Href1; injection Href1 as <-; discriminate Hskeleton.
Defined.

Lemma obj_get_app {A : Type} (o1 o2 : obj A) name :
  obj_get (o1 ++ o2) name
  = match obj_get o1 name with
    | Some v => Some v
    | None => obj_get o2 name
    end.
Proof.
  induction o1 as [|[k v] o1 IH]; simpl; [done|]. by case_decide.
Qed.

Lemma obj_get_None {A : Type} (o : obj A) name :
  name ∉ obj_keys o → obj_get o name = None.
Proof.
  unfold obj_keys. induction o as [|[k v] o IH]; simpl; [done|].
  intros Hnot. apply not_elem_of_cons in Hnot as [Hne Hnot].
  rewrite decide_False by done. auto.
Qed.

Section MeshGeometryProperties.
Import Meshes MeshGeometry.

Context {num Material : Type}.
Variable defaultMaterial : Material.
Variable normalMapEnabled : Material → bool.

Local Abbreviation parsePrimitive :=
  (Meshes.parsePrimitive (num := num) defaultMaterial normalMapEnabled).
Local Abbreviation parseMesh :=
  (Meshes.parseMesh (num := num) defaultMaterial normalMapEnabled).
Local Abbreviation _parseMeshes :=
  (Meshes._parseMeshes (num := num) defaultMaterial normalMapEnabled).
Local Abbreviation primitiveMaterial :=
  (Meshes.primitiveMaterial (num := num) defaultMaterial).

Lemma newTypedArray_in_bounds ctor buffers bufferName byteOffset len v :
  newTypedArray ctor buffers bufferName byteOffset len = Ok v →
  tv_ctor v = ctor ∧ view_in_bounds buffers v.
Proof.
  unfold newTypedArray, view_in_bounds.
  destruct (buffers !! bufferName) as [bytes|] eqn:Hbytes.
  - case_decide as Hrange; [|done]. intros [= <-]. simpl.
    split; [done|]. exists bytes. by destruct Hrange.
  - by intros [= <-].
Qed.

(** The attribute slots that the loader can fill. *)
Lemma semanticAttributeMap_names semantic attributeName :
  obj_get semanticAttributeMap semantic = Some attributeName →
  attributeName ∈ ["normal"; "position"; "texcoord0"; "texcoord1"; "weight";
                   "joint"; "color"].
Proof.
  unfold semanticAttributeMap. simpl.
  repeat (case_decide; [intros [= <-]; set_solver|]). done.
Qed.

(** What the loop over the attributes of a primitive leaves in the
    geometry it started from. *)
Lemma parseAttributes_geometry (json : Json (num := num)) buffers attributes
    vars vars' geometry' :
  forM (parseAttribute json buffers) attributes
    (vars, mkGeometry ∅ None None None false) = Ok (vars', geometry') →
  g_indices geometry' = None
  ∧ g_tangents geometry' = false
  ∧ (∀ attributeName value,
       g_attributes geometry' !! attributeName = Some value →
       attributeName ∈ ["normal"; "position"; "texcoord0"; "texcoord1";
                        "weight"; "joint"; "color"]
       ∧ ∀ v, value = ViewValue v → view_in_bounds buffers v)
  ∧ (NoDup (obj_keys attributes) →
     g_boundingBox_min geometry' = declaredBound a_min json attributes
     ∧ g_boundingBox_max geometry' = declaredBound a_max json attributes).
Proof.
  intros Hloop.
  apply (forM_prefix_invariant
           (λ pre st,
              g_indices st.2 = None
              ∧ g_tangents st.2 = false
              ∧ (∀ attributeName value,
                   g_attributes st.2 !! attributeName = Some value →
                   attributeName ∈ ["normal"; "position"; "texcoord0";
                                    "texcoord1"; "weight"; "joint"; "color"]
                   ∧ ∀ v, value = ViewValue v → view_in_bounds buffers v)
              ∧ (NoDup (obj_keys attributes) →
                 g_boundingBox_min st.2 = declaredBound a_min json pre
                 ∧ g_boundingBox_max st.2 = declaredBound a_max json pre)))
    in Hloop; [done| |].
  - simpl. do 2 (split; [done|]). split; [|done].
    intros ? ? Hnone. by rewrite lookup_empty in Hnone.
  - intros pre [semantic accessorName] post [v g] [v1 g1] Hsplit
      (Hind & Htan & Hattrs & Hbox) Hstep. cbn [fst snd] in *.
    assert (NoDup (obj_keys attributes) → obj_get pre semantic = None)
      as Hfresh.
    { intros Hnd. apply obj_get_None. unfold obj_keys in *.
      rewrite Hsplit, fmap_app in Hnd.
      apply NoDup_app in Hnd as (_ & Hdisj & _). intros Hin.
      apply (Hdisj _ Hin). simpl. left. }
    assert (∀ bound : AccessorInfo (num := num) → option (list num),
              semantic ≠ "POSITION" →
              declaredBound bound json (pre ++ [(semantic, accessorName)])
              = declaredBound bound json pre) as Hother.
    { intros bound Hne. unfold declaredBound. rewrite obj_get_app. simpl.
      rewrite decide_False by done. by destruct (obj_get pre "POSITION"). }
    unfold parseAttribute in Hstep.
    destruct (obj_get semanticAttributeMap semantic) as [attributeName|]
      eqn:Hmapped.
    2:{ injection Hstep as <- <-. do 3 (split; [done|]).
        intros Hnd. rewrite !Hother; [by apply Hbox| |].
        all: intros ->; vm_compute in Hmapped; done. }
    destruct (obj_get (json_accessors json) accessorName) as [attributeInfo|]
      eqn:Haccessor; [|done].
    destruct (obj_get (json_bufferViews json) (a_bufferView attributeInfo))
      as [bufferViewInfo|]; [|done].
    destruct (v_ArrayCtor (decodeLayout v attributeInfo)) as [ctor|]; [|done].
    apply bind_Ok in Hstep as (attributeArray & Hnew & Hrest).
    apply newTypedArray_in_bounds in Hnew as [_ Hnew].
    destruct (decide (semantic = "POSITION")) as [->|Hne];
      injection Hrest as <- <-; simpl.
    + do 2 (split; [done|]). split.
      * intros name value. rewrite lookup_insert_Some.
        intros [[<- <-]|[_ Hold]]; [|by apply Hattrs].
        split; [by eapply semanticAttributeMap_names|].
        try rewrite decide_False by (by intros [? _]). by intros ? [= <-].
      * intros Hnd. destruct (Hbox Hnd) as [Hmin Hmax].
        unfold declaredBound in *. rewrite obj_get_app, (Hfresh Hnd) in *.
        simpl in *. rewrite Haccessor. simpl. subst.
        split; [by destruct (a_min attributeInfo)
               |by destruct (a_max attributeInfo)].
    + do 2 (split; [done|]). split.
      * intros name value. rewrite lookup_insert_Some.
        intros [[<- <-]|[_ Hold]]; [|by apply Hattrs].
        split; [by eapply semanticAttributeMap_names|].
        case_decide; [done|]. by intros ? [= <-].
      * intros Hnd. rewrite !Hother by done. by apply Hbox.
Qed.

(** The mesh that one turn of the loop over the primitives builds. *)
Lemma parsePrimitive_mesh (json : Json (num := num)) lib meshInfo vars meshes
    pp primitiveInfo vars' meshes' :
  parsePrimitive json lib meshInfo (vars, meshes) (pp, primitiveInfo)
    = Ok (vars', meshes') →
  ∃ mesh,
    meshes' = meshes ++ [mesh]
    ∧ mesh_name mesh = meshName meshInfo pp
    ∧ mesh_material mesh = primitiveMaterial lib primitiveInfo
    ∧ g_tangents (mesh_geometry mesh) = normalMapEnabled (mesh_material mesh)
    ∧ (∃ indices, g_indices (mesh_geometry mesh) = Some indices
                  ∧ view_in_bounds (lib_buffers lib) indices)
    ∧ (∀ attributeName v,
         g_attributes (mesh_geometry mesh) !! attributeName
         = Some (ViewValue v) →
         view_in_bounds (lib_buffers lib) v)
    ∧ (NoDup (obj_keys (p_attributes primitiveInfo)) →
       g_boundingBox_min (mesh_geometry mesh)
       = declaredBound a_min json (p_attributes primitiveInfo)
       ∧ g_boundingBox_max (mesh_geometry mesh)
         = declaredBound a_max json (p_attributes primitiveInfo)).
Proof.
  unfold Meshes.parsePrimitive.
  intros ([vars1 geometry] & Hattrs & (indices & Hindices & [= <- <-])%bind_Ok
         )%bind_Ok.
  apply parseAttributes_geometry in Hattrs as (_ & Htan & Hvalues & Hbox).
  assert (view_in_bounds (lib_buffers lib) indices) as Hidx.
  { unfold parseIndices in Hindices.
    destruct (obj_get (json_accessors json) (p_indices primitiveInfo))
      as [indicesInfo|]; [|done].
    destruct (obj_get (json_bufferViews json) (a_bufferView indicesInfo));
      [|done].
    by apply newTypedArray_in_bounds in Hindices as [_ ?]. }
  assert (g_attributes geometry !! "tangent" = None) as Hnone.
  { destruct (g_attributes geometry !! "tangent") as [value|] eqn:Hv; [|done].
    destruct (Hvalues _ _ Hv) as [Hin _].
    repeat (apply elem_of_cons in Hin as [Hin|Hin]; [discriminate Hin|]).
    inversion Hin. }
  eexists. split; [done|]. simpl. split; [done|]. split; [done|].
  fold (primitiveMaterial lib primitiveInfo).
  destruct (normalMapEnabled (primitiveMaterial lib primitiveInfo)); simpl.
  - rewrite Hnone. simpl. split; [done|]. split; [eauto|].
    split; [|done]. intros name v Hv. by eapply Hvalues.
  - split; [done|]. split; [eauto|]. split; [|done].
    intros name v Hv. by eapply Hvalues.
Qed.

(** A property of every mesh that a primitive gives holds of every mesh of
    [lib.meshes] when the stage ends. *)
Lemma parseMeshes_each
    (Q : MeshInfo → nat → PrimitiveInfo → Mesh (num := num) → Prop)
    (json : Json (num := num)) lib vars' lib' :
  (∀ lib0 meshInfo vars meshes pp primitiveInfo vars1 meshes1,
     lib_buffers lib0 = lib_buffers lib →
     lib_materials lib0 = lib_materials lib →
     parsePrimitive json lib0 meshInfo (vars, meshes) (pp, primitiveInfo)
       = Ok (vars1, meshes1) →
     ∃ mesh, meshes1 = meshes ++ [mesh] ∧ Q meshInfo pp primitiveInfo mesh) →
  NoDup (obj_keys (json_meshes json)) →
  _parseMeshes json lib = Ok (vars', lib') →
  ∀ name meshInfo, obj_get (json_meshes json) name = Some meshInfo →
    ∃ meshes,
      lib_meshes lib' !! name = Some meshes
      ∧ length meshes = length (m_primitives meshInfo)
      ∧ ∀ pp primitiveInfo mesh,
          m_primitives meshInfo !! pp = Some primitiveInfo →
          meshes !! pp = Some mesh →
          Q meshInfo pp primitiveInfo mesh.
Proof.
  intros HQ Hnd Hrun. unfold Meshes._parseMeshes in Hrun.
  apply (forM_prefix_invariant
           (λ pre st,
              lib_buffers st.2 = lib_buffers lib
              ∧ lib_materials st.2 = lib_materials lib
              ∧ ∀ name meshInfo, (name, meshInfo) ∈ pre →
                  ∃ meshes,
                    lib_meshes st.2 !! name = Some meshes
                    ∧ length meshes = length (m_primitives meshInfo)
                    ∧ ∀ pp primitiveInfo mesh,
                        m_primitives meshInfo !! pp = Some primitiveInfo →
                        meshes !! pp = Some mesh →
                        Q meshInfo pp primitiveInfo mesh))
    in Hrun.
  - destruct Hrun as (_ & _ & Hall).
    intros name meshInfo Hget%obj_get_elem_of. by apply Hall.
  - do 2 (split; [done|]). intros ? ? Hin. inversion Hin.
  - intros pre [name meshInfo] post [v l] [v1 l1] Hsplit (Hbuf & Hmat & Hpre)
      Hstep. simpl in *.
    unfold Meshes.parseMesh in Hstep.
    apply bind_Ok in Hstep as ([vars1 meshes] & Hloop & [= <- <-]). simpl.
    do 2 (split; [done|]).
    intros name' meshInfo' [Hin|Hin]%elem_of_app.
    + assert (name' ≠ name) as Hne by (by eapply obj_keys_fresh).
      rewrite lookup_insert_ne by done. by apply Hpre.
    + apply list_elem_of_singleton in Hin as [= -> ->].
      exists meshes. rewrite lookup_insert_eq. split; [done|].
      apply (forM_prefix_invariant
               (λ pre st, length st.2 = length pre
                  ∧ ∀ i entry mesh, pre !! i = Some entry →
                      st.2 !! i = Some mesh →
                      Q meshInfo entry.1 entry.2 mesh))
        in Hloop.
      * simpl in Hloop. destruct Hloop as [Hlen HQs].
        rewrite length_imap in Hlen. split; [done|].
        intros pp primitiveInfo mesh Hpp Hmesh.
        apply (HQs pp (pp, primitiveInfo) mesh); [|done].
        by rewrite list_lookup_imap, Hpp.
      * split; [done|]. intros i entry mesh Hnil.
        by rewrite lookup_nil in Hnil.
      * intros pre' [pp primitiveInfo] post' [v' ms] [v'' ms'] _ [Hlen HQs]
          Hprim.
        apply HQ in Hprim as (mesh & -> & Hmesh); [|done|done].
        simpl in *. split; [rewrite !length_app; simpl; lia|].
        intros i entry mesh' Hentry Hlook.
        apply lookup_app_Some in Hentry as [Hentry|[Hge Hentry]].
        -- apply (HQs i entry mesh'); [done|].
           rewrite lookup_app_l in Hlook; [done|].
           rewrite Hlen. by eapply lookup_lt_Some.
        -- apply list_lookup_singleton_Some in Hentry as [Hi <-].
           rewrite lookup_app_r in Hlook by lia.
           apply list_lookup_singleton_Some in Hlook as [_ <-]. done.
Qed.

(** X4.  The meshes of a named mesh with more than one primitive get the
    names [name-0], [name-1], ...: after [_parseMeshes] the mesh of the
    primitive [pp] is named by the mesh name, a dash and [pp], so no two
    primitives of the mesh share a name. *)
Theorem parseMeshes_primitive_names (json : Json (num := num)) lib vars' lib'
    name meshInfo meshName :
  NoDup (obj_keys (json_meshes json)) →
  _parseMeshes json lib = Ok (vars', lib') →
  obj_get (json_meshes json) name = Some meshInfo →
  m_name meshInfo = Some meshName → meshName ≠ "" →
  1 < length (m_primitives meshInfo) →
  ∃ meshes,
    lib_meshes lib' !! name = Some meshes
    ∧ (∀ pp mesh, meshes !! pp = Some mesh →
         mesh_name mesh = Some (meshName +:+ "-" +:+ pretty pp))
    ∧ ∀ pp1 pp2 mesh1 mesh2,
        meshes !! pp1 = Some mesh1 → meshes !! pp2 = Some mesh2 →
        mesh_name mesh1 = mesh_name mesh2 → pp1 = pp2.
Proof.
  intros Hnd Hrun Hget Hname Hne Hmany.
  destruct (parseMeshes_each
              (λ meshInfo pp _ mesh, mesh_name mesh = Meshes.meshName meshInfo pp)
              json lib vars' lib') with (name := name) (meshInfo := meshInfo)
    as (meshes & Hmeshes & Hlen & Hnames); [|done|done|done|].
  { intros lib0 meshInfo0 vars meshes pp primitiveInfo vars1 meshes1 _ _ Hprim.
    apply parsePrimitive_mesh in Hprim as (mesh & -> & Hmesh & _). eauto. }
  assert (∀ pp mesh, meshes !! pp = Some mesh →
            mesh_name mesh = Some (meshName +:+ "-" +:+ pretty pp)) as Hall.
  { intros pp mesh Hmesh.
    destruct (lookup_lt_is_Some_2 (m_primitives meshInfo) pp)
      as [primitiveInfo Hpp];
      [rewrite <- Hlen; by eapply lookup_lt_Some|].
    rewrite (Hnames _ _ _ Hpp Hmesh). unfold Meshes.meshName.
    rewrite Hname, decide_False, decide_True by done. done. }
  exists meshes. split; [done|]. split; [done|].
  intros pp1 pp2 mesh1 mesh2 H1 H2.
  rewrite (Hall _ _ H1), (Hall _ _ H2). intros [= Heq].
  apply String.app_inj in Heq. apply String.app_inj in Heq.
  by apply pretty_nat_inj in Heq.
Qed.

(** X5.  The bounding box of a geometry is what the POSITION accessor of
    its primitive declares, never computed from the vertex data: after
    [_parseMeshes] its minimum and maximum are the first three components
    of the accessor's [min] and [max], and they are left as the constructor
    made them when the primitive has no POSITION attribute or the accessor
    declares no bound. *)
Theorem parseMeshes_bounding_box (json : Json (num := num)) lib vars' lib'
    name meshInfo :
  NoDup (obj_keys (json_meshes json)) →
  Forall (λ primitiveInfo, NoDup (obj_keys (p_attributes primitiveInfo)))
    (m_primitives meshInfo) →
  _parseMeshes json lib = Ok (vars', lib') →
  obj_get (json_meshes json) name = Some meshInfo →
  ∃ meshes,
    lib_meshes lib' !! name = Some meshes
    ∧ ∀ pp primitiveInfo mesh,
        m_primitives meshInfo !! pp = Some primitiveInfo →
        meshes !! pp = Some mesh →
        g_boundingBox_min (mesh_geometry mesh)
        = declaredBound a_min json (p_attributes primitiveInfo)
        ∧ g_boundingBox_max (mesh_geometry mesh)
          = declaredBound a_max json (p_attributes primitiveInfo).
Proof.
  intros Hnd Hattrs Hrun Hget.
  destruct (parseMeshes_each
              (λ _ _ primitiveInfo mesh,
                 NoDup (obj_keys (p_attributes primitiveInfo)) →
                 g_boundingBox_min (mesh_geometry mesh)
                 = declaredBound a_min json (p_attributes primitiveInfo)
                 ∧ g_boundingBox_max (mesh_geometry mesh)
                   = declaredBound a_max json (p_attributes primitiveInfo))
              json lib vars' lib') with (name := name) (meshInfo := meshInfo)
    as (meshes & Hmeshes & _ & Hbox); [|done|done|done|].
  { intros lib0 meshInfo0 vars meshes pp primitiveInfo vars1 meshes1 _ _ Hprim.
    apply parsePrimitive_mesh in Hprim as (mesh & -> & _ & _ & _ & _ & _ & Hb).
    eauto. }
  exists meshes. split; [done|].
  intros pp primitiveInfo mesh Hpp Hmesh. apply (Hbox _ _ _ Hpp Hmesh).
  rewrite Forall_forall in Hattrs. apply Hattrs.
  by eapply list_elem_of_lookup_2.
Qed.

(** X6.  The loader never takes tangents from the document: no semantic is
    stored in the [tangent] slot, so after [_parseMeshes]
    [generateTangents] has run on the geometry of exactly the meshes whose
    material has the normal map enabled. *)
Theorem parseMeshes_tangents (json : Json (num := num)) lib vars' lib'
    name meshInfo :
  NoDup (obj_keys (json_meshes json)) →
  _parseMeshes json lib = Ok (vars', lib') →
  obj_get (json_meshes json) name = Some meshInfo →
  ∃ meshes,
    lib_meshes lib' !! name = Some meshes
    ∧ ∀ mesh, mesh ∈ meshes →
        g_attributes (mesh_geometry mesh) !! "tangent" = None
        ∧ g_tangents (mesh_geometry mesh)
          = normalMapEnabled (mesh_material mesh).
Proof.
  intros Hnd Hrun Hget.
  destruct (parseMeshes_each
              (λ _ _ _ mesh,
                 g_attributes (mesh_geometry mesh) !! "tangent" = None
                 ∧ g_tangents (mesh_geometry mesh)
                   = normalMapEnabled (mesh_material mesh))
              json lib vars' lib') with (name := name) (meshInfo := meshInfo)
    as (meshes & Hmeshes & Hlen & Hall); [|done|done|done|].
  { intros lib0 meshInfo0 vars meshes pp primitiveInfo vars1 meshes1 _ _ Hprim.
    unfold Meshes.parsePrimitive in Hprim.
    apply bind_Ok in Hprim
      as ([vars2 geometry] & Hattrs &
          (indices & Hindices & [= <- <-])%bind_Ok).
    apply parseAttributes_geometry in Hattrs as (_ & Htan & Hvalues & _).
    assert (g_attributes geometry !! "tangent" = None) as Hnone.
    { destruct (g_attributes geometry !! "tangent") as [value|] eqn:Hv;
        [|done].
      destruct (Hvalues _ _ Hv) as [Hin _].
      repeat (apply elem_of_cons in Hin as [Hin|Hin]; [discriminate Hin|]).
      inversion Hin. }
    eexists. split; [done|]. simpl.
    destruct (normalMapEnabled _); simpl; [by rewrite Hnone|done]. }
  exists meshes. split; [done|].
  intros mesh [pp Hmesh]%list_elem_of_lookup.
  destruct (lookup_lt_is_Some_2 (m_primitives meshInfo) pp)
    as [primitiveInfo Hpp];
    [rewrite <- Hlen; by eapply lookup_lt_Some|].
  by eapply Hall.
Qed.

(** X7.  Every typed view that [_parseMeshes] stores in a geometry, as an
    attribute or as the index array, is the empty array of a buffer that
    failed to load or lies inside its loaded buffer, at an offset that is a
    multiple of its element width: reading a geometry never reaches past a
    buffer. *)
Theorem parseMeshes_views_in_bounds (json : Json (num := num)) lib vars' lib'
    name meshInfo :
  NoDup (obj_keys (json_meshes json)) →
  _parseMeshes json lib = Ok (vars', lib') →
  obj_get (json_meshes json) name = Some meshInfo →
  ∃ meshes,
    lib_meshes lib' !! name = Some meshes
    ∧ lib_buffers lib' = lib_buffers lib
    ∧ ∀ mesh, mesh ∈ meshes →
        (∃ indices, g_indices (mesh_geometry mesh) = Some indices
                    ∧ view_in_bounds (lib_buffers lib) indices)
        ∧ ∀ attributeName v,
            g_attributes (mesh_geometry mesh) !! attributeName
            = Some (ViewValue v) →
            view_in_bounds (lib_buffers lib) v.
Proof.
  intros Hnd Hrun Hget.
  destruct (parseMeshes_each
              (λ _ _ _ mesh,
                 (∃ indices, g_indices (mesh_geometry mesh) = Some indices
                             ∧ view_in_bounds (lib_buffers lib) indices)
                 ∧ ∀ attributeName v,
                     g_attributes (mesh_geometry mesh) !! attributeName
                     = Some (ViewValue v) →
                     view_in_bounds (lib_buffers lib) v)
              json lib vars' lib') with (name := name) (meshInfo := meshInfo)
    as (meshes & Hmeshes & Hlen & Hall); [|done|done|done|].
  { intros lib0 meshInfo0 vars meshes pp primitiveInfo vars1 meshes1 Hbuf _
      Hprim.
    apply parsePrimitive_mesh in Hprim
      as (mesh & -> & _ & _ & _ & Hidx & Hviews & _).
    rewrite Hbuf in *. eauto. }
  exists meshes. split; [done|]. split.
  { revert Hrun. unfold Meshes._parseMeshes.
    apply (forM_invariant (λ st, lib_buffers st.2 = lib_buffers lib));
      [|done].
    intros [v l] [n mi] [v1 l1] _ Hl Hstep. simpl in *.
    unfold Meshes.parseMesh in Hstep.
    by apply bind_Ok in Hstep as ([? ?] & _ & [= <- <-]). }
  intros mesh [pp Hmesh]%list_elem_of_lookup.
  destruct (lookup_lt_is_Some_2 (m_primitives meshInfo) pp)
    as [primitiveInfo Hpp];
    [rewrite <- Hlen; by eapply lookup_lt_Some|].
  by eapply Hall.
Qed.

End MeshGeometryProperties.


Lemma parseMeshes_primitive_names_witness :
  ∃ vars' lib' meshes,
    Meshes._parseMeshes "default" MeshGeometry.ex_normalMapEnabled
      MeshGeometry.ex_json MeshGeometry.ex_lib = Ok (vars', lib')
    ∧ Meshes.lib_meshes lib' !! "mesh" = Some meshes
    ∧ (∀ pp mesh, meshes !! pp = Some mesh →
         Meshes.mesh_name mesh = Some ("body" +:+ "-" +:+ pretty pp))
    ∧ ∀ pp1 pp2 mesh1 mesh2,
        meshes !! pp1 = Some mesh1 → meshes !! pp2 = Some mesh2 →
        Meshes.mesh_name mesh1 = Meshes.mesh_name mesh2 → pp1 = pp2.
Proof.
  destruct (Meshes._parseMeshes "default" MeshGeometry.ex_normalMapEnabled
              MeshGeometry.ex_json MeshGeometry.ex_lib)
    as [[vars' lib']|e] eqn:Hrun; [|vm_compute in Hrun; discriminate Hrun].
  destruct (parseMeshes_primitive_names "default"
              MeshGeometry.ex_normalMapEnabled MeshGeometry.ex_json
              MeshGeometry.ex_lib vars' lib' "mesh"
              (Meshes.mkMeshInfo
                 [Meshes.mkPrimitive
                    [("POSITION", "acc_p"); ("TANGENT", "acc_w")] "acc_i"
                    "bumpy";
                  Meshes.mkPrimitive [("WEIGHT", "acc_w")] "acc_i" "none"]
                 (Some "body"))
              "body" (NoDup_singleton "mesh") Hrun)
    as (meshes & Hmeshes & Hnames & Hdistinct);
    [reflexivity|reflexivity|discriminate|simpl; lia|].
  exists vars', lib', meshes. split; [reflexivity|]. split; [exact Hmeshes|].
  split; [exact Hnames|exact Hdistinct].
Defined.

Lemma parseMeshes_bounding_box_witness :
  ∃ vars' lib' first second,
    Meshes._parseMeshes "default" MeshGeometry.ex_normalMapEnabled
      MeshGeometry.ex_json MeshGeometry.ex_lib = Ok (vars', lib')
    ∧ Meshes.lib_meshes lib' !! "mesh" = Some [first; second]
    ∧ Meshes.g_boundingBox_min (Meshes.mesh_geometry first)
      = Some [Some 0%Z; Some 1%Z; Some 2%Z]
    ∧ Meshes.g_boundingBox_max (Meshes.mesh_geometry first)
      = Some [Some 4%Z; Some 5%Z; None]
    ∧ Meshes.g_boundingBox_min (Meshes.mesh_geometry second) = None
    ∧ Meshes.g_boundingBox_max (Meshes.mesh_geometry second) = None.
Proof.
  destruct (Meshes._parseMeshes "default" MeshGeometry.ex_normalMapEnabled
              MeshGeometry.ex_json MeshGeometry.ex_lib)
    as [[vars' lib']|e] eqn:Hrun; [|vm_compute in Hrun; discriminate Hrun].
  destruct (parseMeshes_bounding_box "default"
              MeshGeometry.ex_normalMapEnabled MeshGeometry.ex_json
              MeshGeometry.ex_lib vars' lib' "mesh"
              (Meshes.mkMeshInfo
                 [Meshes.mkPrimitive
                    [("POSITION", "acc_p"); ("TANGENT", "acc_w")] "acc_i"
                    "bumpy";
                  Meshes.mkPrimitive [("WEIGHT", "acc_w")] "acc_i" "none"]
                 (Some "body"))
              (NoDup_singleton "mesh"))
    as (meshes & Hmeshes & Hbox); [|exact Hrun|reflexivity|].
  { repeat constructor; simpl; apply (bool_decide_unpack _); by vm_compute. }
  assert (length meshes = 2) as Hlen.
  { vm_compute in Hrun. injection Hrun as <- <-. vm_compute in Hmeshes.
    by injection Hmeshes as <-. }
  destruct meshes as [|first [|second [|? ?]]]; try discriminate Hlen.
  destruct (Hbox 0 _ first eq_refl eq_refl) as [Hmin1 Hmax1].
  destruct (Hbox 1 _ second eq_refl eq_refl) as [Hmin2 Hmax2].
  exists vars', lib', first, second. split; [reflexivity|].
  split; [exact Hmeshes|]. split; [exact Hmin1|]. split; [exact Hmax1|].
  split; [exact Hmin2|exact Hmax2].
Defined.

Lemma parseMeshes_tangents_witness :
  ∃ vars' lib' first second,
    Meshes._parseMeshes "default" MeshGeometry.ex_normalMapEnabled
      MeshGeometry.ex_json MeshGeometry.ex_lib = Ok (vars', lib')
    ∧ Meshes.lib_meshes lib' !! "mesh" = Some [first; second]
    ∧ Meshes.mesh_material first = "bumpy"
    ∧ Meshes.g_tangents (Meshes.mesh_geometry first) = true
    ∧ Meshes.mesh_material second = "default"
    ∧ Meshes.g_tangents (Meshes.mesh_geometry second) = false.
Proof.
  destruct (Meshes._parseMeshes "default" MeshGeometry.ex_normalMapEnabled
              MeshGeometry.ex_json MeshGeometry.ex_lib)
    as [[vars' lib']|e] eqn:Hrun; [|vm_compute in Hrun; discriminate Hrun].
  destruct (parseMeshes_tangents "default"
              MeshGeometry.ex_normalMapEnabled MeshGeometry.ex_json
              MeshGeometry.ex_lib vars' lib' "mesh"
              (Meshes.mkMeshInfo
                 [Meshes.mkPrimitive
                    [("POSITION", "acc_p"); ("TANGENT", "acc_w")] "acc_i"
                    "bumpy";
                  Meshes.mkPrimitive [("WEIGHT", "acc_w")] "acc_i" "none"]
                 (Some "body"))
              (NoDup_singleton "mesh") Hrun)
    as (meshes & Hmeshes & Htangents); [reflexivity|].
  assert (∃ first second, meshes = [first; second]
            ∧ Meshes.mesh_material first = "bumpy"
            ∧ Meshes.mesh_material second = "default")
    as (first & second & -> & Hfirst & Hsecond).
  { vm_compute in Hrun. injection Hrun as <- <-. vm_compute in Hmeshes.
    injection Hmeshes as <-. by eexists _, _. }
  destruct (Htangents first) as [_ Ht1]; [left|].
  destruct (Htangents second) as [_ Ht2]; [right; left|].
  exists vars', lib', first, second. split; [reflexivity|].
  split; [exact Hmeshes|]. split; [exact Hfirst|].
  split; [by rewrite Ht1, Hfirst|]. split; [exact Hsecond|].
  by rewrite Ht2, Hsecond.
Defined.

Lemma parseMeshes_views_in_bounds_witness :
  ∃ vars' lib' meshes,
    Meshes._parseMeshes "default" MeshGeometry.ex_normalMapEnabled
      MeshGeometry.ex_json MeshGeometry.ex_lib = Ok (vars', lib')
    ∧ Meshes.lib_meshes lib' !! "mesh" = Some meshes
    ∧ ∀ mesh, mesh ∈ meshes →
        (∃ indices,
           Meshes.g_indices (Meshes.mesh_geometry mesh) = Some indices
           ∧ MeshGeometry.view_in_bounds Meshes.ex_buffers indices)
        ∧ ∀ attributeName v,
            Meshes.g_attributes (Meshes.mesh_geometry mesh) !! attributeName
            = Some (Meshes.ViewValue v) →
            MeshGeometry.view_in_bounds Meshes.ex_buffers v.
Proof.
  destruct (Meshes._parseMeshes "default" MeshGeometry.ex_normalMapEnabled
              MeshGeometry.ex_json MeshGeometry.ex_lib)
    as [[vars' lib']|e] eqn:Hrun; [|vm_compute in Hrun; discriminate Hrun].
  destruct (parseMeshes_views_in_bounds "default"
              MeshGeometry.ex_normalMapEnabled MeshGeometry.ex_json
              MeshGeometry.ex_lib vars' lib' "mesh"
              (Meshes.mkMeshInfo
                 [Meshes.mkPrimitive
                    [("POSITION", "acc_p"); ("TANGENT", "acc_w")] "acc_i"
                    "bumpy";
                  Meshes.mkPrimitive [("WEIGHT", "acc_w")] "acc_i" "none"]
                 (Some "body"))
              (NoDup_singleton "mesh") Hrun)
    as (meshes & Hmeshes & _ & Hviews); [reflexivity|].
  exists vars', lib', meshes. split; [reflexivity|]. split; [exact Hmeshes|].
  exact Hviews.
Defined.

Lemma forM_app {A S : Type} (body : S → A → result S) l1 l2 s s' :
  forM body (l1 ++ l2) s = Ok s' →
  ∃ s1, forM body l1 s = Ok s1 ∧ forM body l2 s1 = Ok s'.
Proof.
  revert s. induction l1 as [|a l1 IH]; intros s; simpl; [eauto|].
  intros (s0 & Hbody & Hrest)%bind_Ok. rewrite Hbody. simpl. auto.
Qed.

Section NodeEntitiesProperties.
Import Nodes NodeEntities.

Context {num : Type}.
Variable decomposeMatrix : list num → list num * list num * list num.

Local Abbreviation SceneObject := (Nodes.SceneObject (num := num)).
Local Abbreviation parseNode := (Nodes.parseNode decomposeMatrix).
Local Abbreviation applyTransform := (Nodes.applyTransform decomposeMatrix).
Local Abbreviation setTransform := (Nodes.setTransform decomposeMatrix).
Local Abbreviation _parseNodes := (Nodes._parseNodes decomposeMatrix).

Lemma applyTransform_frame nodeInfo (st st' : State (num := num)) :
  applyTransform nodeInfo st = Ok st' →
  s_node st' = s_node st ∧ lib_meshes st' = lib_meshes st
  ∧ lib_nodes st' = lib_nodes st.
Proof.
  unfold Nodes.applyTransform. destruct (s_node st) eqn:Hn.
  - by intros [= <-].
  - repeat case_match; intros; by simplify_eq.
Qed.

Lemma selectVariant_node options (json : Json (num := num)) st nodeInfo st1 :
  selectVariant options json st nodeInfo = Ok st1 →
  lib_meshes st1 = lib_meshes st
  ∧ lib_nodes st1 = lib_nodes st
  ∧ if unresolved options (lib_meshes st) nodeInfo
    then s_node st1 = s_node st
    else is_Some (s_node st1).
Proof.
  unfold selectVariant, unresolved.
  destruct (branch options nodeInfo) as [camera|lightNames|meshKey|].
  - destruct (obj_get (json_cameras json) camera) as [cameraInfo|]; [|done].
    case_decide; intros [= <-]; simpl; eauto.
  - intros ([[store lights] warnings] & _ & Hnode)%bind_Ok.
    destruct lights as [|light [|light' lights]];
      injection Hnode as <-; simpl; eauto.
  - destruct (truthy meshKey ≫= (lib_meshes st !!.))
      as [[|primitive [|primitive' primitives]]|]; intros [= <-]; simpl;
      eauto.
  - intros [= <-]. simpl. eauto.
Qed.

(** One turn of the first loop over [json.nodes]. *)
Lemma parseNode_step options (json : Json (num := num)) st name nodeInfo st' :
  parseNode options json st (name, nodeInfo) = Ok st' →
  lib_meshes st' = lib_meshes st
  ∧ lib_nodes st' !! name = s_node st'
  ∧ (∀ name', name' ≠ name → lib_nodes st' !! name' = lib_nodes st !! name')
  ∧ if unresolved options (lib_meshes st) nodeInfo
    then s_node st' = s_node st
    else is_Some (s_node st').
Proof.
  unfold Nodes.parseNode.
  intros (st1 & Hselect & (st2 & Happly & [= <-])%bind_Ok)%bind_Ok. simpl.
  apply selectVariant_node in Hselect as (Hmeshes & Hnodes & Hnode).
  apply applyTransform_frame in Happly as (Hnode' & Hmeshes' & Hnodes').
  split; [congruence|]. split.
  { destruct (s_node st2); [apply lookup_insert_eq|apply lookup_delete_eq]. }
  split.
  { intros name' Hne. rewrite <- Hnodes, <- Hnodes'.
    destruct (s_node st2);
      [by rewrite lookup_insert_ne|by rewrite lookup_delete_ne]. }
  rewrite Hnode'. done.
Qed.

Lemma parseNodes_frame options (json : Json (num := num)) entries :
  ∀ st st',
    forM (parseNode options json) entries st = Ok st' →
    lib_meshes st' = lib_meshes st
    ∧ (is_Some (s_node st) → is_Some (s_node st'))
    ∧ ∀ name, name ∉ obj_keys entries →
        lib_nodes st' !! name = lib_nodes st !! name.
Proof.
  induction entries as [|[n i] entries IH]; intros st st'; simpl.
  - by intros [= <-].
  - intros (st1 & Hstep & Hrest)%bind_Ok.
    apply parseNode_step in Hstep as (Hmeshes & _ & Hother & Hnode).
    apply IH in Hrest as (Hmeshes' & Hkeep & Hother').
    split; [congruence|]. split.
    + intros Hsome. apply Hkeep.
      destruct (unresolved options (lib_meshes st) i); [|done].
      by rewrite Hnode.
    + intros name [Hne Hnot]%not_elem_of_cons.
      rewrite Hother' by done. by apply Hother.
Qed.

(** [node] is defined after a prefix of the descriptors exactly when one
    of them selects an entity. *)
Lemma parseNodes_node options (json : Json (num := num)) entries :
  ∀ st st',
    forM (parseNode options json) entries st = Ok st' →
    is_Some (s_node st')
    ↔ is_Some (s_node st)
      ∨ Exists (λ entry, unresolved options (lib_meshes st) entry.2 = false)
          entries.
Proof.
  induction entries as [|[n i] entries IH]; intros st st'; simpl.
  - intros [= <-]. rewrite Exists_nil. tauto.
  - intros (st1 & Hstep & Hrest)%bind_Ok.
    apply parseNode_step in Hstep as (Hmeshes & _ & _ & Hnode).
    apply IH in Hrest. rewrite Hrest, Exists_cons, Hmeshes. simpl.
    destruct (unresolved options (lib_meshes st) i).
    + rewrite Hnode. intuition congruence.
    + intuition.
Qed.

(** The first loop of [_parseNodes] and what the second keeps of it. *)
Lemma parseNodes_first_loop options (json : Json (num := num)) st st' :
  _parseNodes options json st = Ok st' →
  ∃ st1,
    forM (parseNode options json) (json_nodes json)
      (mkState (s_store st) (lib_nodes st) (lib_cameras st) (lib_meshes st)
         None (s_warnings st)) = Ok st1
    ∧ lib_nodes st' = lib_nodes st1.
Proof.
  unfold Nodes._parseNodes.
  intros (st1 & Hfirst & (store & _ & [= <-])%bind_Ok)%bind_Ok. eauto.
Qed.

(** X8.  [node] is a [var] of the whole function: a descriptor that takes
    the mesh branch with a mesh key that is missing or names no mesh of
    [lib.meshes] does not assign it, so after [_parseNodes] its name is
    registered in [lib.nodes] as the very entity of the descriptor before
    it (or as nothing if that one has none). *)
Theorem parseNodes_unresolved_mesh_alias options (json : Json (num := num))
    st st' pre name1 nodeInfo1 name2 nodeInfo2 post :
  NoDup (obj_keys (json_nodes json)) →
  _parseNodes options json st = Ok st' →
  json_nodes json
  = pre ++ (name1, nodeInfo1) :: (name2, nodeInfo2) :: post →
  unresolved options (lib_meshes st) nodeInfo2 = true →
  lib_nodes st' !! name2 = lib_nodes st' !! name1.
Proof.
  intros Hnd (st1 & Hloop & ->)%parseNodes_first_loop Hsplit Hlost.
  rewrite Hsplit in Hloop, Hnd.
  apply forM_app in Hloop as (sa & Hpre & Hloop). simpl in Hloop.
  apply bind_Ok in Hloop as (sb & Hfirst & Hloop).
  apply bind_Ok in Hloop as (sc & Hsecond & Hpost).
  apply parseNodes_frame in Hpre as (Hmeshes & _).
  apply parseNode_step in Hfirst as (Hmeshes1 & Hreg1 & _ & _).
  apply parseNode_step in Hsecond as (_ & Hreg2 & Hother2 & Hnode2).
  apply parseNodes_frame in Hpost as (_ & _ & Hkeep).
  simpl in Hmeshes. rewrite Hmeshes1, Hmeshes, Hlost in Hnode2.
  unfold obj_keys in Hnd. rewrite fmap_app in Hnd. simpl in Hnd.
  apply NoDup_app in Hnd as (_ & _ & Hnd).
  apply NoDup_cons in Hnd as [Hnot1 Hnd].
  apply NoDup_cons in Hnd as [Hnot2 _].
  apply not_elem_of_cons in Hnot1 as [Hne Hnot1].
  rewrite !Hkeep by done. rewrite Hreg2, Hnode2, <- Hreg1.
  symmetry. by apply Hother2.
Qed.

(** X9.  A node name is registered in [lib.nodes] exactly when its
    descriptor, or one before it in the document, selects an entity: after
    [_parseNodes] every descriptor from the first one with an entity on has
    an entry, resolved mesh or not, and the descriptors before it have
    none. *)
Theorem parseNodes_registered options (json : Json (num := num)) st st' pre
    name nodeInfo post :
  NoDup (obj_keys (json_nodes json)) →
  _parseNodes options json st = Ok st' →
  json_nodes json = pre ++ (name, nodeInfo) :: post →
  is_Some (lib_nodes st' !! name)
  ↔ Exists (λ entry, unresolved options (lib_meshes st) entry.2 = false)
      (pre ++ [(name, nodeInfo)]).
Proof.
  intros Hnd (st1 & Hloop & ->)%parseNodes_first_loop Hsplit.
  rewrite Hsplit in Hloop, Hnd.
  replace (pre ++ (name, nodeInfo) :: post)
    with ((pre ++ [(name, nodeInfo)]) ++ post) in Hloop
    by (by rewrite <- app_assoc).
  apply forM_app in Hloop as (sa & Hpre & Hpost).
  pose proof (parseNodes_node _ _ _ _ _ Hpre) as Hnode. simpl in Hnode.
  apply forM_app in Hpre as (s0 & _ & Hlast). simpl in Hlast.
  apply bind_Ok in Hlast as (sb & Hlast & [= ->]).
  apply parseNode_step in Hlast as (_ & Hreg & _ & _).
  apply parseNodes_frame in Hpost as (_ & _ & Hkeep).
  unfold obj_keys in Hnd. rewrite fmap_app in Hnd. simpl in Hnd.
  apply NoDup_app in Hnd as (_ & _ & Hnd).
  apply NoDup_cons in Hnd as [Hnot _].
  rewrite Hkeep by done. rewrite Hreg, Hnode.
  split; [intros [[? [=]]|?]; done|by right].
Qed.

(** The variant and the name of the entities of a store. *)
Local Abbreviation kind :=
  (λ o : SceneObject, (o_variant o, o_name o)).

Lemma alter_kind (f : SceneObject → SceneObject) l (store : list SceneObject) k :
  (∀ o, kind (f o) = kind o) →
  kind <$> alter f l store !! k = kind <$> store !! k.
Proof.
  intros Hf. destruct (decide (l = k)) as [<-|Hne].
  - rewrite list_lookup_alter_eq. destruct (store !! l); simpl; [|done].
    by rewrite Hf.
  - by rewrite list_lookup_alter_ne.
Qed.

Lemma Node_add_kind parent child (store : list SceneObject) k :
  kind <$> Node_add parent child store !! k = kind <$> store !! k.
Proof.
  unfold Node_add. destruct (store !! child) as [c|]; [|done].
  case_decide; [done|].
  rewrite alter_kind by done. rewrite alter_kind by done.
  destruct (o_parent c); [by rewrite alter_kind|done].
Qed.

Lemma foldl_Node_add_kind parent lights :
  ∀ (store : list SceneObject) k,
    kind <$> foldl (λ s light, Node_add parent light s) store lights !! k
    = kind <$> store !! k.
Proof.
  induction lights as [|light lights IH]; intros store k; simpl; [done|].
  by rewrite IH, Node_add_kind.
Qed.

Lemma parseLight_supported (lightInfo : LightInfo (num := num)) light warned :
  _parseLight lightInfo = Ok (light, warned) →
  if supported lightInfo
  then warned = [] ∧ ∃ o, light = Some o ∧ isLight (o_variant o) = true
  else light = None ∧ length warned = 1.
Proof.
  unfold _parseLight, supported.
  assert (∀ (params : option (LightParams (num := num))) ctor,
            (∀ c, isLight (ctor c) = true) →
            match params with
            | Some p =>
                Ok (Some (newObject (ctor (lp_color p)) (li_id lightInfo)),
                    [] : list string)
            | None => Err TypeError
            end = Ok (light, warned) →
            warned = [] ∧ ∃ o, light = Some o ∧ isLight (o_variant o) = true)
    as Hnew.
  { intros [p|] ctor Hctor; [|done]. intros [= <- <-]. split; [done|].
    eexists. split; [done|]. apply Hctor. }
  destruct (decide (li_type lightInfo = Some "point")) as [Hp|Hp].
  { rewrite bool_decide_true by auto. by apply Hnew. }
  destruct (decide (li_type lightInfo = Some "spot")) as [Hs|Hs].
  { rewrite bool_decide_true by auto. by apply Hnew. }
  destruct (decide (li_type lightInfo = Some "directional")) as [Hd|Hd].
  { rewrite bool_decide_true by auto. by apply Hnew. }
  rewrite bool_decide_false by tauto. by intros [= <- <-].
Qed.

(** The loop over the lights of a node: one new entity per light of a
    supported type, one warning per other light. *)
Lemma parseNodeLights_spec (json : Json (num := num)) lightNames
    (store : list SceneObject) warnings store' lights warnings' :
  forM (parseNodeLight json) lightNames (store, [], warnings)
    = Ok (store', lights, warnings') →
  ∃ news,
    store' = store ++ news
    ∧ Forall (λ o, isLight (o_variant o) = true) news
    ∧ length news = length (supportedLights json lightNames)
    ∧ lights = seq (length store) (length news)
    ∧ length warnings' + length news = length warnings + length lightNames.
Proof.
  intros Hloop.
  apply (forM_prefix_invariant
           (λ pre st,
              ∃ news,
                st.1.1 = store ++ news
                ∧ Forall (λ o, isLight (o_variant o) = true) news
                ∧ length news = length (supportedLights json pre)
                ∧ st.1.2 = seq (length store) (length news)
                ∧ length st.2 + length news = length warnings + length pre))
    in Hloop; [done| |].
  - exists []. simpl. by rewrite app_nil_r.
  - intros pre lightName post [[s ls] ws] [[s1 ls1] ws1] _
      (news & Hs & Hnews & Hlen & Hls & Hws) Hstep. simpl in *.
    unfold parseNodeLight in Hstep.
    destruct (obj_get (json_lights json) lightName) as [lightInfo|] eqn:Hinfo;
      [|done].
    assert (length (supportedLights json (pre ++ [lightName]))
            = length (supportedLights json pre)
              + if supported lightInfo then 1 else 0) as Hcount.
    { unfold supportedLights. rewrite filter_app, length_app. f_equal.
      assert (supportedName json lightName = supported lightInfo) as Hname
        by (unfold supportedName; by rewrite Hinfo).
      rewrite filter_cons, filter_nil.
      destruct (decide (supportedName json lightName = true)) as [Hyes|Hno];
        rewrite Hname in *; [by rewrite Hyes|].
      by destruct (supported lightInfo). }
    rewrite Hcount.
    apply bind_Ok in Hstep as ([light warned] & Hlight & Hpush).
    apply parseLight_supported in Hlight.
    destruct (supported lightInfo).
    + destruct Hlight as (-> & o & -> & Ho). injection Hpush as <- <- <-.
      exists (news ++ [o]). rewrite !length_app. simpl.
      split; [by rewrite Hs, app_assoc|].
      split; [apply Forall_app; by repeat constructor|].
      split; [lia|]. split; [|lia].
      rewrite seq_app, Hls, Hs, length_app. done.
    + destruct Hlight as (-> & Hwarned). injection Hpush as <- <- <-.
      exists news. rewrite !length_app, Hwarned. simpl.
      split; [done|]. split; [done|]. split; [lia|]. split; [done|lia].
Qed.

(** X10.  A node with lights becomes its light only when exactly one of
    the lights it names has a supported type: [parseNode] then registers
    that light, renamed to the node's name, and otherwise registers a plain
    container node; every light of another type costs one warning and
    gives no entity. *)
Theorem parseNode_lights options (json : Json (num := num)) st name nodeInfo
    lightNames st' :
  branch options nodeInfo = LightBranch lightNames →
  parseNode options json st (name, nodeInfo) = Ok st' →
  ∃ l o,
    lib_nodes st' !! name = Some l
    ∧ s_store st' !! l = Some o
    ∧ o_name o = n_name nodeInfo
    ∧ (if decide (length (supportedLights json lightNames) = 1)
       then isLight (o_variant o) = true
       else o_variant o = Node)
    ∧ length (s_warnings st') + length (supportedLights json lightNames)
      = length (s_warnings st) + length lightNames.
Proof.
  intros Hbranch. unfold Nodes.parseNode.
  intros (st1 & Hselect & (st2 & Happly & [= <-])%bind_Ok)%bind_Ok. simpl.
  unfold selectVariant in Hselect. rewrite Hbranch in Hselect.
  apply bind_Ok in Hselect as ([[store lights] warnings] & Hloop & Hnode).
  apply parseNodeLights_spec in Hloop
    as (news & -> & Hnews & Hlen & -> & Hwarn).
  rewrite <- Hlen.
  assert (∃ l o1, s_node st1 = Some l ∧ s_store st1 !! l = Some o1
            ∧ o_name o1 = n_name nodeInfo
            ∧ (if decide (length news = 1)
               then isLight (o_variant o1) = true
               else o_variant o1 = Node)
            ∧ s_warnings st1 = warnings) as (l & o1 & Hl & Ho1 & Hname & Hvar & Hw).
  { destruct news as [|o [|o' news]]; simpl in Hnode.
    - injection Hnode as <-. simpl. eexists _, _. split; [done|].
      rewrite app_nil_r. rewrite list_lookup_middle by done. done.
    - injection Hnode as <-. simpl. eexists _, _. split; [done|].
      rewrite list_lookup_alter_eq, list_lookup_middle by done. simpl.
      split; [done|]. split; [done|]. split; [|done].
      by apply Forall_cons_1 in Hnews as [? _].
    - injection Hnode as <-. simpl.
      pose proof (foldl_Node_add_kind
                    (length (s_store st ++ o :: o' :: news))
                    (length (s_store st)
                     :: S (length (s_store st))
                     :: seq (S (S (length (s_store st)))) (length news))
                    ((s_store st ++ o :: o' :: news)
                     ++ [newObject Node (n_name nodeInfo)])
                    (length (s_store st ++ o :: o' :: news))) as Hkind.
      rewrite list_lookup_middle in Hkind by done. simpl in Hkind.
      destruct (foldl _ _ _ !! _) as [o1|] eqn:Ho1 in Hkind; [|done].
      injection Hkind as Hv Hn.
      exists (length (s_store st ++ o :: o' :: news)), o1.
      split; [done|]. split; [exact Ho1|]. done. }
  unfold Nodes.applyTransform in Happly. rewrite Hl in Happly.
  injection Happly as <-. simpl.
  exists l, (setTransform nodeInfo o1). rewrite lookup_insert_eq.
  split; [done|]. rewrite list_lookup_alter_eq, Ho1. simpl.
  split; [done|].
  rewrite (setTransform_name decomposeMatrix),
    (setTransform_variant decomposeMatrix).
  split; [done|]. split; [done|]. rewrite Hw. lia.
Qed.

End NodeEntitiesProperties.

Lemma parseNodes_unresolved_mesh_alias_witness :
  ∃ st',
    Nodes._parseNodes Nodes.ex_decompose Nodes.ex_options NodeEntities.ex_json
      NodeEntities.ex_state = Ok st'
    ∧ Nodes.lib_nodes st' !! "body" = Nodes.lib_nodes st' !! "pivot".
Proof.
  destruct (Nodes._parseNodes Nodes.ex_decompose Nodes.ex_options
              NodeEntities.ex_json NodeEntities.ex_state)
    as [st'|e] eqn:Hrun; [|vm_compute in Hrun; discriminate Hrun].
  exists st'. split; [reflexivity|].
  apply (parseNodes_unresolved_mesh_alias Nodes.ex_decompose Nodes.ex_options
           NodeEntities.ex_json NodeEntities.ex_state st'
           [("ghost", Nodes.mkNodeInfo (Some "ghost") None None (Some ["lost"])
                        None None None None None None)]
           "pivot" (Nodes.mkNodeInfo (Some "pivot") None None None None None
                      None None None None)
           "body" (Nodes.mkNodeInfo (Some "body") None None (Some ["lost"])
                     None None None (Some [1; 2; 3]%Z) None None)
           []).
  - apply (bool_decide_unpack _). by vm_compute.
  - exact Hrun.
  - reflexivity.
  - reflexivity.
Defined.

Lemma parseNodes_registered_witness :
  ∃ st',
    Nodes._parseNodes Nodes.ex_decompose Nodes.ex_options NodeEntities.ex_json
      NodeEntities.ex_state = Ok st'
    ∧ ¬ is_Some (Nodes.lib_nodes st' !! "ghost")
    ∧ is_Some (Nodes.lib_nodes st' !! "body").
Proof.
  destruct (Nodes._parseNodes Nodes.ex_decompose Nodes.ex_options
              NodeEntities.ex_json NodeEntities.ex_state)
    as [st'|e] eqn:Hrun; [|vm_compute in Hrun; discriminate Hrun].
  assert (NoDup (obj_keys (Nodes.json_nodes NodeEntities.ex_json))) as Hnd
    by (apply (bool_decide_unpack _); by vm_compute).
  exists st'. split; [reflexivity|]. split.
  - intros Hghost.
    apply (parseNodes_registered Nodes.ex_decompose Nodes.ex_options
             NodeEntities.ex_json NodeEntities.ex_state st' [] "ghost"
             (Nodes.mkNodeInfo (Some "ghost") None None (Some ["lost"])
                None None None None None None)
             [("pivot", Nodes.mkNodeInfo (Some "pivot") None None None None
                          None None None None None);
              ("body", Nodes.mkNodeInfo (Some "body") None None
                         (Some ["lost"]) None None None (Some [1; 2; 3]%Z)
                         None None)]
             Hnd Hrun eq_refl) in Hghost.
    apply Exists_cons in Hghost as [Hghost|Hghost];
      [vm_compute in Hghost; discriminate Hghost|inversion Hghost].
  - apply (parseNodes_registered Nodes.ex_decompose Nodes.ex_options
             NodeEntities.ex_json NodeEntities.ex_state st'
             [("ghost", Nodes.mkNodeInfo (Some "ghost") None None
                          (Some ["lost"]) None None None None None None);
              ("pivot", Nodes.mkNodeInfo (Some "pivot") None None None None
                          None None None None None)]
             "body"
             (Nodes.mkNodeInfo (Some "body") None None (Some ["lost"]) None
                None None (Some [1; 2; 3]%Z) None None)
             [] Hnd Hrun eq_refl).
    apply Exists_cons_tl, Exists_cons_hd. reflexivity.
Defined.

Lemma parseNode_lights_witness :
  ∃ st' l o,
    Nodes.parseNode Nodes.ex_decompose Nodes.ex_options NodeEntities.ex_lights
      NodeEntities.ex_state
      ("lamp", Nodes.mkNodeInfo (Some "lamp") None (Some ["bulb"; "area"])
                 None None None None None None None) = Ok st'
    ∧ Nodes.lib_nodes st' !! "lamp" = Some l
    ∧ Nodes.s_store st' !! l = Some o
    ∧ Nodes.o_name o = Some "lamp"
    ∧ NodeEntities.isLight (Nodes.o_variant o) = true
    ∧ length (Nodes.s_warnings st') = 1.
Proof.
  destruct (Nodes.parseNode Nodes.ex_decompose Nodes.ex_options
              NodeEntities.ex_lights NodeEntities.ex_state
              ("lamp", Nodes.mkNodeInfo (Some "lamp") None
                         (Some ["bulb"; "area"]) None None None None None
                         None None))
    as [st'|e] eqn:Hrun; [|vm_compute in Hrun; discriminate Hrun].
  destruct (parseNode_lights Nodes.ex_decompose Nodes.ex_options
              NodeEntities.ex_lights NodeEntities.ex_state "lamp"
              (Nodes.mkNodeInfo (Some "lamp") None (Some ["bulb"; "area"])
                 None None None None None None None)
              ["bulb"; "area"] st' eq_refl Hrun)
    as (l & o & Hl & Ho & Hname & Hvariant & Hwarnings).
  exists st', l, o. split; [reflexivity|]. split; [exact Hl|].
  split; [exact Ho|]. split; [exact Hname|]. split; [exact Hvariant|].
  change (length (Nodes.s_warnings st') + 1 = 0 + 2) in Hwarnings. lia.
Defined.

Section AnimationTracksProperties.
Import Animations AnimationTracks.

Context {num : Type}.
Variable nan : num.
Variable mul1000 : num → num.
Variable setAxisAngle : num → num → num → num → num * num * num * num.

Local Abbreviation convertSample :=
  (Animations.convertSample nan mul1000 setAxisAngle).
Local Abbreviation convertRotations :=
  (Animations.convertRotations nan mul1000 setAxisAngle).
Local Abbreviation parseAnimation :=
  (Animations.parseAnimation nan mul1000 setAxisAngle).
Local Abbreviation _parseAnimations :=
  (Animations._parseAnimations nan mul1000 setAxisAngle).

Implicit Types (buffers : gmap string (list num)) (v w : View).

(** The parameters of a track are keyed by the parameter names. *)
Lemma parseParameters_lookup (json : Json) buffers entries :
  ∀ size (parameters : gmap string View) size' parameters',
    forM (parseParameter json buffers) entries (size, parameters)
      = Ok (size', parameters') →
    ∀ paramName,
      (paramName ∈ obj_keys entries → is_Some (parameters' !! paramName))
      ∧ (paramName ∉ obj_keys entries →
         parameters' !! paramName = parameters !! paramName).
Proof.
  induction entries as [|[k accessorName] entries IH];
    intros size parameters size' parameters'; simpl.
  - intros [= <- <-] paramName. split; [|done]. intros Hin. inversion Hin.
  - intros ([size1 parameters1] & Hstep & Hrest)%bind_Ok paramName.
    assert (∃ array, parameters1 = <[k := array]> parameters)
      as (array & ->).
    { unfold parseParameter in Hstep.
      destruct (obj_get (json_accessors json) accessorName); [|done].
      destruct (obj_get (json_bufferViews json) _); [|done].
      apply bind_Ok in Hstep as (array & _ & [= <- <-]). eauto. }
    destruct (IH _ _ _ _ Hrest paramName) as [Hin Hnot].
    destruct (decide (paramName ∈ obj_keys entries)) as [Hyes|Hno].
    + split; [auto|]. intros Hnot'. exfalso. apply Hnot'. by right.
    + rewrite Hnot by done. split.
      * intros [->|?]%elem_of_cons; [|done]. by rewrite lookup_insert_eq.
      * intros [Hne _]%not_elem_of_cons. by rewrite lookup_insert_ne.
Qed.

(** X11.  The time samples are scaled to milliseconds inside the rotation
    loop only: a track without a rotation parameter leaves every buffer as
    it is, so the clip it gives has no rotation channel and its life is the
    last time sample as the buffers hold it when the track is parsed, not
    scaled by this track. *)
Theorem parseAnimation_without_rotation (json : Json) nodes st animName
    animationInfo st' :
  "rotation" ∉ obj_keys (an_parameters animationInfo) →
  parseAnimation json nodes st (animName, animationInfo) = Ok st' →
  lib_buffers st' = lib_buffers st
  ∧ ∀ targetId clip, lib_clips st' !! targetId = Some clip →
      lib_clips st !! targetId = Some clip
      ∨ (animates animationInfo targetId
         ∧ clip_rotation clip = None
         ∧ clip_life clip = lastSample (lib_buffers st) (clip_time clip)).
Proof.
  intros Hnone. unfold Animations.parseAnimation.
  intros ([size parameters] & Hparams & Hrest)%bind_Ok.
  pose proof (parseParameters_lookup _ _ _ _ _ _ _ Hparams) as Hlookup.
  assert (parameters !! "rotation" = None) as Hrot.
  { destruct (Hlookup "rotation") as [_ Hr]. rewrite Hr by done.
    apply lookup_empty. }
  destruct (parameters !! "TIME") as [TIME|] eqn:HTIME.
  2:{ injection Hrest as <-. split; [done|]. by left. }
  destruct (an_channels animationInfo) as [|channel channels] eqn:Hchannels.
  { injection Hrest as <-. split; [done|]. by left. }
  destruct (nodes !! ch_target_id channel) as [targetNode|]; [|done].
  injection Hrest as <-. simpl.
  unfold Animations.convertRotations. rewrite HTIME, Hrot.
  split; [done|]. intros targetId clip.
  rewrite lookup_insert_Some. intros [[<- <-]|[_ Hold]]; [|by left].
  right. simpl. split; [|done]. split; [|by eexists _, _].
  destruct (decide ("TIME" ∈ obj_keys (an_parameters animationInfo)))
    as [Hin|Hnot]; [done|].
  destruct (Hlookup "TIME") as [_ Hempty]. rewrite Hempty in HTIME by done.
  by rewrite lookup_empty in HTIME.
Qed.

Lemma writeView_cells buffers v k x b :
  match buffers !! b with
  | Some cells =>
      ∃ cells', writeView buffers v k x !! b = Some cells'
        ∧ length cells' = length cells
        ∧ ∀ i, ¬ covers v b i → cells' !! i = cells !! i
  | None => writeView buffers v k x !! b = None
  end.
Proof.
  unfold writeView.
  assert (match buffers !! b with
          | Some cells =>
              ∃ cells', buffers !! b = Some cells'
                ∧ length cells' = length cells
                ∧ ∀ i, ¬ covers v b i → cells' !! i = cells !! i
          | None => buffers !! b = None
          end) as Hsame
    by (destruct (buffers !! b) as [cells|]; [by exists cells|done]).
  case_decide as Hk; [|done].
  destruct (f_buffer v) as [b'|] eqn:Hb; [|done].
  destruct (decide (b' = b)) as [->|Hne].
  - rewrite lookup_alter_eq. destruct (buffers !! b) as [cells|]; [|done].
    simpl. eexists. split; [done|]. split; [by rewrite length_insert|].
    intros i Hcover. apply list_lookup_insert_ne. intros <-.
    apply Hcover. split; [done|lia].
  - by rewrite lookup_alter_ne.
Qed.

Lemma untouched_refl TIME rotationArr b buffers :
  untouched TIME rotationArr b buffers buffers.
Proof.
  unfold untouched. destruct (buffers !! b) as [cells|] eqn:Hb; [|done].
  by exists cells.
Qed.

Lemma untouched_trans TIME rotationArr b buffers1 buffers2 buffers3 :
  untouched TIME rotationArr b buffers1 buffers2 →
  untouched TIME rotationArr b buffers2 buffers3 →
  untouched TIME rotationArr b buffers1 buffers3.
Proof.
  unfold untouched. destruct (buffers1 !! b) as [cells1|].
  - intros (cells2 & -> & Hlen2 & Hsame2) (cells3 & -> & Hlen3 & Hsame3).
    eexists. split; [done|]. split; [congruence|].
    intros i HT HR. by rewrite Hsame3, Hsame2.
  - by intros ->.
Qed.

Lemma untouched_write_TIME TIME rotationArr b buffers k x :
  untouched TIME rotationArr b buffers (writeView buffers TIME k x).
Proof.
  pose proof (writeView_cells buffers TIME k x b) as Hw. unfold untouched.
  destruct (buffers !! b); [|done].
  destruct Hw as (cells' & -> & Hlen & Hsame). eauto.
Qed.

Lemma untouched_write_rotation TIME rotationArr b buffers k x :
  untouched TIME rotationArr b buffers (writeView buffers rotationArr k x).
Proof.
  pose proof (writeView_cells buffers rotationArr k x b) as Hw. unfold untouched.
  destruct (buffers !! b); [|done].
  destruct Hw as (cells' & -> & Hlen & Hsame). eauto.
Qed.

Lemma convertSample_untouched TIME rotationArr b buffers i :
  untouched TIME rotationArr b buffers (convertSample TIME rotationArr buffers i).
Proof.
  unfold Animations.convertSample.
  destruct (setAxisAngle _ _ _ _) as [[[q0 q1] q2] q3]. cbv zeta.
  eapply untouched_trans; [|apply untouched_write_rotation].
  eapply untouched_trans; [|apply untouched_write_rotation].
  eapply untouched_trans; [|apply untouched_write_rotation].
  eapply untouched_trans; [|apply untouched_write_rotation].
  apply untouched_write_TIME.
Qed.

Lemma convertSamples_untouched TIME rotationArr b samples :
  ∀ buffers,
    untouched TIME rotationArr b buffers
      (foldl (convertSample TIME rotationArr) buffers samples).
Proof.
  induction samples as [|i samples IH]; intros buffers; cbn [foldl].
  - apply untouched_refl.
  - eapply untouched_trans; [apply convertSample_untouched|apply IH].
Qed.

(** X12.  The conversion of a rotation track writes in place and only
    through the track's two views: it removes no buffer, keeps the length
    of every buffer, and leaves every cell outside the windows of the TIME
    and rotation views as it was. *)
Theorem convertRotations_frame parameters buffers b cells :
  buffers !! b = Some cells →
  ∃ cells',
    convertRotations parameters buffers !! b = Some cells'
    ∧ length cells' = length cells
    ∧ ∀ i,
        (∀ TIME, parameters !! "TIME" = Some TIME → ¬ covers TIME b i) →
        (∀ rotationArr, parameters !! "rotation" = Some rotationArr →
           ¬ covers rotationArr b i) →
        cells' !! i = cells !! i.
Proof.
  intros Hcells. unfold Animations.convertRotations.
  destruct (parameters !! "TIME") as [TIME|]; [|by exists cells].
  destruct (parameters !! "rotation") as [rotationArr|]; [|by exists cells].
  pose proof (convertSamples_untouched TIME rotationArr b
                (seq 0 (f_length TIME)) buffers) as Hfold.
  unfold untouched in Hfold. rewrite Hcells in Hfold. destruct Hfold as (cells' & Hcells' & Hlen & Hsame).
  exists cells'. split; [done|]. split; [done|].
  intros i HT HR. apply Hsame; auto.
Qed.

(** X13.  [lib.clips] holds one clip per animated node: after
    [_parseAnimations] a node id has a clip exactly when some track of the
    document with a TIME parameter and a channel has it as the target of
    its first channel, and the clip carries the name and the entity of
    that node of [lib.nodes]. *)
Theorem parseAnimations_clips (json : Json) nodes buffers st' targetId :
  _parseAnimations json nodes buffers = Ok st' →
  (is_Some (lib_clips st' !! targetId)
   ↔ ∃ animName animationInfo,
       (animName, animationInfo) ∈ json_animations json
       ∧ animates animationInfo targetId)
  ∧ ∀ clip, lib_clips st' !! targetId = Some clip →
      ∃ targetNode,
        nodes !! targetId = Some targetNode
        ∧ clip_name clip = ne_name targetNode
        ∧ clip_target clip = ne_ref targetNode.
Proof.
  unfold Animations._parseAnimations. intros Hrun.
  apply (forM_prefix_invariant
           (λ pre st,
              (is_Some (lib_clips st !! targetId)
               ↔ ∃ animName animationInfo,
                   (animName, animationInfo) ∈ pre
                   ∧ animates animationInfo targetId)
              ∧ ∀ clip, lib_clips st !! targetId = Some clip →
                  ∃ targetNode,
                    nodes !! targetId = Some targetNode
                    ∧ clip_name clip = ne_name targetNode
                    ∧ clip_target clip = ne_ref targetNode))
    in Hrun; [done| |].
  - simpl. split.
    + rewrite lookup_empty. split; [by intros [? ?]|].
      intros (? & ? & Hin & _). inversion Hin.
    + intros clip Hclip. by rewrite lookup_empty in Hclip.
  - intros pre [animName animationInfo] post st st1 _ [Hdom Hclips] Hstep.
    unfold Animations.parseAnimation in Hstep.
    apply bind_Ok in Hstep as ([size parameters] & Hparams & Hrest).
    pose proof (parseParameters_lookup _ _ _ _ _ _ _ Hparams "TIME")
      as [HTin HTnot].
    assert ((lib_clips st1 = lib_clips st
             ∧ ¬ animates animationInfo targetId)
            ∨ (∃ clip targetNode,
                 animates animationInfo targetId
                 ∧ lib_clips st1 = <[targetId := clip]> (lib_clips st)
                 ∧ nodes !! targetId = Some targetNode
                 ∧ clip_name clip = ne_name targetNode
                 ∧ clip_target clip = ne_ref targetNode)
            ∨ (∃ other clip,
                 other ≠ targetId
                 ∧ ¬ animates animationInfo targetId
                 ∧ lib_clips st1 = <[other := clip]> (lib_clips st)))
      as Hcases.
    { destruct (parameters !! "TIME") as [TIME|] eqn:HTIME.
      2:{ injection Hrest as <-. left. split; [done|]. intros [Hin _].
          apply HTin in Hin as [? ?]. congruence. }
      destruct (an_channels animationInfo) as [|channel channels]
        eqn:Hchannels.
      { injection Hrest as <-. left. split; [done|].
        intros (_ & ? & ? & ? & _). congruence. }
      destruct (nodes !! ch_target_id channel) as [targetNode|] eqn:Hnode;
        [|done].
      injection Hrest as <-. simpl. right.
      assert ("TIME" ∈ obj_keys (an_parameters animationInfo)) as Hin.
      { destruct (decide ("TIME" ∈ obj_keys (an_parameters animationInfo)))
          as [?|Hnot]; [done|].
        specialize (HTnot Hnot). rewrite lookup_empty in HTnot.
        discriminate HTnot. }
      destruct (decide (ch_target_id channel = targetId)) as [<-|Hne].
      - left. eexists _, targetNode. split; [|done].
        split; [done|]. by eexists _, _.
      - right. eexists _, _. split; [done|]. split; [|done].
        intros (_ & channel' & channels' & Heq & Htarget).
        rewrite Hchannels in Heq. injection Heq as <- <-. done. }
    assert ((∃ n a, (n, a) ∈ pre ++ [(animName, animationInfo)]
                    ∧ animates a targetId)
            ↔ (∃ n a, (n, a) ∈ pre ∧ animates a targetId)
              ∨ animates animationInfo targetId) as Hsplit.
    { split.
      - intros (n & a & [Hin|Hin]%elem_of_app & Ha); [left; eauto|].
        apply list_elem_of_singleton in Hin as [= -> ->]. by right.
      - intros [(n & a & Hin & Ha)|Ha].
        + exists n, a. split; [|done]. apply elem_of_app. by left.
        + exists animName, animationInfo. split; [|done].
          apply elem_of_app. right. by apply list_elem_of_singleton. }
    rewrite Hsplit. clear Hsplit.
    destruct Hcases as [[-> Hnot]|[(clip & targetNode & Ha & -> & Hn & Hc)
                                  |(other & clip & Hne & Hnot & ->)]].
    + split; [|done]. rewrite Hdom. tauto.
    + rewrite lookup_insert_eq. split; [split; [by right|by eexists]|].
      intros ? [= <-]. by exists targetNode.
    + rewrite lookup_insert_ne by done. split; [|done]. rewrite Hdom. tauto.
Qed.

End AnimationTracksProperties.

Lemma parseAnimation_without_rotation_witness :
  ∃ st',
    Animations.parseAnimation 0%Z Animations.ex_mul1000
      Animations.ex_setAxisAngle AnimationTracks.ex_json Animations.ex_nodes
      (Animations.mkState AnimationTracks.ex_buffers ∅ None)
      ("slide", AnimationTracks.ex_slide) = Ok st'
    ∧ Animations.lib_buffers st' = AnimationTracks.ex_buffers
    ∧ ∀ clip, Animations.lib_clips st' !! "arm" = Some clip →
        Animations.clip_rotation clip = None
        ∧ Animations.clip_life clip
          = Animations.lastSample AnimationTracks.ex_buffers
              (Animations.clip_time clip).
Proof.
  destruct (Animations.parseAnimation 0%Z Animations.ex_mul1000
              Animations.ex_setAxisAngle AnimationTracks.ex_json
              Animations.ex_nodes
              (Animations.mkState AnimationTracks.ex_buffers ∅ None)
              ("slide", AnimationTracks.ex_slide))
    as [st'|e] eqn:Hrun; [|vm_compute in Hrun; discriminate Hrun].
  destruct (parseAnimation_without_rotation 0%Z Animations.ex_mul1000
              Animations.ex_setAxisAngle AnimationTracks.ex_json
              Animations.ex_nodes
              (Animations.mkState AnimationTracks.ex_buffers ∅ None)
              "slide" AnimationTracks.ex_slide st')
    as [Hbuffers Hclips].
  - intros Hin. vm_compute in Hin.
    repeat (apply elem_of_cons in Hin as [Hin|Hin]; [discriminate Hin|]).
    inversion Hin.
  - exact Hrun.
  - exists st'. split; [reflexivity|]. split; [exact Hbuffers|].
    intros clip Hclip.
    destruct (Hclips "arm" clip Hclip) as [Hold|(_ & Hrot & Hlife)].
    + simpl in Hold. rewrite lookup_empty in Hold. discriminate Hold.
    + split; [exact Hrot|exact Hlife].
Defined.

Lemma convertRotations_frame_witness :
  ∃ cells',
    Animations.convertRotations 0%Z Animations.ex_mul1000
      Animations.ex_setAxisAngle Animations.ex_parameters
      Animations.ex_shared_buffers !! "anim" = Some cells'
    ∧ length cells' = 18
    ∧ cells' !! 13 = Some 7%Z.
Proof.
  destruct (convertRotations_frame 0%Z Animations.ex_mul1000
              Animations.ex_setAxisAngle Animations.ex_parameters
              Animations.ex_shared_buffers "anim"
              [0; 2; 0; 0; 1; 3; 0; 1; 0; 5; 1; 0; 0; 7; 0; 0; 1; 9]%Z
              eq_refl)
    as (cells' & Hcells' & Hlen & Hsame).
  exists cells'. split; [exact Hcells'|]. split; [exact Hlen|].
  rewrite (Hsame 13); [reflexivity| |].
  - intros TIME HT. vm_compute in HT. injection HT as <-.
    intros [_ Hrange]. simpl in Hrange. lia.
  - intros rotationArr HR. vm_compute in HR. injection HR as <-.
    intros [_ Hrange]. simpl in Hrange. lia.
Defined.

Lemma parseAnimations_clips_witness :
  ∃ st',
    Animations._parseAnimations 0%Z Animations.ex_mul1000
      Animations.ex_setAxisAngle Animations.ex_shared_json
      Animations.ex_shared_nodes Animations.ex_shared_buffers = Ok st'
    ∧ is_Some (Animations.lib_clips st' !! "leg")
    ∧ ¬ is_Some (Animations.lib_clips st' !! "torso").
Proof.
  destruct (Animations._parseAnimations 0%Z Animations.ex_mul1000
              Animations.ex_setAxisAngle Animations.ex_shared_json
              Animations.ex_shared_nodes Animations.ex_shared_buffers)
    as [st'|e] eqn:Hrun; [|vm_compute in Hrun; discriminate Hrun].
  exists st'. split; [reflexivity|]. split.
  - apply (parseAnimations_clips 0%Z Animations.ex_mul1000
             Animations.ex_setAxisAngle Animations.ex_shared_json
             Animations.ex_shared_nodes Animations.ex_shared_buffers st'
             "leg" Hrun).
    eexists "spinLeg", _. split; [right; left|].
    split; [left|]. by eexists _, _.
  - intros Hsome.
    apply (parseAnimations_clips 0%Z Animations.ex_mul1000
             Animations.ex_setAxisAngle Animations.ex_shared_json
             Animations.ex_shared_nodes Animations.ex_shared_buffers st'
             "torso" Hrun) in Hsome as (animName & animationInfo & Hin & Ha).
    destruct Ha as (_ & channel & channels & Hchannels & Htarget).
    repeat (apply elem_of_cons in Hin as [Hin|Hin];
            [injection Hin as -> ->; injection Hchannels as <- <-;
             discriminate Htarget|]).
    inversion Hin.
Defined.

Section MaterialDocumentsProperties.
Import Materials MaterialDocuments.

Context {num : Type}.
Variable num_truthy : num → bool.
Variable Math_log : num → num.
Variable div : num → num → num.
Variable sub : num → num → num.
Variable one half n8192 : num.
Variable toNumber : UValue (num := num) → num.

Local Abbreviation parseMaterial :=
  (Materials.parseMaterial num_truthy Math_log div sub one half n8192 toNumber).
Local Abbreviation parseMaterialEntry :=
  (Materials.parseMaterialEntry num_truthy Math_log div sub one half n8192
     toNumber).
Local Abbreviation _parseMaterials :=
  (Materials._parseMaterials num_truthy Math_log div sub one half n8192
     toNumber).

(** The descriptor as the stage leaves it in the document. *)
Local Abbreviation rewritten :=
  (λ textures (materialInfo : MaterialInfo (num := num)),
     resolveUniforms textures (mergeInstanceTechnique materialInfo)).

Lemma rewritten_plain textures (materialInfo : MaterialInfo (num := num)) :
  plain (resolveUniforms textures (mergeInstanceTechnique materialInfo)).
Proof.
  split.
  - unfold mergeInstanceTechnique.
    by destruct (m_instanceTechnique materialInfo) eqn:Hit.
  - intros uniforms. simpl.
    destruct (m_values (mergeInstanceTechnique materialInfo)) as [values|];
      [|done].
    intros [= <-]. unfold resolveValues. apply Forall_forall.
    intros entry ([symbol value] & -> & _)%list_elem_of_fmap s. simpl.
    destruct value; try done. simpl. by destruct (textures !! s0).
Qed.

(** The stage reads a descriptor only as it leaves it. *)
Lemma parseMaterial_rewritten options techniques textures materialInfo :
  parseMaterial options techniques textures
    (resolveUniforms textures (mergeInstanceTechnique materialInfo))
  = parseMaterial options techniques textures materialInfo.
Proof.
  pose proof (rewritten_plain textures materialInfo) as Hplain.
  pose proof (resolveUniforms_plain textures _ Hplain) as Hresolve.
  assert (mergeInstanceTechnique
            (resolveUniforms textures (mergeInstanceTechnique materialInfo))
          = resolveUniforms textures (mergeInstanceTechnique materialInfo))
    as Hmerge.
  { destruct Hplain as [Hit _]. unfold mergeInstanceTechnique at 1.
    by rewrite Hit. }
  rewrite Hmerge in Hresolve.
  unfold Materials.parseMaterial. cbv zeta. rewrite Hmerge, Hresolve. done.
Qed.

Lemma parseMaterials_again options techniques textures
    (materials : gmap string Material) entries :
  ∀ done,
    Forall (λ entry : string * MaterialInfo (num := num),
              ∃ material,
                parseMaterial options techniques textures entry.2
                = Ok (entry.2, material)
                ∧ materials !! entry.1 = Some material) entries →
    forM (parseMaterialEntry options techniques textures) entries
      (done, materials) = Ok (done ++ entries, materials).
Proof.
  induction entries as [|[name materialInfo] entries IH]; intros done0 Hall;
    simpl.
  - by rewrite app_nil_r.
  - apply Forall_cons_1 in Hall as [(material & Hparse & Hlook) Hall].
    simpl in *. rewrite Hparse. simpl. rewrite insert_id by done.
    rewrite IH by done. by rewrite <- app_assoc.
Qed.

(** X14.  [_parseMaterials] rewrites the material descriptors of the
    document, and a document it has rewritten is a fixed point: run again
    on the document and the material table that a first run left, the stage
    completes, leaves the document as it is and builds the same
    materials. *)
Theorem parseMaterials_idempotent options textures json materials json'
    materials' :
  NoDup (obj_keys (json_materials json)) →
  _parseMaterials options textures json materials = Ok (json', materials') →
  _parseMaterials options textures json' materials' = Ok (json', materials').
Proof.
  intros Hnd. unfold Materials._parseMaterials.
  intros ([materialInfos ms] & Hloop & [= <- <-])%bind_Ok. simpl.
  apply (forM_prefix_invariant
           (λ pre st,
              st.1 = map (λ entry,
                            (entry.1,
                             resolveUniforms textures
                               (mergeInstanceTechnique entry.2))) pre
              ∧ Forall (λ entry : string * MaterialInfo (num := num),
                          ∃ material,
                            parseMaterial options
                              (parseTechniques (json_techniques json) ∅)
                              textures entry.2
                            = Ok (resolveUniforms textures
                                    (mergeInstanceTechnique entry.2),
                                  material)
                            ∧ st.2 !! entry.1 = Some material) pre))
    in Hloop.
  - simpl in Hloop. destruct Hloop as [-> Hall].
    rewrite parseMaterials_again; [done|]. rewrite Forall_fmap.
    eapply Forall_impl; [exact Hall|].
    intros [name materialInfo] (material & Hparse & Hlook). simpl in *.
    exists material. by rewrite parseMaterial_rewritten.
  - split; [done|constructor].
  - intros pre [name materialInfo] post [done0 ms0] [done1 ms1] Hsplit
      [Hdone Hpre]. simpl in *.
    intros ([materialInfo' material] & Hstep & [= <- <-])%bind_Ok.
    pose proof (parseMaterial_descriptor _ _ _ _ _ _ _ _ _ _ _ _ _ _ Hstep)
      as ->.
    split; [by rewrite map_app, Hdone|].
    apply Forall_app. split.
    + rewrite Forall_forall in Hpre. apply Forall_forall.
      intros [name' materialInfo'] Hin.
      destruct (Hpre _ Hin) as (material' & Hparse & Hlook).
      exists material'. split; [done|]. simpl in *.
      rewrite lookup_insert_ne; [done|].
      intros ->. by eapply (obj_keys_fresh (json_materials json)).
    + repeat constructor. exists material. simpl.
      by rewrite lookup_insert_eq.
Qed.

Lemma parseMaterial_total options techniques textures materialInfo :
  processable techniques textures materialInfo →
  ∃ materialInfo' material,
    parseMaterial options techniques textures materialInfo
    = Ok (materialInfo', material).
Proof.
  intros ([states Hstates] & uniforms & Hvalues & Hemission & Hspecular).
  unfold Materials.parseMaterial. rewrite Hvalues.
  replace (m_technique
             (resolveUniforms textures (mergeInstanceTechnique materialInfo)))
    with (m_technique (mergeInstanceTechnique materialInfo)) in Hstates by done.
  rewrite Hstates.
  assert (∀ v : option (UValue (num := num)),
            (∀ w, notNull v = Some w → ∃ a, w = UArr a) →
            ∃ r : option (UValue (num := num)),
              match notNull v with
              | Some w => Some <$> slice3 w
              | None => Ok None
              end = Ok r) as Hslice.
  { intros v Harr. destruct (notNull v) as [w|]; [|by eexists].
    destruct (Harr w eq_refl) as [a ->]. by eexists. }
  destruct (Hslice _ Hemission) as [emission ->].
  destruct (Hslice _ Hspecular) as [specular ->]. simpl. by eexists _, _.
Qed.

Lemma parseMaterial_processable options techniques textures materialInfo
    materialInfo' material :
  parseMaterial options techniques textures materialInfo
    = Ok (materialInfo', material) →
  processable techniques textures materialInfo.
Proof.
  unfold Materials.parseMaterial, processable.
  destruct (m_values _) as [uniforms|] eqn:Hvalues; [|done].
  replace (m_technique
             (resolveUniforms textures (mergeInstanceTechnique materialInfo)))
    with (m_technique (mergeInstanceTechnique materialInfo)) by done.
  destruct (techniques !! _) as [states|]; [|done].
  intros (emission & Hemission & (specular & Hspecular & _)%bind_Ok)%bind_Ok.
  split; [by eexists|]. exists uniforms. split; [done|].
  assert (∀ (v : option (UValue (num := num))) r,
            match notNull v with
            | Some w => Some <$> slice3 w
            | None => Ok None
            end = Ok r →
            ∀ w, notNull v = Some w → ∃ a, w = UArr a) as Hslice.
  { intros v r Hr w Hw. rewrite Hw in Hr. destruct w; try done. eauto. }
  split; by eapply Hslice.
Qed.

(** X15.  [_parseMaterials] completes exactly on the documents all of
    whose materials it can process: each names, after the merge of its
    [instanceTechnique], a technique with states and has values, and its
    emission and specular uniforms, once the textures are resolved, are
    arrays, [null] or missing; on any other document it throws. *)
Theorem parseMaterials_completes_iff options textures json materials :
  (∃ json' materials',
     _parseMaterials options textures json materials = Ok (json', materials'))
  ↔ Forall (λ entry : string * MaterialInfo (num := num),
              processable (parseTechniques (json_techniques json) ∅) textures
                entry.2)
      (json_materials json).
Proof.
  unfold Materials._parseMaterials. split.
  - intros (json' & materials' &
            ([materialInfos ms] & Hloop & _)%bind_Ok).
    apply (forM_Ok_each (λ _, True)) in Hloop as [_ Hall]; [|done|done].
    eapply Forall_impl; [exact Hall|].
    intros [name materialInfo] ([d0 m0] & [d1 m1] & _ & Hstep). simpl in *.
    apply bind_Ok in Hstep as ([materialInfo' material] & Hparse & _).
    by eapply parseMaterial_processable.
  - intros Hall. rewrite Forall_forall in Hall.
    destruct (forM_total (λ _, True)
                (parseMaterialEntry options
                   (parseTechniques (json_techniques json) ∅) textures)
                (json_materials json)) with (s := ([] : list (string * MaterialInfo (num := num)), materials))
      as ([materialInfos ms] & Hloop & _); [|done|].
    + intros [d0 m0] [name materialInfo] Hin _. simpl.
      destruct (parseMaterial_total options _ textures materialInfo
                  (Hall _ Hin)) as (materialInfo' & material & ->).
      simpl. eauto.
    + rewrite Hloop. simpl. eauto.
Qed.

Lemma obj_get_resolveValues textures (uniforms : list (string * UValue (num := num)))
    symbol :
  obj_get (resolveValues textures uniforms) symbol
  = resolveUniform textures <$> obj_get uniforms symbol.
Proof.
  unfold resolveValues.
  induction uniforms as [|[k v] uniforms IH]; simpl; [done|].
  by case_decide.
Qed.

Lemma lookup_setShininess_ne shininess
    (values : gmap string (UValue (num := num))) symbol :
  symbol ≠ "shininess" → symbol ≠ "roughness" → symbol ≠ "glossiness" →
  Materials.setShininess Math_log div sub one half n8192 toNumber shininess
    values !! symbol
  = values !! symbol.
Proof.
  intros H1 H2 H3. unfold Materials.setShininess.
  destruct (notNull shininess); cbv zeta;
    by rewrite !lookup_insert_ne by done.
Qed.

(** X16.  A diffuse uniform that names a texture missing from
    [lib.textures] is no error: the stage puts [null] in its place in the
    document and builds the material without a color, without a diffuse map
    and with no [diffuseMap] among the textures of its shader. *)
Theorem parseMaterial_missing_texture options techniques textures
    materialInfo uniforms textureName materialInfo' material :
  m_values (mergeInstanceTechnique materialInfo) = Some uniforms →
  obj_get uniforms "diffuse" = Some (UStr textureName) →
  textures !! textureName = None →
  parseMaterial options techniques textures materialInfo
    = Ok (materialInfo', material) →
  (∃ uniforms', m_values materialInfo' = Some uniforms'
                ∧ obj_get uniforms' "diffuse" = Some UNull)
  ∧ mat_values material !! "color" = None
  ∧ mat_values material !! "diffuseMap" = None
  ∧ "diffuseMap" ∉ mat_enabledTextures material.
Proof.
  intros Hvalues Hdiffuse Hmissing Hrun.
  pose proof (parseMaterial_descriptor _ _ _ _ _ _ _ _ _ _ _ _ _ _ Hrun)
    as ->.
  assert (obj_get (resolveValues textures uniforms) "diffuse" = Some UNull)
    as Hresolved.
  { rewrite obj_get_resolveValues, Hdiffuse. simpl. by rewrite Hmissing. }
  split.
  { exists (resolveValues textures uniforms). split; [|done].
    simpl. by rewrite Hvalues. }
  revert Hrun. unfold Materials.parseMaterial. simpl. rewrite Hvalues. simpl.
  destruct (techniques !! _) as [states|]; [|done].
  rewrite Hresolved. simpl.
  intros (emission & _ & (specular & _ & [= <-])%bind_Ok)%bind_Ok. simpl.
  rewrite !lookup_setIf_ne, !lookup_setShininess_ne, !lookup_setIf_ne by done.
  rewrite !lookup_empty. do 2 (split; [done|]).
  destruct (useStandardMaterial options); [by intros ?%elem_of_nil|].
  destruct (isTexture _); intros Hin.
  - apply list_elem_of_singleton in Hin. discriminate Hin.
  - by apply elem_of_nil in Hin.
Qed.

End MaterialDocumentsProperties.

Lemma parseMaterials_idempotent_witness :
  ∃ json' materials',
    Materials._parseMaterials Materials.ex_truthy Materials.ex_log
      Materials.ex_div Z.sub 1000%Z 500%Z 8192%Z Materials.ex_toNumber
      Materials.ex_options Materials.ex_textures Materials.ex_json ∅
    = Ok (json', materials')
    ∧ json' ≠ Materials.ex_json
    ∧ Materials._parseMaterials Materials.ex_truthy Materials.ex_log
        Materials.ex_div Z.sub 1000%Z 500%Z 8192%Z Materials.ex_toNumber
        Materials.ex_options Materials.ex_textures json' materials'
      = Ok (json', materials').
Proof.
  destruct (Materials._parseMaterials Materials.ex_truthy Materials.ex_log
              Materials.ex_div Z.sub 1000%Z 500%Z 8192%Z Materials.ex_toNumber
              Materials.ex_options Materials.ex_textures Materials.ex_json ∅)
    as [[json' materials']|e] eqn:Hrun;
    [|vm_compute in Hrun; discriminate Hrun].
  exists json', materials'. split; [reflexivity|]. split.
  - vm_compute in Hrun. injection Hrun as <- _. discriminate.
  - apply (parseMaterials_idempotent Materials.ex_truthy Materials.ex_log
             Materials.ex_div Z.sub 1000%Z 500%Z 8192%Z Materials.ex_toNumber
             Materials.ex_options Materials.ex_textures Materials.ex_json ∅
             json' materials');
      [apply (NoDup_singleton "mat")|exact Hrun].
Defined.

Lemma parseMaterial_missing_texture_witness :
  ∃ materialInfo' material,
    Materials.parseMaterial Materials.ex_truthy Materials.ex_log
      Materials.ex_div Z.sub 1000%Z 500%Z 8192%Z Materials.ex_toNumber
      Materials.ex_options Materials.ex_techniques Materials.ex_textures
      MaterialDocuments.ex_material = Ok (materialInfo', material)
    ∧ Materials.mat_values material !! "color" = None
    ∧ Materials.mat_values material !! "diffuseMap" = None
    ∧ "diffuseMap" ∉ Materials.mat_enabledTextures material.
Proof.
  destruct (Materials.parseMaterial Materials.ex_truthy Materials.ex_log
              Materials.ex_div Z.sub 1000%Z 500%Z 8192%Z Materials.ex_toNumber
              Materials.ex_options Materials.ex_techniques
              Materials.ex_textures MaterialDocuments.ex_material)
    as [[materialInfo' material]|e] eqn:Hrun;
    [|vm_compute in Hrun; discriminate Hrun].
  destruct (parseMaterial_missing_texture Materials.ex_truthy Materials.ex_log
              Materials.ex_div Z.sub 1000%Z 500%Z 8192%Z Materials.ex_toNumber
              Materials.ex_options Materials.ex_techniques
              Materials.ex_textures MaterialDocuments.ex_material
              [("diffuse", Materials.UStr "lost");
               ("shininess", Materials.UNum 64%Z)]
              "lost" materialInfo' material)
    as (_ & Hcolor & Hmap & Henabled);
    [reflexivity|reflexivity|by vm_compute|exact Hrun|].
  exists materialInfo', material. split; [reflexivity|].
  split; [exact Hcolor|]. split; [exact Hmap|exact Henabled].
Defined.

Section LoaderProperties.
Import Loader.

Lemma lastIndexOf_free c s : free_of c s = true → lastIndexOf c s = (-1)%Z.
Proof.
  induction s as [|a s IH]; simpl; [done|].
  intros [Ha Hs]%andb_prop. rewrite IH by done.
  apply bool_decide_eq_true in Ha.
  rewrite decide_False by lia. by rewrite decide_False.
Qed.

Lemma lastIndexOf_app c dir file :
  free_of c file = true →
  lastIndexOf c (dir +:+ String c file) = Z.of_nat (String.length dir).
Proof.
  intros Hfree. induction dir as [|a dir IH]; simpl.
  - rewrite lastIndexOf_free by done.
    rewrite decide_False by lia. by rewrite decide_True.
  - rewrite IH. rewrite decide_True by lia. lia.
Qed.

Lemma substring_append dir rest :
  String.substring 0 (String.length dir) (dir +:+ rest) = dir.
Proof.
  induction dir as [|a dir IH]; simpl; [by destruct rest|]. by rewrite IH.
Qed.

Lemma length_append s1 s2 :
  String.length (s1 +:+ s2) = String.length s1 + String.length s2.
Proof. induction s1 as [|a s1 IH]; simpl; [done|]. by rewrite IH. Qed.

Lemma slice0_append dir rest :
  slice0 (dir +:+ rest) (Z.of_nat (String.length dir)) = dir.
Proof.
  unfold slice0. rewrite decide_False by lia. rewrite length_append.
  rewrite Z.min_l by lia. rewrite Nat2Z.id. apply substring_append.
Qed.

(** X17.  A document loaded from [dir/file] has its buffers requested
    next to it: with no root path configured, [load] takes [dir] for the
    root path and [_loadBuffer] requests the buffer [path] at [dir/path];
    when [dir] is empty (a document at [/file]) the root path is falsy and
    the buffer is requested at [path] itself, not at [/path]. *)
Theorem load_buffer_url paths dir file path :
  rootPath paths = None → bufferRootPath paths = None →
  free_of slash file = true →
  rootPath (load paths (dir +:+ "/" +:+ file)) = Some dir
  ∧ _loadBuffer (load paths (dir +:+ "/" +:+ file)) (Some path)
    = Some (if decide (dir = "") then path else dir +:+ "/" +:+ path).
Proof.
  intros Hroot Hbuffer Hfree. unfold load, _loadBuffer. rewrite Hroot. simpl.
  rewrite Hbuffer.
  change ("/" +:+ file) with (String slash file).
  rewrite lastIndexOf_app by done. rewrite slice0_append.
  split; [done|]. by case_decide.
Qed.

(** X18.  [load] does not check that the url has a slash: for a url
    without one [lastIndexOf] is -1 and [slice(0, -1)] drops the last
    character, so the root path of the document is its url without the
    last character, and the buffers are requested below that. *)
Theorem load_url_without_slash paths url path :
  rootPath paths = None → bufferRootPath paths = None →
  free_of slash url = true →
  let root := String.substring 0 (String.length url - 1) url in
  rootPath (load paths url) = Some root
  ∧ _loadBuffer (load paths url) (Some path)
    = Some (if decide (root = "") then path else root +:+ "/" +:+ path).
Proof.
  intros Hroot Hbuffer Hfree. unfold load, _loadBuffer. rewrite Hroot.
  cbn [rootPath bufferRootPath]. rewrite Hbuffer.
  rewrite lastIndexOf_free by done.
  assert (slice0 url (-1)
          = String.substring 0 (String.length url - 1) url) as ->.
  { unfold slice0. rewrite decide_True by lia. f_equal. lia. }
  cbv zeta. split; [done|]. by case_decide.
Qed.

Lemma requests_run paths buffers :
  ∀ st,
    let st' := foldl (step paths) st (requests buffers) in
    loading st' = (loading st + Z.of_nat (length buffers))%Z
    ∧ lib_buffers st' = lib_buffers st
    ∧ started st' = started st.
Proof.
  induction buffers as [|[name bufferInfo] buffers IH]; intros st; simpl.
  - split; [lia|done].
  - destruct (IH (step paths st (Request name bufferInfo)))
      as (Hloading & Hbuffers & Hstarted).
    simpl in *. rewrite Hloading, Hbuffers, Hstarted. split; [lia|done].
Qed.

Lemma callbacks_run paths callbacks :
  ∀ st,
    Forall (λ event, isRequest event = false) callbacks →
    started st = [] →
    (Z.of_nat (length callbacks) ≤ loading st)%Z →
    let st' := foldl (step paths) st callbacks in
    loading st' = (loading st - Z.of_nat (length callbacks))%Z
    ∧ lib_buffers st' = loaded callbacks (lib_buffers st)
    ∧ started st'
      = if decide (callbacks ≠ []
                   ∧ loading st = Z.of_nat (length callbacks))
        then [loaded callbacks (lib_buffers st)] else [].
Proof.
  induction callbacks as [|event callbacks IH] using rev_ind;
    intros st Hall Hstarted Hlen.
  - unfold loaded. cbn [foldl length]. split; [lia|]. split; [done|].
    destruct (decide _) as [[Hne _]|_]; done.
  - apply Forall_app in Hall as [Hall Hevent].
    apply Forall_cons_1 in Hevent as [Hevent _].
    rewrite length_app in *. cbn [length] in *.
    destruct (IH st Hall Hstarted) as (Hloading & Hbuffers & Hfired);
      [lia|].
    rewrite decide_False in Hfired by lia.
    unfold loaded. rewrite !foldl_app. cbn [foldl].
    fold (loaded callbacks (lib_buffers st)).
    assert (∀ st1 : State,
              loading st1 = (loading st - Z.of_nat (length callbacks))%Z →
              started st1 = [] →
              loading (settle st1)
              = (loading st - Z.of_nat (length callbacks + 1))%Z
              ∧ lib_buffers (settle st1) = lib_buffers st1
              ∧ started (settle st1)
                = if decide (callbacks ++ [event] ≠ []
                             ∧ loading st
                               = Z.of_nat (length callbacks + 1))
                  then [lib_buffers st1] else []) as Hsettle.
    { intros st1 Hl Hs. unfold settle. simpl. rewrite Hl, Hs.
      split; [lia|]. split; [done|].
      destruct (decide (loading st = Z.of_nat (length callbacks + 1)))
        as [Heq|Hne].
      - rewrite decide_True by lia. rewrite decide_True; [done|].
        split; [|done]. by destruct callbacks.
      - rewrite decide_False by lia. rewrite decide_False; [done|].
        by intros [_ ?]. }
    destruct event as [name bufferInfo|name buffer|]; [done| |];
      cbn [step].
    + destruct (Hsettle
                  (mkState (loading (foldl (step paths) st callbacks))
                     (<[name := buffer]>
                        (lib_buffers (foldl (step paths) st callbacks)))
                     (requested (foldl (step paths) st callbacks))
                     (started (foldl (step paths) st callbacks))))
        as (Hl & Hb & Hs); [done|done|].
      rewrite Hl, Hb, Hs. cbn [lib_buffers]. rewrite Hbuffers. done.
    + destruct (Hsettle (foldl (step paths) st callbacks))
        as (Hl & Hb & Hs); [done|done|].
      rewrite Hl, Hb, Hs, Hbuffers. done.
Qed.

(** X19.  [parse] starts the stages exactly once, when the last of the
    buffer requests has completed: if every request of the loop over
    [json.buffers] is answered by one callback after the loop, in any order
    and whether the load succeeds or fails, [afterLoadBuffer] has not run
    before the last callback and runs in it, on the buffers that loaded;
    for a document without buffers it never runs. *)
Theorem parse_starts_once paths buffers callbacks :
  Forall (λ event, isRequest event = false) callbacks →
  length callbacks = length buffers →
  started (foldl (step paths) parse_start (requests buffers ++ callbacks))
  = (if decide (buffers = []) then [] else [loaded callbacks ∅])
  ∧ ∀ k, k < length callbacks →
      started (foldl (step paths) parse_start
                 (requests buffers ++ take k callbacks)) = [].
Proof.
  intros Hall Hlen.
  destruct (requests_run paths buffers parse_start)
    as (Hloading & Hbuffers & Hstarted). simpl in *.
  split.
  - rewrite foldl_app.
    destruct (callbacks_run paths callbacks
                (foldl (step paths) parse_start (requests buffers)))
      as (_ & _ & ->); [done|done|lia|].
    rewrite Hbuffers, Hloading, Hlen.
    destruct buffers as [|buffer buffers].
    + destruct callbacks; [|done].
      rewrite decide_False by (by intros [? _]). done.
    + rewrite decide_True; [by rewrite decide_False|].
      split; [by destruct callbacks|done].
  - intros k Hk. rewrite foldl_app.
    destruct (callbacks_run paths (take k callbacks)
                (foldl (step paths) parse_start (requests buffers)))
      as (_ & _ & ->); [by apply Forall_take|done| |].
    + rewrite length_take. lia.
    + rewrite decide_False; [done|]. rewrite length_take. lia.
Qed.

End LoaderProperties.

Lemma load_buffer_url_witness :
  Loader._loadBuffer
    (Loader.load (Loader.mkPaths None None None) "models/robot/scene.gltf")
    (Some "geometry.bin")
  = Some "models/robot/geometry.bin"
  ∧ Loader._loadBuffer
      (Loader.load (Loader.mkPaths None None None) "/scene.gltf")
      (Some "geometry.bin")
    = Some "geometry.bin".
Proof.
  split.
  - apply (load_buffer_url (Loader.mkPaths None None None) "models/robot"
             "scene.gltf" "geometry.bin"); reflexivity.
  - apply (load_buffer_url (Loader.mkPaths None None None) ""
             "scene.gltf" "geometry.bin"); reflexivity.
Defined.

Lemma load_url_without_slash_witness :
  Loader.rootPath (Loader.load (Loader.mkPaths None None None) "scene.gltf")
  = Some "scene.glt"
  ∧ Loader._loadBuffer
      (Loader.load (Loader.mkPaths None None None) "scene.gltf")
      (Some "geometry.bin")
    = Some "scene.glt/geometry.bin".
Proof.
  apply (load_url_without_slash (Loader.mkPaths None None None) "scene.gltf"
           "geometry.bin"); reflexivity.
Defined.

Lemma parse_starts_once_witness :
  Loader.started
    (foldl (Loader.step (Loader.mkPaths (Some "models") None None))
       Loader.parse_start
       (Loader.requests Loader.ex_buffers
        ++ [Loader.Error; Loader.Load "geometry" [Byte.x01]]))
  = [<["geometry" := [Byte.x01]]> ∅]
  ∧ Loader.started
      (foldl (Loader.step (Loader.mkPaths (Some "models") None None))
         Loader.parse_start
         (Loader.requests Loader.ex_buffers ++ [Loader.Error]))
    = [].
Proof.
  destruct (parse_starts_once (Loader.mkPaths (Some "models") None None)
              Loader.ex_buffers
              [Loader.Error; Loader.Load "geometry" [Byte.x01]])
    as [Honce Hbefore].
  - repeat constructor.
  - reflexivity.
  - split; [exact Honce|]. apply (Hbefore 1). simpl. lia.
Defined.

Section TexturesProperties.
Import Textures.

Variable glenum : string → option N.
Variable relative2absolute : option string → option string → string.

Local Abbreviation is2D := (Textures.is2D glenum).
Local Abbreviation formatOf := (Textures.formatOf glenum).
Local Abbreviation samplerParameter := (Textures.samplerParameter glenum).
Local Abbreviation parseTexture :=
  (Textures.parseTexture glenum relative2absolute).
Local Abbreviation _parseTextures :=
  (Textures._parseTextures glenum relative2absolute).

Lemma parseTexture_spec json rootPath crossOrigin textures name textureInfo
    textures' :
  parseTexture json rootPath crossOrigin textures (name, textureInfo)
    = Ok textures' →
  is_Some (obj_get (json_samplers json) (propertyKey (t_sampler textureInfo)))
  ∧ (∀ name', name' ≠ name → textures' !! name' = textures !! name')
  ∧ if is2D textureInfo then
      ∃ imageInfo texture,
        obj_get (json_images json) (propertyKey (t_source textureInfo))
        = Some imageInfo
        ∧ textures' !! name = Some texture
        ∧ tex_url texture = relative2absolute (i_path imageInfo) rootPath
        ∧ tex_format texture = formatOf textureInfo
    else textures' !! name = textures !! name.
Proof.
  unfold Textures.parseTexture.
  destruct (obj_get (json_samplers json) _) as [samplerInfo|]; [|done].
  destruct (is2D textureInfo).
  - destruct (obj_get (json_images json) _) as [imageInfo|]; [|done].
    intros [= <-]. split; [by eexists|].
    split; [intros ? ?; by rewrite lookup_insert_ne|].
    eexists _, _. split; [done|]. by rewrite lookup_insert_eq.
  - intros [= <-]. split; [by eexists|]. done.
Qed.

(** X20.  [_parseTextures] creates the textures whose target is
    [TEXTURE_2D] and nothing else: when it returns, every texture of the
    document names a declared sampler, a 2D texture names a declared image
    and is in [lib.textures] with the url of that image below the texture
    root path, and a texture of any other target (a cube map too) has left
    [lib.textures] as it was. *)
Theorem parseTextures_2D_only json textureRootPath rootPath crossOrigin
    textures textures' :
  NoDup (obj_keys (json_textures json)) →
  _parseTextures json textureRootPath rootPath crossOrigin textures
    = Ok textures' →
  (∀ name textureInfo, (name, textureInfo) ∈ json_textures json →
     is_Some (obj_get (json_samplers json)
                (propertyKey (t_sampler textureInfo)))
     ∧ if is2D textureInfo then
         ∃ imageInfo texture,
           obj_get (json_images json) (propertyKey (t_source textureInfo))
           = Some imageInfo
           ∧ textures' !! name = Some texture
           ∧ tex_url texture
             = relative2absolute (i_path imageInfo)
                 (match textureRootPath with
                  | Some root => Some root
                  | None => rootPath
                  end)
           ∧ tex_format texture = formatOf textureInfo
       else textures' !! name = textures !! name)
  ∧ ∀ name, name ∉ obj_keys (json_textures json) →
      textures' !! name = textures !! name.
Proof.
  intros Hnd. unfold Textures._parseTextures.
  set (root := match textureRootPath with
               | Some root => Some root
               | None => rootPath
               end).
  intros Hloop.
  apply (forM_prefix_invariant
           (λ pre st,
              (∀ name textureInfo, (name, textureInfo) ∈ pre →
                 is_Some (obj_get (json_samplers json)
                            (propertyKey (t_sampler textureInfo)))
                 ∧ if is2D textureInfo then
                     ∃ imageInfo texture,
                       obj_get (json_images json)
                         (propertyKey (t_source textureInfo))
                       = Some imageInfo
                       ∧ st !! name = Some texture
                       ∧ tex_url texture
                         = relative2absolute (i_path imageInfo) root
                       ∧ tex_format texture = formatOf textureInfo
                   else st !! name = textures !! name)
              ∧ ∀ name, name ∉ obj_keys pre → st !! name = textures !! name))
    in Hloop; [done| |].
  - split; [|done]. intros ? ? Hin. inversion Hin.
  - intros pre [name textureInfo] post st st1 Hsplit [Hpre Hother] Hstep.
    apply parseTexture_spec in Hstep as (Hsampler & Hframe & Hnew).
    assert (name ∉ obj_keys pre) as Hfresh.
    { unfold obj_keys in *. rewrite Hsplit, fmap_app in Hnd.
      apply NoDup_app in Hnd as (_ & Hdisj & _). intros Hin.
      apply (Hdisj _ Hin). simpl. left. }
    split.
    + intros name' textureInfo' [Hin|Hin]%elem_of_app.
      * assert (name' ≠ name) as Hne.
        { intros ->. apply Hfresh. unfold obj_keys.
          apply list_elem_of_fmap. by exists (name, textureInfo'). }
        destruct (Hpre _ _ Hin) as [Hs Hcase]. split; [done|].
        rewrite Hframe by done. done.
      * apply list_elem_of_singleton in Hin as [= -> ->].
        split; [done|]. destruct (is2D textureInfo); [done|].
        rewrite Hnew. by apply Hother.
    + intros name' Hnot. unfold obj_keys in Hnot.
      rewrite fmap_app, not_elem_of_app in Hnot. destruct Hnot as [Hnot Hne].
      simpl in Hne. apply not_elem_of_cons in Hne as [Hne _].
      rewrite Hframe by done. by apply Hother.
Qed.

Lemma samplerParameter_same legacy current :
  same_enum glenum legacy current →
  samplerParameter legacy = samplerParameter current.
Proof.
  unfold same_enum, Textures.samplerParameter.
  destruct legacy as [[n|s]|], current as [[n'|s']|]; try done.
  - by intros ->.
  - by intros ->.
Qed.

(** X21.  The deprecated spelling of the GL constants gives the same
    texture as the current one: a texture whose target and format are
    names, over a sampler whose parameters are names or numbers, is parsed
    to what the texture and the sampler with the numbers that [glenum] has
    for those names are parsed to. *)
Theorem parseTexture_legacy_agrees json json' rootPath crossOrigin textures
    name legacy current legacySampler currentSampler :
  same_texture glenum legacy current →
  obj_get (json_samplers json) (propertyKey (t_sampler legacy))
  = Some legacySampler →
  obj_get (json_samplers json') (propertyKey (t_sampler current))
  = Some currentSampler →
  same_sampler glenum legacySampler currentSampler →
  json_images json = json_images json' →
  parseTexture json rootPath crossOrigin textures (name, legacy)
  = parseTexture json' rootPath crossOrigin textures (name, current).
Proof.
  intros (Hsampler & Hsource &
          target & format & n & n' & Htl & Hfl & Hgt & Hgf & Htc & Hfc)
    Hlegacy Hcurrent (HwrapS & HwrapT & Hmag & Hmin) Himages.
  unfold Textures.parseTexture. rewrite Hlegacy, Hcurrent.
  assert (is2D legacy = is2D current) as ->.
  { unfold Textures.is2D, Textures.targetOf. by rewrite Htl, Htc, Hgt. }
  assert (formatOf legacy = formatOf current) as ->.
  { unfold Textures.formatOf, Textures.glenumOf.
    by rewrite Htl, Htc, Hfl, Hfc, Hgf. }
  rewrite Himages, Hsource.
  rewrite (samplerParameter_same _ _ HwrapS), (samplerParameter_same _ _ HwrapT),
    (samplerParameter_same _ _ Hmag), (samplerParameter_same _ _ Hmin).
  done.
Qed.

End TexturesProperties.

Lemma parseTextures_2D_only_witness :
  ∃ textures' wood,
    Textures._parseTextures Textures.ex_glenum Textures.ex_relative2absolute
      Textures.ex_json None (Some "models") None ∅ = Ok textures'
    ∧ textures' !! "wood" = Some wood
    ∧ Textures.tex_url wood = "models/wood.png"
    ∧ Textures.tex_format wood = Some (Textures.EnumNum 6408)
    ∧ textures' !! "sky" = None.
Proof.
  destruct (Textures._parseTextures Textures.ex_glenum
              Textures.ex_relative2absolute Textures.ex_json None
              (Some "models") None ∅)
    as [textures'|e] eqn:Hrun; [|vm_compute in Hrun; discriminate Hrun].
  destruct (parseTextures_2D_only Textures.ex_glenum
              Textures.ex_relative2absolute Textures.ex_json None
              (Some "models") None ∅ textures')
    as [Heach _]; [apply (bool_decide_unpack _); by vm_compute|exact Hrun|].
  destruct (Heach "wood"
              (Textures.mkTextureInfo (Some "smooth")
                 (Some (Textures.EnumStr "TEXTURE_2D"))
                 (Some (Textures.EnumStr "RGBA")) (Some "wood.png")))
    as [_ Hwood]; [left|].
  destruct (Heach "sky"
              (Textures.mkTextureInfo (Some "smooth")
                 (Some (Textures.EnumStr "TEXTURE_CUBE_MAP"))
                 (Some (Textures.EnumStr "RGBA")) (Some "sky.png")))
    as [_ Hsky]; [right; left|].
  change (Textures.is2D Textures.ex_glenum _) with true in Hwood.
  change (Textures.is2D Textures.ex_glenum _) with false in Hsky.
  cbv iota in Hwood, Hsky.
  destruct Hwood as (imageInfo & wood & Himage & Hwood & Hurl & Hformat).
  vm_compute in Himage. injection Himage as <-.
  exists textures', wood. split; [reflexivity|]. split; [exact Hwood|].
  split; [exact Hurl|]. split; [exact Hformat|]. exact Hsky.
Defined.

Lemma parseTexture_legacy_agrees_witness :
  Textures.parseTexture Textures.ex_glenum Textures.ex_relative2absolute
    Textures.ex_json (Some "models") None ∅
    ("wood", Textures.mkTextureInfo (Some "smooth")
               (Some (Textures.EnumStr "TEXTURE_2D"))
               (Some (Textures.EnumStr "RGBA")) (Some "wood.png"))
  = Textures.parseTexture Textures.ex_glenum Textures.ex_relative2absolute
      Textures.ex_current (Some "models") None ∅
      ("wood", Textures.mkTextureInfo (Some "smooth")
                 (Some (Textures.EnumNum 3553)) (Some (Textures.EnumNum 6408))
                 (Some "wood.png")).
Proof.
  apply (parseTexture_legacy_agrees Textures.ex_glenum
           Textures.ex_relative2absolute Textures.ex_json Textures.ex_current
           (Some "models") None ∅ "wood" _ _
           (Textures.mkSampler (Some (Textures.EnumStr "REPEAT"))
              (Some (Textures.EnumNum 10497))
              (Some (Textures.EnumStr "LINEAR")) None)
           (Textures.mkSampler (Some (Textures.EnumNum 10497))
              (Some (Textures.EnumNum 10497))
              (Some (Textures.EnumNum 9729)) None)).
  - split; [reflexivity|]. split; [reflexivity|].
    exists "TEXTURE_2D", "RGBA", 3553%N, 6408%N. repeat split; reflexivity.
  - reflexivity.
  - reflexivity.
  - repeat split; reflexivity.
  - reflexivity.
Defined.

Section PointLightProperties.
Import PointLightUniforms.

Context {num : Type}.
Variable nan : num.
Variable mul : num → num → num.

Local Abbreviation pointLightColor :=
  (PointLightUniforms.pointLightColor nan mul).

(** X22.  The [pointLightColor] uniform never carries the blue channel of
    the light: its third component is computed from [color[1]], so it
    equals the second, and two lights of the same intensity whose colors
    agree in the red and green channels get the same uniform whatever
    their blue channels are. *)
Theorem pointLightColor_ignores_blue (instance instance' : Instance) :
  take 2 (color instance) = take 2 (color instance') →
  intensity instance = intensity instance' →
  pointLightColor instance = pointLightColor instance'
  ∧ pointLightColor instance !! 2 = pointLightColor instance !! 1.
Proof.
  intros Hcolor Hintensity. split; [|done].
  unfold PointLightUniforms.pointLightColor, scaled. rewrite Hintensity.
  assert (∀ k, k < 2 → color instance !! k = color instance' !! k) as Hk.
  { intros k Hlt. rewrite <- (lookup_take_lt (color instance) 2 k) by done.
    rewrite Hcolor. by apply lookup_take_lt. }
  rewrite (Hk 0), (Hk 1) by lia. done.
Qed.

End PointLightProperties.

Lemma pointLightColor_ignores_blue_witness :
  PointLightUniforms.pointLightColor 0%Z Z.mul PointLightUniforms.ex_blue
  = PointLightUniforms.pointLightColor 0%Z Z.mul PointLightUniforms.ex_black.
Proof.
  apply (pointLightColor_ignores_blue 0%Z Z.mul PointLightUniforms.ex_blue
           PointLightUniforms.ex_black); reflexivity.
Defined.

Section BasicShaderProperties.
Import BasicShader.

Context {float : Type}.
Variable one hundredth ALPHA_TEST_THRESHOLD gamma : float.
Variable lt : float → float → bool.
Local Abbreviation vec2 := (BasicShader.vec2 (float := float)).
Local Abbreviation vec3 := (BasicShader.vec3 (float := float)).
Local Abbreviation vec4 := (BasicShader.vec4 (float := float)).
Variable add3 mul3 pow3 : vec3 → vec3 → vec3.
Variable mix : vec3 → vec3 → float → vec3.
Variable texture2D : vec2 → vec4.
Variable decodeHDR encodeHDR sRGBToLinear : vec4 → vec4.
Variable edgeFactor : vec3 → float → float.

Local Abbreviation fragment :=
  (BasicShader.fragment one hundredth ALPHA_TEST_THRESHOLD gamma lt add3 mul3
     pow3 mix texture2D decodeHDR encodeHDR sRGBToLinear edgeFactor).
Local Abbreviation testedAlpha :=
  (BasicShader.testedAlpha texture2D decodeHDR sRGBToLinear).

(** X23.  In the fragment shader only the diffuse map can change the
    alpha of a fragment, and only when compiled with
    [DIFFUSEMAP_ALPHA_ALPHA]: color, emission, wireframe and gamma leave it
    alone.  So with [RENDER_TEXCOORD] the fragment is the texture
    coordinate and is never discarded; otherwise it is discarded exactly
    when [ALPHA_TEST] is defined and that alpha is below the threshold, and
    a fragment that is kept is encoded with that alpha. *)
Theorem fragment_alpha defines uniforms v_Texcoord v_Barycentric :
  if RENDER_TEXCOORD defines then
    fragment defines uniforms v_Texcoord v_Barycentric
    = Some (mkVec4 (mkVec3 (v_x v_Texcoord) (v_y v_Texcoord) one) one)
  else if ALPHA_TEST defines
          && lt (testedAlpha defines uniforms v_Texcoord) ALPHA_TEST_THRESHOLD
  then fragment defines uniforms v_Texcoord v_Barycentric = None
  else ∃ color,
         fragment defines uniforms v_Texcoord v_Barycentric
         = Some (encodeHDR
                   (mkVec4 color (testedAlpha defines uniforms v_Texcoord))).
Proof.
  unfold BasicShader.fragment, BasicShader.testedAlpha.
  destruct (RENDER_TEXCOORD defines); [done|].
  destruct (DIFFUSEMAP_ENABLED defines), (DIFFUSEMAP_ALPHA_ALPHA defines),
    (lt hundredth (u_lineWidth uniforms)), (GAMMA_ENCODE defines);
    cbn [andb a rgb];
    (destruct (ALPHA_TEST defines && lt _ ALPHA_TEST_THRESHOLD);
     [done|by eexists]).
Qed.

End BasicShaderProperties.
